(** * ocrdb: document ingestion, OCR state machine, retrieval, search and
      folder listing, verified over a shallow embedding of
      [backend/app/{models,database,storage,ocr,api}.py].

    Modelling conventions.
    - Python [bytes] are Rocq [string]s, and a Python [str] is the Rocq
      [string] of its UTF-8 encoding.  Splitting on an ASCII character,
      prefixes, substrings, equality and the order of two texts are the same
      on the encoding as on the code points.  [str.strip] removes the
      encodings of the characters Python counts as white space;
      [str.lower] is the interpreter's and is a field of [Env].
    - [uuid.uuid4()] draws from a counter kept in the world, so every draw is
      fresh; [datetime.utcnow()] reads the world's clock, which no handler
      advances: no statement below depends on what two readings are.
    - [dict] is an insertion-ordered association list, as in CPython.
    - The libraries the program calls (mimetypes, zipfile, PIL, pdf2image and
      the OCR engines) are the fields of an environment record [Env].
    - [async]/[await] is sequential composition: every coroutine of the
      program is awaited where it is called.
    - The exceptions modelled are those the program raises or catches
      ([HTTPException], [StorageError], [OCRError]) and those its library
      calls raise on the data of a request: [BadZipFile] from opening an
      archive, what reading one archive member raises, [IndexError] from
      [ZipInfo.is_dir] on an empty member name (CPython up to 3.11, which
      tests [filename[-1]]), [TypeError] from comparing an upload date with
      a timezone-aware bound, and [UnicodeEncodeError] from the latin-1
      encoding of a response header.  Operating-system failures are not. *)

From Stdlib Require Import String Ascii List ZArith Lia Bool Arith.
From Stdlib Require Import Permutation Sorted DecimalString.
From Stdlib Require DecimalNat OrdersEx.
Import ListNotations.
Local Open Scope string_scope.
Local Open Scope Z_scope.

(** ** Python string operations *)

Module Str.

(** [str.isspace], on the UTF-8 encoding.  The white space of one byte:
    TAB..CR, FS..US and SPACE. *)
Definition is_space (c : ascii) : bool :=
  let n := nat_of_ascii c in
  (((9 <=? n) && (n <=? 13)) || ((28 <=? n) && (n <=? 32)))%nat.

(** Of two bytes: U+0085 and U+00A0. *)
Definition is_space2 (a b : ascii) : bool :=
  let b := nat_of_ascii b in
  ((nat_of_ascii a =? 194) && ((b =? 133) || (b =? 160)))%nat.

(** Of three bytes: U+1680, U+2000..U+200A, U+2028, U+2029, U+202F, U+205F
    and U+3000. *)
Definition is_space3 (a b c : ascii) : bool :=
  let a := nat_of_ascii a in
  let b := nat_of_ascii b in
  let c := nat_of_ascii c in
  (((a =? 225) && (b =? 154) && (c =? 128))
   || ((a =? 226) && (b =? 128)
       && (((128 <=? c) && (c <=? 138)) || (c =? 168) || (c =? 169) || (c =? 175)))
   || ((a =? 226) && (b =? 129) && (c =? 159))
   || ((a =? 227) && (b =? 128) && (c =? 128)))%nat.

Fixpoint lstrip_by (p : ascii -> bool) (s : string) : string :=
  match s with
  | EmptyString => EmptyString
  | String c r => if p c then lstrip_by p r else s
  end.

Fixpoint rstrip_by (p : ascii -> bool) (s : string) : string :=
  match s with
  | EmptyString => EmptyString
  | String c r =>
      match rstrip_by p r with
      | EmptyString => if p c then EmptyString else String c EmptyString
      | r' => String c r'
      end
  end.

(** [s.lstrip()] *)
Fixpoint lstrip (s : string) : string :=
  match s with
  | EmptyString => EmptyString
  | String a r =>
      if is_space a then lstrip r
      else
        match r with
        | EmptyString => s
        | String b r2 =>
            if is_space2 a b then lstrip r2
            else
              match r2 with
              | EmptyString => s
              | String c r3 => if is_space3 a b c then lstrip r3 else s
              end
        end
  end.

(** The bytes of [s], last first. *)
Fixpoint reversed (s acc : string) : string :=
  match s with
  | EmptyString => acc
  | String c r => reversed r (String c acc)
  end.

(** [lstrip] on the reversed text, where the bytes of a character come last
    first. *)
Fixpoint lstrip_reversed (s : string) : string :=
  match s with
  | EmptyString => EmptyString
  | String a r =>
      if is_space a then lstrip_reversed r
      else
        match r with
        | EmptyString => s
        | String b r2 =>
            if is_space2 b a then lstrip_reversed r2
            else
              match r2 with
              | EmptyString => s
              | String c r3 => if is_space3 c b a then lstrip_reversed r3 else s
              end
        end
  end.

(** [s.rstrip()] *)
Definition rstrip (s : string) : string :=
  reversed (lstrip_reversed (reversed s EmptyString)) EmptyString.

(** [s.strip()] *)
Definition strip (s : string) : string := rstrip (lstrip s).

(** [s.strip(c)] and [s.rstrip(c)] for a one-character argument *)
Definition strip_char (c : ascii) (s : string) : string :=
  rstrip_by (Ascii.eqb c) (lstrip_by (Ascii.eqb c) s).
Definition rstrip_char (c : ascii) (s : string) : string := rstrip_by (Ascii.eqb c) s.

(** [s.split(sep)] for a one-character separator: never empty. *)
Fixpoint split (sep : ascii) (s : string) : list string :=
  match s with
  | EmptyString => [EmptyString]
  | String c r =>
      if Ascii.eqb c sep then EmptyString :: split sep r
      else match split sep r with
           | [] => [String c EmptyString]
           | w :: ws => String c w :: ws
           end
  end.

(** [s.startswith(p)] *)
Definition startswith (p s : string) : bool := String.prefix p s.

(** [needle in hay] *)
Fixpoint contains (needle hay : string) : bool :=
  String.prefix needle hay ||
  match hay with
  | EmptyString => false
  | String _ r => contains needle r
  end.

(** [s.endswith(c)] for a one-character argument *)
Fixpoint endswith_char (c : ascii) (s : string) : bool :=
  match s with
  | EmptyString => false
  | String a EmptyString => Ascii.eqb a c
  | String _ r => endswith_char c r
  end.

(** [sep.join(l)] *)
Definition join (sep : string) (l : list string) : string := String.concat sep l.

(** [os.path.basename(p)]: what follows the last slash. *)
Fixpoint basename (p : string) : string :=
  match p with
  | EmptyString => EmptyString
  | String c r =>
      if contains "/" r then basename r
      else if Ascii.eqb c "/" then r else p
  end.

(** The part of [s] from its last dot on, if it has a dot. *)
Fixpoint from_last_dot (s : string) : option string :=
  match s with
  | EmptyString => None
  | String c r =>
      match from_last_dot r with
      | Some e => Some e
      | None => if Ascii.eqb c "." then Some s else None
      end
  end.

(** [os.path.splitext(p)[1]]: the extension of the last path component,
    whose leading dots do not start an extension. *)
Definition splitext_ext (p : string) : string :=
  match from_last_dot (lstrip_by (Ascii.eqb ".") (basename p)) with
  | Some e => e
  | None => EmptyString
  end.

(** Truthiness of a [str]. *)
Definition truthy (s : string) : bool := negb (s =? "")%string.

(** Truthiness of an [Optional[str]]. *)
Definition truthy_opt (o : option string) : bool :=
  match o with Some s => truthy s | None => false end.

(** Whether [s.encode("latin-1")] succeeds: every character is below U+0100,
    that is, is one byte below 128 or the two bytes of U+0080..U+00FF. *)
Fixpoint latin1 (s : string) : bool :=
  match s with
  | EmptyString => true
  | String a r =>
      if (nat_of_ascii a <? 128)%nat then latin1 r
      else
        match r with
        | EmptyString => false
        | String b r2 =>
            ((nat_of_ascii a =? 194) || (nat_of_ascii a =? 195))%nat
            && ((128 <=? nat_of_ascii b) && (nat_of_ascii b <=? 191))%nat
            && latin1 r2
        end
  end.

End Str.

(** ** Python containers *)

(** [l[a:b]] with Python's treatment of negative and out-of-range bounds. *)
Definition slice_index (n i : Z) : Z :=
  if i <? 0 then Z.max 0 (i + n) else Z.min i n.

Definition py_slice {A} (a b : Z) (l : list A) : list A :=
  let n := Z.of_nat (List.length l) in
  let lo := slice_index n a in
  let hi := slice_index n b in
  firstn (Z.to_nat (hi - lo)) (skipn (Z.to_nat lo) l).

Section Dict.
Context {K V : Type} (keqb : K -> K -> bool).

(** [d.get(k)] *)
Fixpoint dict_get (k : K) (d : list (K * V)) : option V :=
  match d with
  | [] => None
  | (k', v) :: r => if keqb k k' then Some v else dict_get k r
  end.

(** [d[k] = v]: an existing key keeps its position. *)
Fixpoint dict_set (k : K) (v : V) (d : list (K * V)) : list (K * V) :=
  match d with
  | [] => [(k, v)]
  | (k', v') :: r => if keqb k k' then (k, v) :: r else (k', v') :: dict_set k v r
  end.

(** [del d[k]] *)
Fixpoint dict_del (k : K) (d : list (K * V)) : list (K * V) :=
  match d with
  | [] => []
  | (k', v') :: r => if keqb k k' then r else (k', v') :: dict_del k r
  end.

(** [k in d] *)
Definition dict_mem (k : K) (d : list (K * V)) : bool :=
  match dict_get k d with Some _ => true | None => false end.

(** [list(d.values())] *)
Definition dict_values (d : list (K * V)) : list V := map snd d.

Definition dict_keys (d : list (K * V)) : list K := map fst d.
End Dict.

(** A stable sort: [insert_sorted] puts an element before the first one that
    is not smaller, so equal elements keep their order. *)
Section Sort.
Context {A : Type} (le : A -> A -> bool).

Fixpoint insert_sorted (x : A) (l : list A) : list A :=
  match l with
  | [] => [x]
  | y :: r => if le x y then x :: l else y :: insert_sorted x r
  end.

Definition stable_sort (l : list A) : list A := fold_right insert_sorted [] l.

(** [l.sort(key=..., reverse=r)]: CPython reverses, sorts and reverses
    again when [reverse] is set. *)
Definition list_sort (reverse : bool) (l : list A) : list A :=
  if reverse then rev (stable_sort (rev l)) else stable_sort l.
End Sort.

(** ** models.py *)

Definition UUID := nat.
Definition bytes := string.

Inductive OCRStatus := PENDING | PROCESSING | COMPLETED | FAILED.

Definition OCRStatus_eqb (a b : OCRStatus) : bool :=
  match a, b with
  | PENDING, PENDING | PROCESSING, PROCESSING
  | COMPLETED, COMPLETED | FAILED, FAILED => true
  | _, _ => false
  end.

Record Tag := mkTag {
  tag_id : UUID;
  tag_name : string;
  tag_color : string
}.

Record Document := mkDocument {
  filename : string;
  mime_type : string;
  size : Z;
  folder_path : string;
  doc_id : UUID;
  file_path : string;
  thumbnail_path : option string;
  upload_date : Z;
  ocr_status : OCRStatus;
  ocr_text : option string;
  ocr_engine : option string;
  ocr_engine_version : option string;
  tags : list Tag;
  metadata : list (string * string)
}.

(** A [datetime]: naive, as [datetime.utcnow()] makes them and as every
    upload date is, or timezone-aware, as a request may send one. *)
Inductive datetime :=
| Naive (t : Z)
| Aware (t : Z) (utcoffset : Z).

Record SearchQuery := mkSearchQuery {
  q_text : option string;
  q_tags : list string;
  q_folder_path : option string;
  q_mime_types : list string;
  q_date_from : option datetime;
  q_date_to : option datetime;
  q_page : Z;
  q_page_size : Z;
  q_sort_by : string;
  q_sort_order : string
}.

Record SystemSettings := mkSystemSettings {
  storage_type : string;
  max_file_size : Z;
  max_zip_size : Z;
  default_ocr_engine : string
}.

(** [SystemSettings()] *)
Definition default_settings : SystemSettings :=
  {| storage_type := "local";
     max_file_size := 10 * 1024 * 1024;
     max_zip_size := 50 * 1024 * 1024;
     default_ocr_engine := "tesseract" |}.

(** ** The world the program runs in *)

Record InMemoryDB := mkInMemoryDB {
  documents : list (UUID * Document);
  db_tags : list (UUID * Tag);
  settings : SystemSettings
}.

Record World := mkWorld {
  db : InMemoryDB;                 (* the module-level [db = InMemoryDB()] *)
  files : list (string * bytes);   (* the local filesystem, path to content *)
  uuid_next : nat;                 (* the next value of [uuid.uuid4()] *)
  clock : Z                        (* [datetime.utcnow()] *)
}.

(** What a request handler can raise. *)
Inductive Detail :=
| File_too_large (maximum : Z)
| ZIP_file_too_large (maximum : Z)
| No_valid_files_found_in_ZIP_archive
| Document_not_found
| Thumbnail_not_available
| Storage_error (msg : string).

(** [HTTPException] is what the handlers raise themselves; the others are
    raised by library calls and caught nowhere. *)
Inductive Failure :=
| HTTPException (status_code : nat) (detail : Detail)
| BadZipFile
| RuntimeError (msg : string)
| NotImplementedError (msg : string)
| IndexError (msg : string)
| TypeError (msg : string)
| UnicodeEncodeError (encoding : string) (object : string).

(** One member of an archive: [ZipInfo.filename], [ZipInfo.file_size] (the
    size its header declares) and what [zip_file.open(zip_info).read()]
    does: it returns the bytes, or raises ([BadZipFile] on a bad CRC,
    [RuntimeError] on an encrypted member, [NotImplementedError] on an
    unsupported compression method). *)
Record ZipInfo := mkZipInfo {
  zi_filename : string;
  zi_file_size : Z;
  zi_read : Failure + bytes
}.

Inductive PdfPages :=
| Pdf2ImageMissing                 (* [from pdf2image import ...] fails *)
| RasterError (msg : string)       (* any other exception *)
| Pages (images : list bytes).

(** The libraries the program calls. *)
Record Env := mkEnv {
  (* [str.lower] *)
  str_lower : string -> string;
  (* [mimetypes.guess_type(name)[0]] *)
  guess_type : string -> option string;
  (* [zipfile.ZipFile(...).infolist()]; [None] when opening raises *)
  zip_infolist : bytes -> option (list ZipInfo);
  (* PIL open, thumbnail and save; [None] when any of them raises *)
  pil_thumbnail : bytes -> option bytes;
  (* [pytesseract.get_tesseract_version().version_str], or "unknown" *)
  tesseract_version : string;
  EASYOCR_AVAILABLE : bool;
  PADDLEOCR_AVAILABLE : bool;
  (* text recognition by the named engine: an exception message or the text *)
  recognize : string -> bytes -> string + string;
  (* [pdf2image.convert_from_bytes], each page saved as PNG *)
  convert_from_bytes : bytes -> PdfPages
}.

(** What the asynchronous OCR path catches; [str e] is the message. *)
Inductive Exn :=
| StorageError (msg : string)
| OCRError (msg : string).

Definition str (e : Exn) : string :=
  match e with StorageError m | OCRError m => m end.

(** A handler is a state transformer that returns or raises; what it wrote
    before raising stays written. *)
Definition M (A : Type) : Type := World -> (Failure + A) * World.

Definition ret {A} (a : A) : M A := fun w => (inr a, w).
Definition raise {A} (f : Failure) : M A := fun w => (inl f, w).
Definition bind {A B} (m : M A) (k : A -> M B) : M B :=
  fun w => match m w with
           | (inr a, w') => k a w'
           | (inl f, w') => (inl f, w')
           end.
Definition gets {A} (f : World -> A) : M A := fun w => (inr (f w), w).
Definition modify (f : World -> World) : M unit := fun w => (inr tt, f w).

Declare Scope handler_scope.
Delimit Scope handler_scope with handler.
Notation "x <- m ;; k" := (bind m (fun x => k))
  (at level 100, m at next level, right associativity) : handler_scope.
Notation "m ;;; k" := (bind m (fun _ => k))
  (at level 100, right associativity) : handler_scope.

Definition set_db (d : InMemoryDB) (w : World) : World :=
  {| db := d; files := files w; uuid_next := uuid_next w; clock := clock w |}.
Definition set_files (f : list (string * bytes)) (w : World) : World :=
  {| db := db w; files := f; uuid_next := uuid_next w; clock := clock w |}.

(** [uuid.uuid4()] *)
Definition uuid4 : M UUID :=
  fun w => (inr (uuid_next w),
            {| db := db w; files := files w; uuid_next := S (uuid_next w); clock := clock w |}).

(** [str(u)] for a UUID *)
Definition uuid_str (u : UUID) : string := NilZero.string_of_uint (Nat.to_uint u).

(** ** database.py *)

Module database.
Section WithEnv.
Context (env : Env).

Definition init : InMemoryDB :=
  {| documents := []; db_tags := []; settings := default_settings |}.

Definition set_documents (ds : list (UUID * Document)) (d : InMemoryDB) : InMemoryDB :=
  {| documents := ds; db_tags := db_tags d; settings := settings d |}.
Definition set_tags (ts : list (UUID * Tag)) (d : InMemoryDB) : InMemoryDB :=
  {| documents := documents d; db_tags := ts; settings := settings d |}.

Definition get_document (document_id : UUID) (d : InMemoryDB) : option Document :=
  dict_get Nat.eqb document_id (documents d).

Definition list_documents (skip limit : Z) (folder : option string) (d : InMemoryDB)
  : list Document :=
  let docs := dict_values (documents d) in
  let docs :=
    match folder with
    | Some f => if Str.truthy f then filter (fun doc => folder_path doc =? f)%string docs
                else docs
    | None => docs
    end in
  py_slice skip (skip + limit) docs.

Definition create_document (document : Document) (d : InMemoryDB) : InMemoryDB :=
  set_documents (dict_set Nat.eqb (doc_id document) document (documents d)) d.

(** One entry of the [update_data] dictionary.  Every key the program
    passes is an attribute of [Document], so [hasattr] holds. *)
Inductive Assignment :=
| Set_ocr_status (v : OCRStatus)
| Set_ocr_text (v : string)
| Set_ocr_engine (v : string)
| Set_ocr_engine_version (v : string)
| Set_metadata (v : list (string * string)).

Definition setattr (doc : Document) (a : Assignment) : Document :=
  match a with
  | Set_ocr_status v =>
      mkDocument (filename doc) (mime_type doc) (size doc) (folder_path doc) (doc_id doc)
        (file_path doc) (thumbnail_path doc) (upload_date doc) v (ocr_text doc)
        (ocr_engine doc) (ocr_engine_version doc) (tags doc) (metadata doc)
  | Set_ocr_text v =>
      mkDocument (filename doc) (mime_type doc) (size doc) (folder_path doc) (doc_id doc)
        (file_path doc) (thumbnail_path doc) (upload_date doc) (ocr_status doc) (Some v)
        (ocr_engine doc) (ocr_engine_version doc) (tags doc) (metadata doc)
  | Set_ocr_engine v =>
      mkDocument (filename doc) (mime_type doc) (size doc) (folder_path doc) (doc_id doc)
        (file_path doc) (thumbnail_path doc) (upload_date doc) (ocr_status doc) (ocr_text doc)
        (Some v) (ocr_engine_version doc) (tags doc) (metadata doc)
  | Set_ocr_engine_version v =>
      mkDocument (filename doc) (mime_type doc) (size doc) (folder_path doc) (doc_id doc)
        (file_path doc) (thumbnail_path doc) (upload_date doc) (ocr_status doc) (ocr_text doc)
        (ocr_engine doc) (Some v) (tags doc) (metadata doc)
  | Set_metadata v =>
      mkDocument (filename doc) (mime_type doc) (size doc) (folder_path doc) (doc_id doc)
        (file_path doc) (thumbnail_path doc) (upload_date doc) (ocr_status doc) (ocr_text doc)
        (ocr_engine doc) (ocr_engine_version doc) (tags doc) v
  end.

(** The stored object is updated in place: it keeps its key and its
    position in the dictionary. *)
Definition update_document (document_id : UUID) (update_data : list Assignment)
    (d : InMemoryDB) : option Document * InMemoryDB :=
  match dict_get Nat.eqb document_id (documents d) with
  | None => (None, d)
  | Some doc =>
      let doc' := fold_left setattr update_data doc in
      (Some doc', set_documents (dict_set Nat.eqb document_id doc' (documents d)) d)
  end.

Definition delete_document (document_id : UUID) (d : InMemoryDB) : bool * InMemoryDB :=
  if dict_mem Nat.eqb document_id (documents d)
  then (true, set_documents (dict_del Nat.eqb document_id (documents d)) d)
  else (false, d).

(** The six filters of [search_documents], in the order the code applies
    them.  A filter whose argument is falsy is skipped. *)
Definition text_filter (text : option string) (docs : list Document) : list Document :=
  match text with
  | Some t =>
      if Str.truthy t then
        let t := str_lower env t in
        filter (fun doc =>
                  match ocr_text doc with
                  | Some o => Str.truthy o && Str.contains t (str_lower env o)
                  | None => false
                  end || Str.contains t (str_lower env (filename doc))) docs
      else docs
  | None => docs
  end.

Definition tags_filter (names : list string) (docs : list Document) : list Document :=
  match names with
  | [] => docs
  | _ => filter (fun doc =>
                   existsb (fun tag => existsb (String.eqb (tag_name tag)) names) (tags doc))
           docs
  end.

Definition folder_filter (folder : option string) (docs : list Document) : list Document :=
  match folder with
  | Some f => if Str.truthy f then filter (fun doc => folder_path doc =? f)%string docs
              else docs
  | None => docs
  end.

Definition mime_filter (mimes : list string) (docs : list Document) : list Document :=
  match mimes with
  | [] => docs
  | _ => filter (fun doc => existsb (String.eqb (mime_type doc)) mimes) docs
  end.

(** An upload date is naive: comparing the first one with a timezone-aware
    bound raises [TypeError]; with no document left there is nothing to
    compare. *)
Definition naive_aware : Failure :=
  TypeError "can't compare offset-naive and offset-aware datetimes".

Definition date_from_filter (d : option datetime) (docs : list Document)
  : Failure + list Document :=
  match d with
  | Some (Naive t) => inr (filter (fun doc => upload_date doc >=? t) docs)
  | Some (Aware _ _) =>
      match docs with
      | [] => inr []
      | _ :: _ => inl naive_aware
      end
  | None => inr docs
  end.

Definition date_to_filter (d : option datetime) (docs : list Document)
  : Failure + list Document :=
  match d with
  | Some (Naive t) => inr (filter (fun doc => upload_date doc <=? t) docs)
  | Some (Aware _ _) =>
      match docs with
      | [] => inr []
      | _ :: _ => inl naive_aware
      end
  | None => inr docs
  end.

Definition sort_results (sort_by sort_order : string) (results : list Document)
  : list Document :=
  let reverse := (str_lower env sort_order =? "desc")%string in
  if (sort_by =? "upload_date")%string then
    list_sort (fun x y => upload_date x <=? upload_date y) reverse results
  else if (sort_by =? "filename")%string then
    list_sort (fun x y => String.leb (filename x) (filename y)) reverse results
  else if (sort_by =? "size")%string then
    list_sort (fun x y => size x <=? size y) reverse results
  else results.

Definition search_documents (text : option string) (tag_names : list string)
    (folder : option string) (mimes : list string) (date_from date_to : option datetime)
    (skip limit : Z) (sort_by sort_order : string) (d : InMemoryDB)
  : Failure + list Document :=
  let results := dict_values (documents d) in
  let results := text_filter text results in
  let results := tags_filter tag_names results in
  let results := folder_filter folder results in
  let results := mime_filter mimes results in
  match date_from_filter date_from results with
  | inl e => inl e
  | inr results =>
      match date_to_filter date_to results with
      | inl e => inl e
      | inr results =>
          let results := sort_results sort_by sort_order results in
          inr (py_slice skip (skip + limit) results)
      end
  end.

Definition get_tag_by_name (name : string) (d : InMemoryDB) : option Tag :=
  find (fun tag => (str_lower env (tag_name tag) =? str_lower env name)%string)
       (dict_values (db_tags d)).

Definition list_tags (d : InMemoryDB) : list Tag := dict_values (db_tags d).

Definition create_tag (tag : Tag) (d : InMemoryDB) : InMemoryDB :=
  set_tags (dict_set Nat.eqb (tag_id tag) tag (db_tags d)) d.

Definition get_tag (tid : UUID) (d : InMemoryDB) : option Tag :=
  dict_get Nat.eqb tid (db_tags d).

(** [doc.tags = ts] *)
Definition assign_tags (doc : Document) (ts : list Tag) : Document :=
  mkDocument (filename doc) (mime_type doc) (size doc) (folder_path doc) (doc_id doc)
    (file_path doc) (thumbnail_path doc) (upload_date doc) (ocr_status doc) (ocr_text doc)
    (ocr_engine doc) (ocr_engine_version doc) ts (metadata doc).

(** [[tag for tag in doc.tags if tag.id != tag_id]] *)
Definition without_tag (tid : UUID) (ts : list Tag) : list Tag :=
  filter (fun tag => negb (Nat.eqb (tag_id tag) tid)) ts.

(** The tag leaves the index and every document; a tag that is not in the
    index is not looked for in the documents. *)
Definition delete_tag (tid : UUID) (d : InMemoryDB) : bool * InMemoryDB :=
  if dict_mem Nat.eqb tid (db_tags d) then
    (true,
     mkInMemoryDB
       (map (fun kv => (fst kv, assign_tags (snd kv) (without_tag tid (tags (snd kv)))))
            (documents d))
       (dict_del Nat.eqb tid (db_tags d))
       (settings d))
  else (false, d).

Definition add_tag_to_document (document_id tid : UUID) (d : InMemoryDB)
  : option Document * InMemoryDB :=
  match dict_get Nat.eqb document_id (documents d), dict_get Nat.eqb tid (db_tags d) with
  | Some doc, Some tag =>
      if existsb (fun t => Nat.eqb (tag_id t) (tag_id tag)) (tags doc) then (Some doc, d)
      else
        let doc' := assign_tags doc (tags doc ++ [tag])%list in
        (Some doc', set_documents (dict_set Nat.eqb document_id doc' (documents d)) d)
  | _, _ => (None, d)
  end.

Definition remove_tag_from_document (document_id tid : UUID) (d : InMemoryDB)
  : option Document * InMemoryDB :=
  match dict_get Nat.eqb document_id (documents d) with
  | None => (None, d)
  | Some doc =>
      let doc' := assign_tags doc (without_tag tid (tags doc)) in
      (Some doc', set_documents (dict_set Nat.eqb document_id doc' (documents d)) d)
  end.

Definition update_settings (s : SystemSettings) (d : InMemoryDB) : InMemoryDB :=
  mkInMemoryDB (documents d) (db_tags d) s.

End WithEnv.
End database.

(** ** storage.py *)

Module storage.
Section WithEnv.
Context (env : Env).

Inductive Storage :=
| LocalStorage (base_dir : string)
| S3Storage (s : SystemSettings).

(** The factory reads the settings at every call. *)
Definition storage_for (s : SystemSettings) : Storage :=
  if (storage_type s =? "s3")%string then S3Storage s else LocalStorage "storage".

Definition get_storage : M Storage := gets (fun w => storage_for (settings (db w))).

(** [LocalStorage] writes the content under a fresh name that keeps the
    extension; the [S3Storage] placeholder only makes up the key. *)
Definition save_file (st : Storage) (file_content : bytes) (name : string) : M string :=
  (let ext := Str.splitext_ext name in
   u <- uuid4 ;;
   match st with
   | LocalStorage base_dir =>
       let path := (base_dir ++ "/documents/" ++ uuid_str u ++ ext)%string in
       modify (fun w => set_files (dict_set String.eqb path file_content (files w)) w) ;;;
       ret path
   | S3Storage _ => ret ("documents/" ++ uuid_str u ++ ext)%string
   end)%handler.

Definition get_file (st : Storage) (path : string) (w : World) : Exn + (bytes * string) :=
  match st with
  | LocalStorage _ =>
      match dict_get String.eqb path (files w) with
      | None => inl (StorageError ("File not found: " ++ path))
      | Some content =>
          let mime :=
            match guess_type env path with
            | Some m => if Str.truthy m then m else "application/octet-stream"
            | None => "application/octet-stream"
            end in
          inr (content, mime)
      end
  | S3Storage _ => inl (StorageError "S3 storage is not fully implemented")
  end.

Definition delete_file (st : Storage) (path : string) : M bool :=
  match st with
  | LocalStorage _ =>
      fun w =>
        if dict_mem String.eqb path (files w)
        then (inr true, set_files (dict_del String.eqb path (files w)) w)
        else (inr false, w)
  | S3Storage _ => ret false
  end.

(** Every exception inside [create_thumbnail] makes it return [None]. *)
Definition create_thumbnail (st : Storage) (path : string) : M (option string) :=
  (found <- gets (get_file st path) ;;
   match found with
   | inl _ => ret None
   | inr (file_content, mime) =>
       if negb (Str.startswith "image/" mime) then ret None
       else match pil_thumbnail env file_content with
            | None => ret None
            | Some thumb_buffer =>
                p <- save_file st thumb_buffer ("thumb_" ++ Str.basename path)%string ;;
                ret (Some p)
            end
   end)%handler.

End WithEnv.
End storage.

(** ** ocr.py *)

Module ocr.
Section WithEnv.
Context (env : Env).

Inductive OCRProcessor := TesseractOCR | EasyOCR | PaddleOCRProcessor.

Definition name (p : OCRProcessor) : string :=
  match p with
  | TesseractOCR => "tesseract"
  | EasyOCR => "easyocr"
  | PaddleOCRProcessor => "paddleocr"
  end.

Definition version (p : OCRProcessor) : string :=
  match p with
  | TesseractOCR => tesseract_version env
  | EasyOCR | PaddleOCRProcessor => "unknown"
  end.

Definition error_prefix (p : OCRProcessor) : string :=
  match p with
  | TesseractOCR => "Tesseract OCR error: "
  | EasyOCR => "EasyOCR error: "
  | PaddleOCRProcessor => "PaddleOCR error: "
  end.

(** Every exception of the engine becomes an [OCRError]. *)
Definition process_image (p : OCRProcessor) (image : bytes) : Exn + string :=
  match recognize env (name p) image with
  | inl e => inl (OCRError (error_prefix p ++ e))
  | inr text => inr text
  end.

Fixpoint process_pages (p : OCRProcessor) (images : list bytes) : Exn + list string :=
  match images with
  | [] => inr []
  | img :: rest =>
      match process_image p img with
      | inl e => inl e
      | inr text =>
          match process_pages p rest with
          | inl e => inl e
          | inr results => inr (text :: results)
          end
      end
  end.

(** The three [process_pdf] methods are the same text. *)
Definition process_pdf (p : OCRProcessor) (pdf : bytes) : Exn + list string :=
  match convert_from_bytes env pdf with
  | Pdf2ImageMissing => inl (OCRError "pdf2image is required for PDF processing")
  | RasterError e => inl (OCRError ("PDF processing error: " ++ e))
  | Pages images => process_pages p images
  end.

Definition get_ocr_processor (engine : string) : Exn + OCRProcessor :=
  if (engine =? "tesseract")%string then inr TesseractOCR
  else if (engine =? "easyocr")%string then
    if EASYOCR_AVAILABLE env then inr EasyOCR
    else inl (OCRError "EasyOCR is not installed")
  else if (engine =? "paddleocr")%string then
    if PADDLEOCR_AVAILABLE env then inr PaddleOCRProcessor
    else inl (OCRError "PaddleOCR is not installed")
  else inl (OCRError ("Unknown OCR engine: " ++ engine)).

(** One entry of the engine list. *)
Record EngineInfo := mkEngineInfo {
  engine_id : string;
  engine_label : string;
  engine_version : string;
  available : bool
}.

(** [TesseractOCR()] catches what reading the version raises, so the first
    entry is always the available one. *)
Definition get_available_ocr_engines : list EngineInfo :=
  [ mkEngineInfo "tesseract" "Tesseract OCR" (version TesseractOCR) true;
    mkEngineInfo "easyocr" "EasyOCR" "unknown" (EASYOCR_AVAILABLE env);
    mkEngineInfo "paddleocr" "PaddleOCR" "unknown" (PADDLEOCR_AVAILABLE env) ].

End WithEnv.
End ocr.

(** ** api.py *)

Module api.
Section WithEnv.
Context (env : Env).

(** What the handler reads from the uploaded file: [file.filename],
    [file.content_type] and [await file.read()]. *)
Record UploadFile := mkUploadFile {
  up_filename : string;
  content_type : option string;
  content : bytes
}.

(** [a or b] on strings *)
Definition or_else (a : option string) (b : string) : string :=
  match a with
  | Some s => if Str.truthy s then s else b
  | None => b
  end.

(** The try block of [process_document_ocr]: fetch the bytes, build the
    processor, recognise.  It writes nothing. *)
Definition recognise_document (doc : Document) (ocr_engine : string) (w : World)
  : Exn + (string * ocr.OCRProcessor) :=
  let st := storage.storage_for (settings (db w)) in
  match storage.get_file env st (file_path doc) w with
  | inl e => inl e
  | inr (file_content, mime) =>
      match ocr.get_ocr_processor env ocr_engine with
      | inl e => inl e
      | inr processor =>
          if (mime =? "application/pdf")%string then
            match ocr.process_pdf env processor file_content with
            | inl e => inl e
            | inr pages => inr (Str.join (String "010" (String "010" EmptyString)) pages, processor)
            end
          else
            match ocr.process_image env processor file_content with
            | inl e => inl e
            | inr text => inr (text, processor)
            end
      end
  end.

Definition update_document (document_id : UUID) (update_data : list database.Assignment)
  : M unit :=
  modify (fun w => set_db (snd (database.update_document document_id update_data (db w))) w).

Definition process_document_ocr (document_id : UUID) (ocr_engine : string) : M unit :=
  (found <- gets (fun w => database.get_document document_id (db w)) ;;
   match found with
   | None => ret tt
   | Some doc =>
       update_document document_id [database.Set_ocr_status PROCESSING] ;;;
       outcome <- gets (recognise_document doc ocr_engine) ;;
       match outcome with
       | inr (text, processor) =>
           update_document document_id
             [database.Set_ocr_status COMPLETED;
              database.Set_ocr_text text;
              database.Set_ocr_engine (ocr.name processor);
              database.Set_ocr_engine_version (ocr.version env processor)]
       | inl e =>
           update_document document_id
             [database.Set_ocr_status FAILED;
              database.Set_metadata [("error", str e)]]
       end
   end)%handler.

(** [Document(...)] as the handler calls it: a fresh id, the current time,
    no OCR result, no tags, no metadata. *)
Definition new_Document (name path : string) (thumb : option string) (mime : string)
    (sz : Z) (folder : string) : M Document :=
  (u <- uuid4 ;;
   now <- gets clock ;;
   ret (mkDocument name mime sz folder u path thumb now PENDING None None None [] []))%handler.

(** [doc.tags.append(tag)] *)
Definition append_tag (doc : Document) (tag : Tag) : Document :=
  mkDocument (filename doc) (mime_type doc) (size doc) (folder_path doc) (doc_id doc)
    (file_path doc) (thumbnail_path doc) (upload_date doc) (ocr_status doc) (ocr_text doc)
    (ocr_engine doc) (ocr_engine_version doc) (tags doc ++ [tag])%list (metadata doc).

(** [Tag(name=tag_name)] then [db.create_tag] *)
Definition new_tag (tag_name : string) : M Tag :=
  (u <- uuid4 ;;
   let tag := mkTag u tag_name "#808080" in
   modify (fun w => set_db (database.create_tag tag (db w)) w) ;;;
   ret tag)%handler.

(** The loop over [tag_names], the same in both branches of the handler. *)
Fixpoint resolve_tag_names (tag_names : list string) (doc : Document) : M Document :=
  match tag_names with
  | [] => ret doc
  | tag_name :: rest =>
      if negb (Str.truthy tag_name) then resolve_tag_names rest doc
      else
        (found <- gets (fun w => database.get_tag_by_name env tag_name (db w)) ;;
         tag <- match found with
                | Some tag => ret tag
                | None => new_tag tag_name
                end ;;
         resolve_tag_names rest (append_tag doc tag))%handler
  end.

Definition attach_tags (tag_field : option string) (doc : Document) : M Document :=
  match tag_field with
  | Some t =>
      if Str.truthy t then resolve_tag_names (map Str.strip (Str.split "," t)) doc
      else ret doc
  | None => ret doc
  end.

(** [db.create_document(doc)]: from here on [doc] is the object the index
    holds. *)
Definition store_document (doc : Document) : M unit :=
  modify (fun w => set_db (database.create_document doc (db w)) w).

(** Reading a document object the handler holds.  The object is the one in
    the index, which [update_document] changes in place; an object that is
    not in the index was changed by nobody. *)
Definition observe (doc : Document) : M Document :=
  gets (fun w => match database.get_document (doc_id doc) (db w) with
                 | Some d => d
                 | None => doc
                 end).

(** [ZipInfo.is_dir()], which is [self.filename[-1] == '/']: indexing an
    empty name raises. *)
Definition is_dir (zip_info : ZipInfo) : Failure + bool :=
  if Str.truthy (zi_filename zip_info)
  then inr (Str.endswith_char "/" (zi_filename zip_info))
  else inl (IndexError "string index out of range").

(** [zip_file.open(zip_info).read()] *)
Definition read_member (zip_info : ZipInfo) : M bytes :=
  match zi_read zip_info with
  | inl e => raise e
  | inr file_data => ret file_data
  end.

(** The test on the guessed type of an archive member. *)
Definition accepted_type (file_mime_type : option string) : bool :=
  match file_mime_type with
  | Some m => Str.truthy m && (Str.startswith "image/" m || (m =? "application/pdf")%string)
  | None => false
  end.

(** The body of the loop over the archive for a member that is not skipped.
    Reading the member is outside every [try].  As in the single-file
    branch, [save_file] never raises [StorageError]. *)
Definition ingest_member (st : storage.Storage) (zip_info : ZipInfo)
    (tag_field : option string) (folder : string) (engine : string) : M Document :=
  (file_data <- read_member zip_info ;;
   path <- storage.save_file st file_data (zi_filename zip_info) ;;
   doc <- new_Document (Str.basename (zi_filename zip_info)) path None
            (or_else (guess_type env (zi_filename zip_info)) "application/octet-stream")
            (zi_file_size zip_info) folder ;;
   doc <- attach_tags tag_field doc ;;
   store_document doc ;;;
   process_document_ocr (doc_id doc) engine ;;;
   ret doc)%handler.

Fixpoint expand_zip (st : storage.Storage) (s : SystemSettings) (infolist : list ZipInfo)
    (tag_field : option string) (folder : string) (engine : string)
    (docs : list Document) : M (list Document) :=
  match infolist with
  | [] => ret docs
  | zip_info :: rest =>
      match is_dir zip_info with
      | inl e => raise e
      | inr true => expand_zip st s rest tag_field folder engine docs
      | inr false =>
          if zi_file_size zip_info >? max_file_size s
          then expand_zip st s rest tag_field folder engine docs
          else if negb (accepted_type (guess_type env (zi_filename zip_info)))
          then expand_zip st s rest tag_field folder engine docs
          else
            (doc <- ingest_member st zip_info tag_field folder engine ;;
             expand_zip st s rest tag_field folder engine (docs ++ [doc])%list)%handler
      end
  end.

(** The single-file branch.  Neither storage class raises [StorageError]
    from [save_file], so its handler is never entered. *)
Definition ingest_single (st : storage.Storage) (file : UploadFile) (mime : string)
    (tag_field : option string) (folder : string) (engine : string) : M Document :=
  (path <- storage.save_file st (content file) (up_filename file) ;;
   thumb <- (if Str.startswith "image/" mime then storage.create_thumbnail env st path
             else ret None) ;;
   doc <- new_Document (up_filename file) path thumb mime
            (Z.of_nat (String.length (content file))) folder ;;
   doc <- attach_tags tag_field doc ;;
   store_document doc ;;;
   process_document_ocr (doc_id doc) engine ;;;
   observe doc)%handler.

(** [file.content_type or mimetypes.guess_type(filename)[0] or
    "application/octet-stream"] *)
Definition upload_mime_type (file : UploadFile) : string :=
  or_else (content_type file)
    (or_else (guess_type env (up_filename file)) "application/octet-stream").

(** POST /documents *)
Definition create_document (file : UploadFile) (tag_field : option string)
    (folder : string) (ocr_engine : option string) : M Document :=
  (s <- gets (fun w => settings (db w)) ;;
   let file_size := Z.of_nat (String.length (content file)) in
   if file_size >? max_file_size s
   then raise (HTTPException 413 (File_too_large (max_file_size s)))
   else
     st <- storage.get_storage ;;
     let mime := upload_mime_type file in
     let engine := or_else ocr_engine (default_ocr_engine s) in
     if (mime =? "application/zip")%string then
       if file_size >? max_zip_size s
       then raise (HTTPException 413 (ZIP_file_too_large (max_zip_size s)))
       else
         match zip_infolist env (content file) with
         | None => raise BadZipFile
         | Some infolist =>
             docs <- expand_zip st s infolist tag_field folder engine [] ;;
             match docs with
             | first :: _ => observe first
             | [] => raise (HTTPException 400 No_valid_files_found_in_ZIP_archive)
             end
         end
     else ingest_single st file mime tag_field folder engine)%handler.

(** What [StreamingResponse] is built from. *)
Record StreamingResponse := mkStreamingResponse {
  body : bytes;
  media_type : string;
  attachment_filename : string
}.

(** [f'attachment; filename="{name}"'] *)
Definition content_disposition (name : string) : string :=
  ("attachment; filename=" ++ String "034" (name ++ String "034" EmptyString))%string.

(** GET /documents/{document_id}/original.  [StreamingResponse] encodes
    the values of its headers as latin-1. *)
Definition get_document_original (document_id : UUID) : M StreamingResponse :=
  (found <- gets (fun w => database.get_document document_id (db w)) ;;
   match found with
   | None => raise (HTTPException 404 Document_not_found)
   | Some doc =>
       st <- storage.get_storage ;;
       fetched <- gets (storage.get_file env st (file_path doc)) ;;
       match fetched with
       | inl e => raise (HTTPException 500 (Storage_error (str e)))
       | inr (file_content, mime) =>
           if Str.latin1 (content_disposition (filename doc))
           then ret (mkStreamingResponse file_content mime (filename doc))
           else raise (UnicodeEncodeError "latin-1" (content_disposition (filename doc)))
       end
   end)%handler.

(** POST /documents/{document_id}/reocr *)
Definition reocr_document (document_id : UUID) (ocr_engine : option string) : M string :=
  (found <- gets (fun w => database.get_document document_id (db w)) ;;
   match found with
   | None => raise (HTTPException 404 Document_not_found)
   | Some _ =>
       s <- gets (fun w => settings (db w)) ;;
       process_document_ocr document_id (or_else ocr_engine (default_ocr_engine s)) ;;;
       ret "OCR processing started"
   end)%handler.

(** POST /search/advanced *)
Definition advanced_search (query : SearchQuery) (d : InMemoryDB)
  : Failure + list Document :=
  let skip := (q_page query - 1) * q_page_size query in
  database.search_documents env (q_text query) (q_tags query) (q_folder_path query)
    (q_mime_types query) (q_date_from query) (q_date_to query)
    skip (q_page_size query) (q_sort_by query) (q_sort_order query) d.

(** GET /folders *)
Record Folder := mkFolder {
  path : string;
  name : string;
  document_count : Z
}.

(** [folders.add(p)] on a set kept as a list without repetition *)
Definition set_add (p : string) (folders : list string) : list string :=
  if existsb (String.eqb p) folders then folders else (folders ++ [p])%list.

Fixpoint add_parts (parts : list string) (current_path : string) (folders : list string)
  : list string :=
  match parts with
  | [] => folders
  | part :: rest =>
      if negb (Str.truthy part) then add_parts rest current_path folders
      else
        let current_path := (current_path ++ part ++ "/")%string in
        add_parts rest current_path (set_add current_path folders)
  end.

Definition add_document_folders (folders : list string) (doc : Document) : list string :=
  let parts := Str.split "/" (Str.strip_char "/" (folder_path doc)) in
  add_parts parts "/" (set_add "/" folders).

Definition folder_name (folder : string) : string :=
  let b := Str.basename (Str.rstrip_char "/" folder) in
  if Str.truthy b then b else "Root".

Definition list_folders (d : InMemoryDB) : list Folder :=
  let docs := database.list_documents 0 1000000 None d in
  let folders := fold_left add_document_folders docs [] in
  map (fun folder =>
         mkFolder folder (folder_name folder)
           (Z.of_nat (List.length
              (filter (fun doc => folder_path doc =? folder)%string docs))))
      (stable_sort String.leb folders).

(** GET /documents *)
Definition list_documents (skip limit : Z) (folder : option string) (d : InMemoryDB)
  : list Document :=
  database.list_documents skip limit folder d.

(** DELETE /documents/{document_id}.  The files go first, then the index
    entry; [delete_file] raises nothing. *)
Definition delete_document (document_id : UUID) : M bool :=
  (found <- gets (fun w => database.get_document document_id (db w)) ;;
   match found with
   | None => raise (HTTPException 404 Document_not_found)
   | Some doc =>
       st <- storage.get_storage ;;
       storage.delete_file st (file_path doc) ;;;
       match thumbnail_path doc with
       | Some t => if Str.truthy t then storage.delete_file st t else ret false
       | None => ret false
       end ;;;
       fun w =>
         let r := database.delete_document document_id (db w) in
         (inr (fst r), set_db (snd r) w)
   end)%handler.

(** GET /documents/{document_id}/thumbnail *)
Definition get_document_thumbnail (document_id : UUID) : M (bytes * string) :=
  (found <- gets (fun w => database.get_document document_id (db w)) ;;
   match found with
   | None => raise (HTTPException 404 Document_not_found)
   | Some doc =>
       match thumbnail_path doc with
       | Some t =>
           if Str.truthy t then
             st <- storage.get_storage ;;
             fetched <- gets (storage.get_file env st t) ;;
             match fetched with
             | inl e => raise (HTTPException 500 (Storage_error (str e)))
             | inr r => ret r
             end
           else raise (HTTPException 404 Thumbnail_not_available)
       | None => raise (HTTPException 404 Thumbnail_not_available)
       end
   end)%handler.

(** GET /search: the comma-separated fields become lists of stripped,
    non-empty names. *)
Definition parse_list (field : option string) : list string :=
  match field with
  | Some t =>
      if Str.truthy t
      then filter Str.truthy (map Str.strip (Str.split "," t))
      else []
  | None => []
  end.

Definition search_documents (q tag_field folder mime_field : option string)
    (date_from date_to : option datetime) (page page_size : Z) (sort_by sort_order : string)
    (d : InMemoryDB) : Failure + list Document :=
  let skip := (page - 1) * page_size in
  database.search_documents env q (parse_list tag_field) folder (parse_list mime_field)
    date_from date_to skip page_size sort_by sort_order d.

(** [s.endswith("/")] *)
Definition ends_with_slash (s : string) : bool := Str.endswith_char "/" s.

(** The two steps POST /folders and GET /folders/{path} apply to the path. *)
Definition slashed (p : string) : string :=
  let p := if Str.startswith "/" p then p else ("/" ++ p)%string in
  if ends_with_slash p then p else (p ++ "/")%string.

(** POST /folders: nothing is stored. *)
Definition create_folder (p : string) : string * string := ("Folder created", slashed p).

(** GET /folders/{path} *)
Record FolderContents := mkFolderContents {
  fc_path : string;
  fc_name : string;
  fc_documents : list Document
}.

Definition get_folder_contents (p : string) (skip limit : Z) (d : InMemoryDB)
  : FolderContents :=
  let p := slashed p in
  mkFolderContents p (folder_name p) (database.list_documents skip limit (Some p) d).

(** The handlers of tags touch the index only; what they raise is the status
    code with the detail text. *)
Record HTTPError := mkHTTPError {
  error_status : nat;
  error_detail : string
}.

(** POST /tags *)
Definition create_tag (tag : Tag) (d : InMemoryDB) : (HTTPError + Tag) * InMemoryDB :=
  match database.get_tag_by_name env (tag_name tag) d with
  | Some _ =>
      (inl (mkHTTPError 400 ("Tag with name '" ++ tag_name tag ++ "' already exists")), d)
  | None => (inr tag, database.create_tag tag d)
  end.

(** DELETE /tags/{tag_id} *)
Definition delete_tag (tid : UUID) (d : InMemoryDB) : (HTTPError + bool) * InMemoryDB :=
  let r := database.delete_tag tid d in
  if fst r then (inr true, snd r) else (inl (mkHTTPError 404 "Tag not found"), snd r).

(** POST /documents/{document_id}/tags/{tag_id} *)
Definition add_tag_to_document (document_id tid : UUID) (d : InMemoryDB)
  : (HTTPError + Document) * InMemoryDB :=
  match database.add_tag_to_document document_id tid d with
  | (Some doc, d') => (inr doc, d')
  | (None, d') => (inl (mkHTTPError 404 "Document or tag not found"), d')
  end.

(** DELETE /documents/{document_id}/tags/{tag_id} *)
Definition remove_tag_from_document (document_id tid : UUID) (d : InMemoryDB)
  : (HTTPError + Document) * InMemoryDB :=
  match database.remove_tag_from_document document_id tid d with
  | (Some doc, d') => (inr doc, d')
  | (None, d') => (inl (mkHTTPError 404 "Document not found"), d')
  end.

End WithEnv.
End api.

(** ** Sequences of requests *)

Inductive Request :=
| Ingest (file : api.UploadFile) (tag_field : option string) (folder : string)
         (ocr_engine : option string)
| OcrRun (document_id : UUID) (ocr_engine : string)
| ReOcr (document_id : UUID) (ocr_engine : option string).

(** The world a request leaves, whether its handler returns or raises. *)
Definition serve (env : Env) (r : Request) (w : World) : World :=
  match r with
  | Ingest file tag_field folder ocr_engine =>
      snd (api.create_document env file tag_field folder ocr_engine w)
  | OcrRun document_id ocr_engine => snd (api.process_document_ocr env document_id ocr_engine w)
  | ReOcr document_id ocr_engine => snd (api.reocr_document env document_id ocr_engine w)
  end.

Definition serve_all (env : Env) (rs : list Request) (w : World) : World :=
  fold_left (fun w r => serve env r w) rs w.

(** ** A concrete environment and concrete worlds, for evaluation *)

Module demo.

(** [str.lower] for text whose characters are below U+0100: the letters A
    to Z, and U+00C0 to U+00DE but for the multiplication sign U+00D7, whose
    second byte 128..158 becomes 160..190. *)
Definition lower_char (c : ascii) : ascii :=
  let n := nat_of_ascii c in
  if ((65 <=? n) && (n <=? 90))%nat then ascii_of_nat (n + 32) else c.

Fixpoint lower (s : string) : string :=
  match s with
  | EmptyString => EmptyString
  | String a r =>
      match r with
      | String b r2 =>
          if ((nat_of_ascii a =? 195) && (128 <=? nat_of_ascii b)
              && (nat_of_ascii b <=? 158) && negb (nat_of_ascii b =? 151))%nat
          then String a (String (ascii_of_nat (nat_of_ascii b + 32)) (lower r2))
          else String (lower_char a) (lower r)
      | EmptyString => String (lower_char a) EmptyString
      end
  end.

(** A small [mimetypes] table, by extension. *)
Definition guess (file_name : string) : option string :=
  let ext := lower (Str.splitext_ext file_name) in
  if (ext =? ".png")%string then Some "image/png"
  else if (ext =? ".jpg")%string then Some "image/jpeg"
  else if (ext =? ".pdf")%string then Some "application/pdf"
  else if (ext =? ".txt")%string then Some "text/plain"
  else if (ext =? ".zip")%string then Some "application/zip"
  else None.

(** Four members: two images, a text file and an image whose declared size
    is above the single-file limit of [small_settings]. *)
Definition members : list ZipInfo :=
  [ mkZipInfo "scans/a.png" 5 (inr "AAAAA");
    mkZipInfo "notes.txt" 3 (inr "abc");
    mkZipInfo "scans/huge.png" 5000 (inr "HUGE");
    mkZipInfo "b.jpg" 4 (inr "BBBB") ].

(** Two images, the second stored with a bad CRC. *)
Definition damaged_members : list ZipInfo :=
  [ mkZipInfo "scans/a.png" 5 (inr "AAAAA");
    mkZipInfo "b.jpg" 4 (inl BadZipFile) ].

Definition env : Env :=
  {| str_lower := lower;
     guess_type := guess;
     zip_infolist := fun c =>
       if String.prefix "PK-damaged" c then Some damaged_members
       else if String.prefix "PK" c then Some members else None;
     pil_thumbnail := fun c => Some ("thumb:" ++ c)%string;
     tesseract_version := "5.3.0";
     EASYOCR_AVAILABLE := false;
     PADDLEOCR_AVAILABLE := false;
     recognize := fun _ image => inr ("text of " ++ image)%string;
     convert_from_bytes := fun pdf => Pages [pdf] |}.

Definition small_settings : SystemSettings :=
  {| storage_type := "local"; max_file_size := 100; max_zip_size := 500;
     default_ocr_engine := "tesseract" |}.

(** The state of a process that has just started. *)
Definition start : World :=
  {| db := database.init; files := []; uuid_next := 0%nat; clock := 1700000000 |}.

Definition small_start : World :=
  {| db := mkInMemoryDB [] [] small_settings; files := []; uuid_next := 0%nat;
     clock := 1700000000 |}.

Definition png : api.UploadFile := api.mkUploadFile "page.png" (Some "image/png") "PNGDATA".
Definition archive : api.UploadFile := api.mkUploadFile "batch.zip" (Some "application/zip") "PK-archive".


(** An index of two documents: a PDF tagged "invoice" in /2024/ and a PNG
    tagged "Invoice" in /2023/. *)
Definition invoice_pdf : Document :=
  mkDocument "march.pdf" "application/pdf" 2048 "/2024/" 11%nat "storage/documents/10.pdf"
    None 1700000100 COMPLETED (Some "Total due 40") (Some "tesseract") (Some "5.3.0")
    [mkTag 12%nat "invoice" "#808080"] [].

Definition capital_png : Document :=
  mkDocument "scan.png" "image/png" 512 "/2023/" 21%nat "storage/documents/20.png"
    None 1700000200 FAILED None None None
    [mkTag 22%nat "Invoice" "#808080"] [("error", "Tesseract OCR error: bad image")].

Definition invoices : InMemoryDB :=
  mkInMemoryDB [(11%nat, invoice_pdf); (21%nat, capital_png)]
    [(12%nat, mkTag 12%nat "invoice" "#808080"); (22%nat, mkTag 22%nat "Invoice" "#808080")]
    default_settings.

End demo.

(** * The vocabulary of the statements *)

(** The document an OCR run leaves in the index, from the document it found. *)
Definition settled (env : Env) (doc : Document) (engine : string) (w : World) : Document :=
  let doc1 := database.setattr doc (database.Set_ocr_status PROCESSING) in
  match api.recognise_document env doc engine w with
  | inr (text, processor) =>
      fold_left database.setattr
        [database.Set_ocr_status COMPLETED;
         database.Set_ocr_text text;
         database.Set_ocr_engine (ocr.name processor);
         database.Set_ocr_engine_version (ocr.version env processor)] doc1
  | inl e =>
      fold_left database.setattr
        [database.Set_ocr_status FAILED; database.Set_metadata [("error", str e)]] doc1
  end.

(** [m] run in [w] returns, and what it returns and leaves satisfies [Q]. *)
Definition returns {A} (m : M A) (w : World) (Q : A -> World -> Prop) : Prop :=
  exists a w', m w = (inr a, w') /\ Q a w'.

(** A document with other tags. *)
Definition retag (doc : Document) (ts : list Tag) : Document :=
  mkDocument (filename doc) (mime_type doc) (size doc) (folder_path doc) (doc_id doc)
    (file_path doc) (thumbnail_path doc) (upload_date doc) (ocr_status doc) (ocr_text doc)
    (ocr_engine doc) (ocr_engine_version doc) ts (metadata doc).

(** What an OCR run never touches. *)
Definition same_record (a b : Document) : Prop :=
  filename a = filename b /\ mime_type a = mime_type b /\ size a = size b /\
  folder_path a = folder_path b /\ doc_id a = doc_id b /\ file_path a = file_path b /\
  thumbnail_path a = thumbnail_path b /\ upload_date a = upload_date b /\
  tags a = tags b.


(** A member whose bytes can be read. *)
Definition readable (zip_info : ZipInfo) : bool :=
  match zi_read zip_info with inr _ => true | inl _ => false end.


(** The three OCR fields of a document, all set or all unset. *)
Definition populated (d : Document) : Prop :=
  ocr_text d <> None /\ ocr_engine d <> None /\ ocr_engine_version d <> None.

Definition unpopulated (d : Document) : Prop :=
  ocr_text d = None /\ ocr_engine d = None /\ ocr_engine_version d = None.

(** What holds of every document between two requests. *)
Definition ocr_consistent (d : Document) : Prop :=
  (ocr_status d = COMPLETED \/ ocr_status d = FAILED) /\
  (ocr_status d = COMPLETED -> populated d) /\
  (populated d \/ unpopulated d).

Definition docs_ok (w : World) : Prop :=
  forall d, In d (dict_values (documents (db w))) -> ocr_consistent d.

(** The keys of the index are distinct and were all drawn already. *)
Definition wf (w : World) : Prop :=
  NoDup (dict_keys (documents (db w))) /\
  forall k, In k (dict_keys (documents (db w))) -> (k < uuid_next w)%nat.

(** What the index holds for an archive member. *)
Definition made_from (env : Env) (folder : string) (zip_info : ZipInfo) (d : Document)
  : Prop :=
  filename d = Str.basename (zi_filename zip_info) /\
  mime_type d = api.or_else (guess_type env (zi_filename zip_info)) "application/octet-stream" /\
  size d = zi_file_size zip_info /\
  folder_path d = folder /\
  (ocr_status d = COMPLETED \/ ocr_status d = FAILED).


(** The search contract in the words of the specification: every supplied
    filter must hold; a filter that is omitted (absent, empty string or
    empty list) imposes nothing. *)
Definition supplied (o : option string) : option string :=
  match o with
  | Some s => if Str.truthy s then Some s else None
  | None => None
  end.

(** Case-insensitive substring on the file name or the extracted text *)
Definition spec_text_matches (env : Env) (t : string) (d : Document) : bool :=
  Str.contains (str_lower env t) (str_lower env (filename d))
  || match ocr_text d with
     | Some o => Str.contains (str_lower env t) (str_lower env o)
     | None => false
     end.

(** The document holds any of the requested tag names *)
Definition spec_holds_any_tag (names : list string) (d : Document) : bool :=
  existsb (fun n => existsb (fun tag => (tag_name tag =? n)%string) (tags d)) names.

Definition spec_satisfies (env : Env) (text : option string) (names : list string)
    (folder : option string) (mimes : list string) (date_from date_to : option Z)
    (d : Document) : bool :=
  match supplied text with Some t => spec_text_matches env t d | None => true end
  && match names with [] => true | _ => spec_holds_any_tag names d end
  && match supplied folder with Some f => (folder_path d =? f)%string | None => true end
  && match mimes with [] => true | _ => existsb (String.eqb (mime_type d)) mimes end
  && match date_from with Some t => t <=? upload_date d | None => true end
  && match date_to with Some t => upload_date d <=? t | None => true end.

(** In the words of the specification: the folders of a path are the root
    and, for each non-empty component of the path split on "/", the folder
    reached by that component. *)
Definition components (p : string) : list string :=
  filter Str.truthy (Str.split "/" p).

Fixpoint prefixes_from (current : string) (comps : list string) : list string :=
  current ::
  match comps with
  | [] => []
  | c :: rest => prefixes_from (current ++ c ++ "/") rest
  end.

Definition spec_folder_prefixes (p : string) : list string := prefixes_from "/" (components p).

(** ** More vocabulary: stored paths *)




(** ** More vocabulary: sequences of calls *)

(** Every request the handlers modelled here serve. *)
Inductive Call :=
| Upload (file : api.UploadFile) (tag_field : option string) (folder : string)
         (ocr_engine : option string)
| NewTag (tag : Tag)
| DropTag (tid : UUID)
| TagDocument (document_id tid : UUID)
| UntagDocument (document_id tid : UUID)
| DropDocument (document_id : UUID)
| RunOcr (document_id : UUID) (ocr_engine : option string).

(** A handler that touches the index only, run in the world. *)
Definition on_db {A} (h : InMemoryDB -> A * InMemoryDB) (w : World) : World :=
  set_db (snd (h (db w))) w.

(** The world a call leaves, whether its handler returns or raises. *)
Definition perform (env : Env) (c : Call) (w : World) : World :=
  match c with
  | Upload file tag_field folder ocr_engine =>
      snd (api.create_document env file tag_field folder ocr_engine w)
  | NewTag tag => on_db (api.create_tag env tag) w
  | DropTag tid => on_db (api.delete_tag tid) w
  | TagDocument document_id tid => on_db (api.add_tag_to_document document_id tid) w
  | UntagDocument document_id tid => on_db (api.remove_tag_from_document document_id tid) w
  | DropDocument document_id => snd (api.delete_document document_id w)
  | RunOcr document_id ocr_engine => snd (api.reocr_document env document_id ocr_engine w)
  end.

Definition perform_all (env : Env) (cs : list Call) (w : World) : World :=
  fold_left (fun w c => perform env c w) cs w.

(** A handler step keeps a property of the world, returning or raising. *)
Definition keeps {A} (I : World -> Prop) (m : M A) : Prop :=
  forall w, I w -> I (snd (m w)).

(** The name of a tag as the lookup by name compares it. *)
Definition lname (env : Env) (t : Tag) : string := str_lower env (tag_name t).

(** No two tags of the index have names equal up to letter case. *)
Definition unique_tag_names (env : Env) (d : InMemoryDB) : Prop :=
  NoDup (map (lname env) (dict_values (db_tags d))).

(** Pages 1 to [k] of a search, one after the other; the first page that
    raises ends the reading. *)
Fixpoint search_pages (page_of : Z -> Failure + list Document) (k : nat)
  : Failure + list Document :=
  match k with
  | O => inr []
  | S k' =>
      match search_pages page_of k' with
      | inl e => inl e
      | inr docs =>
          match page_of (Z.of_nat k) with
          | inl e => inl e
          | inr page => inr (docs ++ page)%list
          end
      end
  end.

(** A bound of the date range as a request that knows no time zones sends
    it. *)
Definition naive (t : option Z) : option datetime := option_map Naive t.

(** A list in ascending order of a key, and in descending order. *)
Definition ascending {A} (key : A -> Z) (l : list A) : Prop :=
  StronglySorted (fun x y => key x <= key y) l.

Definition descending {A} (key : A -> Z) (l : list A) : Prop :=
  StronglySorted (fun x y => key y <= key x) l.

(** Every tag of the index is stored under its own id. *)
Definition tags_keyed (d : InMemoryDB) : Prop :=
  forall k t, In (k, t) (db_tags d) -> tag_id t = k.

(** The tags a document carries have ids of the index. *)
Definition known_tags (doc : Document) (d : InMemoryDB) : Prop :=
  forall t, In t (tags doc) -> dict_mem Nat.eqb (tag_id t) (db_tags d) = true.

(** No document carries a tag whose id the index has not. *)
Definition no_dangling_tags (d : InMemoryDB) : Prop :=
  tags_keyed d /\
  forall doc, In doc (dict_values (documents d)) -> known_tags doc d.

(** [s.lower()] is empty exactly when [s] is. *)
Definition lower_keeps_empty (env : Env) : Prop :=
  forall s, Str.truthy (str_lower env s) = Str.truthy s.

(** * Verification *)

(** ** Dictionaries *)

Section DictFacts.
Context {V : Type}.
Implicit Types (d : list (UUID * V)) (k : UUID) (v : V).

Lemma dict_get_set_same k v d : dict_get Nat.eqb k (dict_set Nat.eqb k v d) = Some v.
Proof.
  induction d as [|[k' v'] r IH]; simpl.
  - now rewrite Nat.eqb_refl.
  - destruct (Nat.eqb k k') eqn:E; simpl; rewrite ?Nat.eqb_refl, ?E; auto.
Qed.

Lemma dict_set_set k v v' d :
  dict_set Nat.eqb k v' (dict_set Nat.eqb k v d) = dict_set Nat.eqb k v' d.
Proof.
  induction d as [|[k' u] r IH]; simpl.
  - now rewrite Nat.eqb_refl.
  - destruct (Nat.eqb k k') eqn:E; simpl; rewrite ?Nat.eqb_refl, ?E; congruence.
Qed.

Lemma dict_get_none_notin k d : ~ In k (dict_keys d) -> dict_get Nat.eqb k d = None.
Proof.
  induction d as [|[k' u] r IH]; simpl; intros H; auto.
  destruct (Nat.eqb k k') eqn:E.
  - apply Nat.eqb_eq in E. subst. tauto.
  - apply IH. tauto.
Qed.

Lemma dict_set_fresh k v d : ~ In k (dict_keys d) -> dict_set Nat.eqb k v d = (d ++ [(k, v)])%list.
Proof.
  induction d as [|[k' u] r IH]; simpl; intros H; auto.
  destruct (Nat.eqb k k') eqn:E.
  - apply Nat.eqb_eq in E. subst. tauto.
  - rewrite IH; tauto.
Qed.

Lemma dict_set_last k v v' d :
  ~ In k (dict_keys d) ->
  dict_set Nat.eqb k v' (d ++ [(k, v)])%list = (d ++ [(k, v')])%list.
Proof.
  intros H. rewrite <- (dict_set_fresh k v d H), dict_set_set. now apply dict_set_fresh.
Qed.

Lemma dict_get_app_fresh k d d' :
  ~ In k (dict_keys d) -> dict_get Nat.eqb k (d ++ d')%list = dict_get Nat.eqb k d'.
Proof.
  induction d as [|[k' u] r IH]; simpl; intros H; auto.
  destruct (Nat.eqb k k') eqn:E.
  - apply Nat.eqb_eq in E. subst. tauto.
  - apply IH. tauto.
Qed.

Lemma dict_get_in k v d : dict_get Nat.eqb k d = Some v -> In v (dict_values d).
Proof.
  induction d as [|[k' u] r IH]; simpl; intros H; [discriminate|].
  destruct (Nat.eqb k k'); [left; congruence | right; auto].
Qed.

Lemma dict_set_values_in k v d x :
  In x (dict_values (dict_set Nat.eqb k v d)) -> x = v \/ In x (dict_values d).
Proof.
  induction d as [|[k' u] r IH]; simpl.
  - intros [H|[]]; auto.
  - destruct (Nat.eqb k k'); simpl; intros [H|H]; auto.
    destruct (IH H); auto.
Qed.

End DictFacts.

(** ** The handler monad *)

Lemma bind_inr {A B} (m : M A) (k : A -> M B) w a w' :
  m w = (inr a, w') -> bind m k w = k a w'.
Proof. unfold bind. now intros ->. Qed.

Lemma bind_inl {A B} (m : M A) (k : A -> M B) w f w' :
  m w = (inl f, w') -> bind m k w = (inl f, w').
Proof. unfold bind. now intros ->. Qed.

(** ** The OCR run *)

Lemma process_document_ocr_found env document_id engine w doc :
  database.get_document document_id (db w) = Some doc ->
  api.process_document_ocr env document_id engine w =
    (inr tt,
     set_db (database.set_documents
               (dict_set Nat.eqb document_id (settled env doc engine w) (documents (db w)))
               (db w)) w).
Proof.
  intros H. unfold api.process_document_ocr, bind, gets. rewrite H.
  unfold api.update_document, modify, database.update_document.
  unfold database.get_document in H. rewrite H.
  cbn [snd set_db database.set_documents db documents].
  unfold settled.
  change (api.recognise_document env doc engine _)
    with (api.recognise_document env doc engine w).
  destruct (api.recognise_document env doc engine w) as [e|[text p]];
    cbn [snd set_db database.set_documents db documents];
    rewrite dict_get_set_same;
    cbn [snd set_db database.set_documents db documents files uuid_next clock
         db_tags settings];
    rewrite dict_set_set; reflexivity.
Qed.

Lemma process_document_ocr_missing env document_id engine w :
  database.get_document document_id (db w) = None ->
  api.process_document_ocr env document_id engine w = (inr tt, w).
Proof.
  intros H. unfold api.process_document_ocr, bind, gets. now rewrite H.
Qed.

Lemma settled_status env doc engine w :
  ocr_status (settled env doc engine w) = COMPLETED \/
  ocr_status (settled env doc engine w) = FAILED.
Proof.
  unfold settled. destruct (api.recognise_document env doc engine w) as [e|[t p]]; auto.
Qed.

Lemma settled_doc_id env doc engine w : doc_id (settled env doc engine w) = doc_id doc.
Proof.
  unfold settled. now destruct (api.recognise_document env doc engine w) as [e|[t p]].
Qed.

(** ** Steps that always return *)

Lemma returns_ret {A} (a : A) w (Q : A -> World -> Prop) : Q a w -> returns (ret a) w Q.
Proof. intros H. now exists a, w. Qed.

Lemma returns_bind {A B} (m : M A) (k : A -> M B) w Q1 Q :
  returns m w Q1 ->
  (forall a w', Q1 a w' -> returns (k a) w' Q) ->
  returns (bind m k) w Q.
Proof.
  intros (a & w' & E & H) K. destruct (K a w' H) as (b & w'' & E' & H').
  exists b, w''. split; [|exact H']. now rewrite (bind_inr _ _ _ _ _ E).
Qed.

Lemma returns_weaken {A} (m : M A) w (Q Q' : A -> World -> Prop) :
  returns m w Q -> (forall a w', Q a w' -> Q' a w') -> returns m w Q'.
Proof. intros (a & w' & E & H) I. exists a, w'. auto. Qed.

Lemma returns_gets {A} (f : World -> A) w :
  returns (gets f) w (fun a w' => a = f w /\ w' = w).
Proof. now exists (f w), w. Qed.

Lemma returns_modify (f : World -> World) w :
  returns (modify f) w (fun _ w' => w' = f w).
Proof. now exists tt, (f w). Qed.

Lemma returns_uuid4 w :
  returns uuid4 w
    (fun u w' => u = uuid_next w /\
                 w' = mkWorld (db w) (files w) (S (uuid_next w)) (clock w)).
Proof. eexists _, _. split; [reflexivity | auto]. Qed.

(** ** Steps that keep a property, returning or raising *)

Lemma keeps_ret {A} I (a : A) : keeps I (ret a).
Proof. intros w H. exact H. Qed.

Lemma keeps_raise {A} I f : keeps I (@raise A f).
Proof. intros w H. exact H. Qed.

Lemma keeps_gets {A} I (f : World -> A) : keeps I (gets f).
Proof. intros w H. exact H. Qed.

Lemma keeps_bind {A B} I (m : M A) (k : A -> M B) :
  keeps I m -> (forall a, keeps I (k a)) -> keeps I (bind m k).
Proof.
  intros Hm Hk w H. unfold bind. specialize (Hm w H).
  destruct (m w) as [[f|a] w']; cbn [snd] in *; [exact Hm|]. now apply Hk.
Qed.

Lemma keeps_modify I (f : World -> World) :
  (forall w, I w -> I (f w)) -> keeps I (modify f).
Proof. intros H w Hw. now apply H. Qed.

Lemma returned {A} (m : M A) w (Q : A -> World -> Prop) a w' :
  returns m w Q -> m w = (inr a, w') -> Q a w'.
Proof. intros (a0 & w0 & E & H) E'. rewrite E in E'. now inversion E'; subst. Qed.

Lemma returns_keeps {A} (I : World -> Prop) (m : M A) :
  (forall w, I w -> returns m w (fun _ w' => I w')) -> keeps I m.
Proof. intros H w Hw. destruct (H w Hw) as (a & w' & E & Hw'). now rewrite E. Qed.

Lemma keeps_same_db {A} (I : InMemoryDB -> Prop) (m : M A) :
  (forall w, db (snd (m w)) = db w) -> keeps (fun w => I (db w)) m.
Proof. intros H w Hw. now rewrite H. Qed.

Lemma retag_self doc : retag doc (tags doc) = doc.
Proof. now destruct doc. Qed.

Lemma save_file_returns st file_content file_name w :
  returns (storage.save_file st file_content file_name) w
    (fun _ w' => db w' = db w /\ uuid_next w' = S (uuid_next w) /\ clock w' = clock w).
Proof.
  unfold storage.save_file.
  eapply returns_bind; [apply returns_uuid4|]. intros u w1 (-> & ->).
  destruct st.
  - eapply returns_bind; [apply returns_modify|].
    intros _ w' ->. apply returns_ret. auto.
  - apply returns_ret. auto.
Qed.

Lemma create_thumbnail_returns env st p w :
  returns (storage.create_thumbnail env st p) w
    (fun _ w' => db w' = db w /\ (uuid_next w <= uuid_next w')%nat /\ clock w' = clock w).
Proof.
  unfold storage.create_thumbnail.
  eapply returns_bind; [apply returns_gets|].
  intros found w' (-> & ->).
  destruct (storage.get_file env st p w) as [e|[c mime]].
  - apply returns_ret. auto.
  - destruct (negb (Str.startswith "image/" mime)); [apply returns_ret; auto|].
    destruct (pil_thumbnail env c) as [thumb|]; [|apply returns_ret; auto].
    eapply returns_bind; [apply save_file_returns|].
    intros q w' (D & U & C). apply returns_ret. rewrite D, U, C. auto.
Qed.

Lemma new_tag_returns tag_name w :
  returns (api.new_tag tag_name) w
    (fun tag w' =>
       tag = mkTag (uuid_next w) tag_name "#808080" /\
       documents (db w') = documents (db w) /\
       settings (db w') = settings (db w) /\
       db_tags (db w') = dict_set Nat.eqb (uuid_next w) tag (db_tags (db w)) /\
       files w' = files w /\ clock w' = clock w /\
       uuid_next w' = S (uuid_next w)).
Proof.
  unfold api.new_tag.
  eapply returns_bind; [apply returns_uuid4|]. intros u w1 (-> & ->).
  eapply returns_bind; [apply returns_modify|].
  intros _ w' ->. apply returns_ret. repeat split.
Qed.

Lemma resolve_tag_names_returns {env} names : forall doc w,
  returns (api.resolve_tag_names env names doc) w
    (fun doc' w' =>
       (exists ts, doc' = retag doc ts) /\
       documents (db w') = documents (db w) /\
       settings (db w') = settings (db w) /\
       files w' = files w /\ clock w' = clock w /\
       (uuid_next w <= uuid_next w')%nat).
Proof.
  induction names as [|n rest IH]; intros doc w; simpl.
  - apply returns_ret. repeat split; auto. exists (tags doc). now rewrite retag_self.
  - destruct (negb (Str.truthy n)); [apply IH|].
    eapply returns_bind; [apply returns_gets|].
    intros found w0 (-> & ->).
    eapply returns_bind with
      (Q1 := fun (_ : Tag) w' =>
               documents (db w') = documents (db w) /\
               settings (db w') = settings (db w) /\
               files w' = files w /\ clock w' = clock w /\
               (uuid_next w <= uuid_next w')%nat).
    + destruct (database.get_tag_by_name env n (db w)) as [tag|].
      * apply returns_ret. auto.
      * eapply returns_weaken; [apply new_tag_returns|].
        intros tag w' (_ & ? & ? & _ & ? & ? & ?). repeat split; auto. lia.
    + intros tag w' (D & S & F & C & U).
      eapply returns_weaken; [apply IH|].
      intros doc' w'' ((ts & ->) & D' & S' & F' & C' & U').
      repeat split; try congruence; try lia.
      exists ts. reflexivity.
Qed.

Lemma attach_tags_returns {env} tag_field doc w :
  returns (api.attach_tags env tag_field doc) w
    (fun doc' w' =>
       (exists ts, doc' = retag doc ts) /\
       documents (db w') = documents (db w) /\
       settings (db w') = settings (db w) /\
       files w' = files w /\ clock w' = clock w /\
       (uuid_next w <= uuid_next w')%nat).
Proof.
  assert (returns (ret doc) w
            (fun doc' w' =>
               (exists ts, doc' = retag doc ts) /\
               documents (db w') = documents (db w) /\
               settings (db w') = settings (db w) /\
               files w' = files w /\ clock w' = clock w /\
               (uuid_next w <= uuid_next w')%nat)) as R.
  { apply returns_ret. repeat split; auto. exists (tags doc). now rewrite retag_self. }
  unfold api.attach_tags. destruct tag_field as [t|]; [|exact R].
  destruct (Str.truthy t); [apply resolve_tag_names_returns | exact R].
Qed.

Lemma recognise_document_frame env doc engine w w' :
  files w' = files w -> settings (db w') = settings (db w) ->
  api.recognise_document env doc engine w' = api.recognise_document env doc engine w.
Proof.
  intros F S. unfold api.recognise_document, storage.get_file. now rewrite F, S.
Qed.

Lemma settled_frame env doc engine w w' :
  files w' = files w -> settings (db w') = settings (db w) ->
  settled env doc engine w' = settled env doc engine w.
Proof.
  intros F S. unfold settled. now rewrite (recognise_document_frame env doc engine w w' F S).
Qed.

Lemma settled_same_record env doc engine w : same_record (settled env doc engine w) doc.
Proof.
  unfold settled, same_record.
  destruct (api.recognise_document env doc engine w) as [e|[t p]]; cbn; repeat split.
Qed.

(** The end of both branches of the upload handler: resolve the tags, put the
    document in the index, run OCR on it, go on with the document object. *)
Lemma register_returns env tag_field engine doc0 w {B} (k : Document -> M B)
    (Q : B -> World -> Prop) :
  (forall ts w4 w',
     api.attach_tags env tag_field doc0 w = (inr (retag doc0 ts), w4) ->
     db_tags (db w') = db_tags (db w4) ->
     documents (db w') =
       dict_set Nat.eqb (doc_id doc0) (settled env (retag doc0 ts) engine w)
         (documents (db w)) ->
     settings (db w') = settings (db w) ->
     files w' = files w -> clock w' = clock w ->
     (uuid_next w <= uuid_next w')%nat ->
     returns (k (retag doc0 ts)) w' Q) ->
  returns (bind (api.attach_tags env tag_field doc0)
             (fun doc => bind (api.store_document doc)
                (fun _ => bind (api.process_document_ocr env (doc_id doc) engine)
                   (fun _ => k doc)))) w Q.
Proof.
  intros K.
  destruct (attach_tags_returns (env := env) tag_field doc0 w)
    as (doc1 & w4 & E & (ts & ->) & D & Hs & F & C & U).
  unfold returns. rewrite (bind_inr _ _ _ _ _ E). fold (returns
    (bind (api.store_document (retag doc0 ts))
       (fun _ => bind (api.process_document_ocr env (doc_id (retag doc0 ts)) engine)
          (fun _ => k (retag doc0 ts)))) w4 Q).
  eapply returns_bind; [apply returns_modify|]. intros _ w5 ->.
  set (w5 := set_db (database.create_document (retag doc0 ts) (db w4)) w4).
  assert (G : database.get_document (doc_id (retag doc0 ts)) (db w5) = Some (retag doc0 ts)).
  { unfold database.get_document, w5. cbn [db set_db database.create_document
      database.set_documents documents]. apply dict_get_set_same. }
  eapply returns_bind with
    (Q1 := fun _ w' =>
             w' = set_db (database.set_documents
                            (dict_set Nat.eqb (doc_id (retag doc0 ts))
                               (settled env (retag doc0 ts) engine w5)
                               (documents (db w5))) (db w5)) w5).
  { eexists tt, _. split; [apply (process_document_ocr_found _ _ _ _ _ G)|].
    reflexivity. }
  intros _ w6 ->. apply (K ts w4); subst w5;
    cbn [db set_db database.create_document database.set_documents documents settings
         files clock uuid_next db_tags]; auto.
  rewrite dict_set_set, D. f_equal. apply settled_frame; cbn; auto.
Qed.

Lemma returns_observe doc w d :
  database.get_document (doc_id doc) (db w) = Some d ->
  returns (api.observe doc) w (fun r w' => r = d /\ w' = w).
Proof.
  intros H. exists d, w. split; auto. unfold api.observe, gets. now rewrite H.
Qed.

Lemma new_Document_returns file_name p thumb mime sz folder w :
  returns (api.new_Document file_name p thumb mime sz folder) w
    (fun doc w' =>
       doc = mkDocument file_name mime sz folder (uuid_next w) p thumb (clock w)
               PENDING None None None [] [] /\
       w' = mkWorld (db w) (files w) (S (uuid_next w)) (clock w)).
Proof. eexists _, _. split; [reflexivity|]. split; reflexivity. Qed.

(** ** The single-file branch *)

Lemma ingest_single_returns env st file mime tag_field folder engine w :
  returns (api.ingest_single env st file mime tag_field folder engine) w
    (fun doc w' =>
       exists before,
         ocr_status before = PENDING /\ ocr_text before = None /\
         ocr_engine before = None /\ ocr_engine_version before = None /\
         (uuid_next w <= doc_id before < uuid_next w')%nat /\
         filename before = api.up_filename file /\ mime_type before = mime /\
         size before = Z.of_nat (String.length (api.content file)) /\
         folder_path before = folder /\ upload_date before = clock w /\
         doc = settled env before engine w' /\
         database.get_document (doc_id doc) (db w') = Some doc /\
         documents (db w') = dict_set Nat.eqb (doc_id doc) doc (documents (db w)) /\
         settings (db w') = settings (db w) /\
         (exists doc0 w3 w4,
            db w3 = db w /\ tags doc0 = [] /\
            api.attach_tags env tag_field doc0 w3 = (inr before, w4) /\
            db_tags (db w') = db_tags (db w4))).
Proof.
  unfold api.ingest_single.
  eapply returns_bind; [apply save_file_returns|]. intros p w1 (D1 & U1 & C1).
  eapply returns_bind with
    (Q1 := fun _ w' => db w' = db w /\ (uuid_next w < uuid_next w')%nat /\ clock w' = clock w).
  { destruct (Str.startswith "image/" mime).
    - eapply returns_weaken; [apply create_thumbnail_returns|].
      intros t w' (D & U & C). rewrite D, C. repeat split; auto. lia.
    - apply returns_ret. repeat split; auto. lia. }
  intros thumb w2 (D2 & U2 & C2).
  eapply returns_bind; [apply new_Document_returns|].
  intros doc0 w3 (-> & ->).
  apply register_returns. intros ts w4 w' E T D Hs F C U.
  cbn [db files clock uuid_next doc_id retag] in D, Hs, F, C, U.
  set (w3 := mkWorld (db w2) (files w2) (S (uuid_next w2)) (clock w2)) in *.
  set (doc0 := mkDocument _ _ _ _ _ _ _ _ _ _ _ _ _ _) in *.
  pose proof (settled_doc_id env (retag doc0 ts) engine w3) as I.
  eapply returns_weaken.
  { apply returns_observe. unfold database.get_document. rewrite D.
    apply dict_get_set_same. }
  intros r w'' (-> & ->). exists (retag doc0 ts).
  cbn [retag doc0 ocr_status ocr_text ocr_engine ocr_engine_version doc_id filename
       mime_type size folder_path upload_date] in *.
  rewrite I. repeat split; auto; try lia.
  - apply settled_frame; auto.
  - unfold database.get_document. rewrite D. apply dict_get_set_same.
  - rewrite D, D2. reflexivity.
  - rewrite Hs, D2. reflexivity.
  - exists doc0, w3, w4. repeat split; auto.
Qed.

(** ** The upload handler *)

Lemma create_document_single env file tag_field folder ocr_engine w :
  Z.of_nat (String.length (api.content file)) <= max_file_size (settings (db w)) ->
  api.upload_mime_type env file <> "application/zip" ->
  api.create_document env file tag_field folder ocr_engine w =
    api.ingest_single env (storage.storage_for (settings (db w))) file
      (api.upload_mime_type env file) tag_field folder
      (api.or_else ocr_engine (default_ocr_engine (settings (db w)))) w.
Proof.
  intros Hsize Hmime. unfold api.create_document, bind, gets, storage.get_storage.
  destruct (Z.gtb_spec (Z.of_nat (String.length (api.content file)))
              (max_file_size (settings (db w)))); [lia|].
  destruct (String.eqb_spec (api.upload_mime_type env file) "application/zip");
    [contradiction | reflexivity].
Qed.

Lemma bind_gets {A B} (f : World -> A) (k : A -> M B) w : bind (gets f) k w = k (f w) w.
Proof. reflexivity. Qed.

(** Settle a size guard of the handler by the hypotheses at hand. *)
Ltac size_guard :=
  match goal with
  | |- context [?a >? ?b] => destruct (Z.gtb_spec a b); try lia
  end.

Lemma create_document_too_large_world env file tag_field folder ocr_engine w :
  Z.of_nat (String.length (api.content file)) > max_file_size (settings (db w)) ->
  snd (api.create_document env file tag_field folder ocr_engine w) = w.
Proof.
  intros H. unfold api.create_document. rewrite bind_gets. size_guard. reflexivity.
Qed.

Lemma create_document_zip_too_large env file tag_field folder ocr_engine w :
  Z.of_nat (String.length (api.content file)) <= max_file_size (settings (db w)) ->
  api.upload_mime_type env file = "application/zip" ->
  Z.of_nat (String.length (api.content file)) > max_zip_size (settings (db w)) ->
  api.create_document env file tag_field folder ocr_engine w =
    (inl (HTTPException 413 (ZIP_file_too_large (max_zip_size (settings (db w))))), w).
Proof.
  intros Hsize Hmime Hzip. unfold api.create_document, storage.get_storage.
  rewrite bind_gets. size_guard.
  rewrite bind_gets, Hmime. cbn [String.eqb Ascii.eqb Bool.eqb].
  size_guard. reflexivity.
Qed.

Lemma create_document_bad_zip env file tag_field folder ocr_engine w :
  Z.of_nat (String.length (api.content file)) <= max_file_size (settings (db w)) ->
  api.upload_mime_type env file = "application/zip" ->
  Z.of_nat (String.length (api.content file)) <= max_zip_size (settings (db w)) ->
  zip_infolist env (api.content file) = None ->
  api.create_document env file tag_field folder ocr_engine w = (inl BadZipFile, w).
Proof.
  intros Hsize Hmime Hzip Hlist. unfold api.create_document, storage.get_storage.
  rewrite bind_gets. size_guard.
  rewrite bind_gets, Hmime. cbn [String.eqb Ascii.eqb Bool.eqb].
  size_guard. now rewrite Hlist.
Qed.

Lemma create_document_zip env file tag_field folder ocr_engine w infolist :
  Z.of_nat (String.length (api.content file)) <= max_file_size (settings (db w)) ->
  api.upload_mime_type env file = "application/zip" ->
  Z.of_nat (String.length (api.content file)) <= max_zip_size (settings (db w)) ->
  zip_infolist env (api.content file) = Some infolist ->
  api.create_document env file tag_field folder ocr_engine w =
    bind (api.expand_zip env (storage.storage_for (settings (db w))) (settings (db w))
            infolist tag_field folder
            (api.or_else ocr_engine (default_ocr_engine (settings (db w)))) [])
      (fun docs => match docs with
                   | first :: _ => api.observe first
                   | [] => raise (HTTPException 400 No_valid_files_found_in_ZIP_archive)
                   end) w.
Proof.
  intros Hsize Hmime Hzip Hlist. unfold api.create_document, storage.get_storage.
  rewrite bind_gets. size_guard.
  rewrite bind_gets, Hmime. cbn [String.eqb Ascii.eqb Bool.eqb].
  size_guard. now rewrite Hlist.
Qed.

(** C3.  An upload larger than [max_file_size] is refused with status 413
    "File too large", and the world it leaves is the world it found: no
    object was written to storage and the document index is unchanged. *)
Theorem oversized_upload_refused_before_any_write env file tag_field folder ocr_engine w :
  Z.of_nat (String.length (api.content file)) > max_file_size (settings (db w)) ->
  api.create_document env file tag_field folder ocr_engine w =
    (inl (HTTPException 413 (File_too_large (max_file_size (settings (db w))))), w).
Proof.
  intros H. unfold api.create_document, bind, gets.
  destruct (Z.gtb_spec (Z.of_nat (String.length (api.content file)))
              (max_file_size (settings (db w)))); [reflexivity | lia].
Qed.

Lemma oversized_upload_refused_witness :
  let big := api.mkUploadFile "big.png" (Some "image/png")
               "0123456789012345678901234567890123456789012345678901234567890123456789012345678901234567890123456789X" in
  Z.of_nat (String.length (api.content big)) > max_file_size (settings (db demo.small_start)) /\
  api.create_document demo.env big None "/" None demo.small_start =
    (inl (HTTPException 413 (File_too_large 100)), demo.small_start).
Proof.
  split; [vm_compute; reflexivity|].
  apply (oversized_upload_refused_before_any_write demo.env _ None "/" None demo.small_start).
  vm_compute. reflexivity.
Defined.





(** ** The archive branch *)

Lemma read_member_world zip_info w : snd (api.read_member zip_info w) = w.
Proof. unfold api.read_member. now destruct (zi_read zip_info). Qed.

Lemma read_member_keeps I zip_info : keeps I (api.read_member zip_info).
Proof. intros w H. now rewrite read_member_world. Qed.

Lemma read_member_returns zip_info w :
  readable zip_info = true ->
  returns (api.read_member zip_info) w (fun _ w' => w' = w).
Proof.
  unfold readable, api.read_member. destruct (zi_read zip_info) as [e|file_data].
  - discriminate.
  - intros _. now apply returns_ret.
Qed.


Lemma ingest_member_returns env st zip_info tag_field folder engine w :
  readable zip_info = true ->
  returns (api.ingest_member env st zip_info tag_field folder engine) w
    (fun doc w' =>
       ocr_status doc = PENDING /\ ocr_text doc = None /\
       ocr_engine doc = None /\ ocr_engine_version doc = None /\
       (uuid_next w <= doc_id doc < uuid_next w')%nat /\
       filename doc = Str.basename (zi_filename zip_info) /\
       mime_type doc =
         api.or_else (guess_type env (zi_filename zip_info)) "application/octet-stream" /\
       size doc = zi_file_size zip_info /\
       folder_path doc = folder /\
       documents (db w') =
         dict_set Nat.eqb (doc_id doc) (settled env doc engine w') (documents (db w)) /\
       settings (db w') = settings (db w)).
Proof.
  intros Hread. unfold api.ingest_member.
  eapply returns_bind; [apply (read_member_returns _ _ Hread)|]. intros file_data w0 ->.
  eapply returns_bind; [apply save_file_returns|]. intros p w1 (D1 & U1 & C1).
  eapply returns_bind; [apply new_Document_returns|].
  intros doc0 w3 (-> & ->).
  apply register_returns. intros ts w4 w' E T D Hs F C U.
  cbn [db files clock uuid_next doc_id retag] in D, Hs, F, C, U.
  set (w3 := mkWorld (db w1) (files w1) (S (uuid_next w1)) (clock w1)) in *.
  apply returns_ret.
  cbn [retag ocr_status ocr_text ocr_engine ocr_engine_version doc_id filename
       mime_type size folder_path upload_date].
  repeat split; auto; try lia.
  - rewrite D, D1. f_equal. symmetry. apply settled_frame; auto.
  - rewrite Hs, D1. reflexivity.
Qed.



(** ** The invariant of the OCR fields *)

Lemma settled_consistent env doc engine w :
  populated doc \/ unpopulated doc -> ocr_consistent (settled env doc engine w).
Proof.
  intros H. unfold settled, ocr_consistent, populated, unpopulated in *.
  destruct (api.recognise_document env doc engine w) as [e|[t p]]; cbn.
  - split; [auto|]. split; [discriminate | exact H].
  - split; [auto|]. split; [intros _|left]; repeat split; discriminate.
Qed.

Lemma docs_ok_set w w' document_id d :
  docs_ok w -> ocr_consistent d ->
  documents (db w') = dict_set Nat.eqb document_id d (documents (db w)) ->
  docs_ok w'.
Proof.
  intros H Hd E x Hx. rewrite E in Hx.
  destruct (dict_set_values_in _ _ _ _ Hx) as [->|Hx']; auto.
Qed.

Lemma process_document_ocr_ok env document_id engine w :
  docs_ok w -> docs_ok (snd (api.process_document_ocr env document_id engine w)).
Proof.
  intros H. destruct (database.get_document document_id (db w)) as [doc|] eqn:G.
  - rewrite (process_document_ocr_found _ _ _ _ _ G). cbn [snd].
    eapply docs_ok_set; [exact H| |reflexivity].
    apply settled_consistent. apply (H doc). eapply dict_get_in. exact G.
  - now rewrite (process_document_ocr_missing _ _ _ _ G).
Qed.

Lemma reocr_document_ok env document_id ocr_engine w :
  docs_ok w -> docs_ok (snd (api.reocr_document env document_id ocr_engine w)).
Proof.
  intros H. unfold api.reocr_document, bind, gets.
  destruct (database.get_document document_id (db w)) as [doc|]; [|exact H].
  pose proof (process_document_ocr_ok env document_id
                (api.or_else ocr_engine (default_ocr_engine (settings (db w)))) w H) as P.
  destruct (api.process_document_ocr env document_id
              (api.or_else ocr_engine (default_ocr_engine (settings (db w)))) w)
    as [[f|[]] w']; exact P.
Qed.

Lemma ingest_member_ok env st zip_info tag_field folder engine :
  keeps docs_ok (api.ingest_member env st zip_info tag_field folder engine).
Proof.
  intros w H. destruct (readable zip_info) eqn:R.
  - destruct (ingest_member_returns env st zip_info tag_field folder engine w R)
      as (doc & w' & E & P & T & En & V & _ & _ & _ & _ & _ & D & _).
    rewrite E. cbn [snd]. eapply docs_ok_set; [exact H| |exact D].
    apply settled_consistent. right. repeat split; assumption.
  - unfold api.ingest_member, bind, api.read_member. unfold readable in R.
    destruct (zi_read zip_info); [exact H | discriminate].
Qed.

Lemma expand_zip_ok env st s infolist tag_field folder engine :
  forall docs, keeps docs_ok (api.expand_zip env st s infolist tag_field folder engine docs).
Proof.
  induction infolist as [|zip_info rest IH]; intros docs; cbn [api.expand_zip].
  - apply keeps_ret.
  - destruct (api.is_dir zip_info) as [e|[|]]; [apply keeps_raise | apply IH |].
    destruct (zi_file_size zip_info >? max_file_size s); [apply IH|].
    destruct (negb (api.accepted_type (guess_type env (zi_filename zip_info)))); [apply IH|].
    apply keeps_bind; [apply ingest_member_ok|]. intros doc. apply IH.
Qed.

Lemma create_document_ok env file tag_field folder ocr_engine w :
  docs_ok w -> docs_ok (snd (api.create_document env file tag_field folder ocr_engine w)).
Proof.
  intros H.
  destruct (Z.gtb_spec (Z.of_nat (String.length (api.content file)))
              (max_file_size (settings (db w)))) as [Hbig|Hsmall].
  - rewrite create_document_too_large_world by lia. exact H.
  - destruct (String.eqb_spec (api.upload_mime_type env file) "application/zip") as [Z|NZ].
    + destruct (Z.gtb_spec (Z.of_nat (String.length (api.content file)))
                  (max_zip_size (settings (db w)))) as [Hz|Hz].
      { rewrite (create_document_zip_too_large _ _ _ _ _ _ Hsmall Z) by lia. exact H. }
      destruct (zip_infolist env (api.content file)) as [infolist|] eqn:I.
      2:{ rewrite (create_document_bad_zip _ _ _ _ _ _ Hsmall Z Hz I). exact H. }
      rewrite (create_document_zip _ _ _ _ _ _ _ Hsmall Z Hz I).
      refine (keeps_bind docs_ok _ _ _ _ w H); [apply expand_zip_ok|].
      intros [|first rest]; [apply keeps_raise | apply keeps_gets].
    + rewrite (create_document_single _ _ _ _ _ _ Hsmall NZ).
      destruct (ingest_single_returns env (storage.storage_for (settings (db w))) file
                  (api.upload_mime_type env file) tag_field folder
                  (api.or_else ocr_engine (default_ocr_engine (settings (db w)))) w)
        as (doc & w' & E & before & P & T & En & V & _ & _ & _ & _ & _ & _ & S & _ & D & _).
      rewrite E. cbn [snd]. eapply docs_ok_set; [exact H| |exact D].
      rewrite S. apply settled_consistent. right. repeat split; assumption.
Qed.

Lemma serve_ok env r w : docs_ok w -> docs_ok (serve env r w).
Proof.
  destruct r; cbn [serve]; intros H.
  - now apply create_document_ok.
  - now apply process_document_ocr_ok.
  - now apply reocr_document_ok.
Qed.

Lemma serve_all_ok env rs : forall w, docs_ok w -> docs_ok (serve_all env rs w).
Proof.
  unfold serve_all. induction rs as [|r rs IH]; intros w H; cbn [fold_left]; auto.
  apply IH. now apply serve_ok.
Qed.

(** C2, as the code has it.  After any sequence of uploads, OCR runs and
    re-OCR requests on an index that started empty, every document is
    COMPLETED or FAILED; a COMPLETED document has [ocr_text], [ocr_engine] and
    [ocr_engine_version] populated; and the three fields are populated
    together or not at all.  (A FAILED document may hold the fields of an
    earlier completed run: they are not cleared.) *)
Theorem ocr_fields_follow_completion env rs w d :
  documents (db w) = [] ->
  In d (dict_values (documents (db (serve_all env rs w)))) ->
  (ocr_status d = COMPLETED \/ ocr_status d = FAILED) /\
  (ocr_status d = COMPLETED -> populated d) /\
  (populated d \/ unpopulated d).
Proof.
  intros E H. apply (serve_all_ok env rs w); [|exact H].
  intros x Hx. rewrite E in Hx. destruct Hx.
Qed.

Lemma ocr_fields_follow_completion_witness :
  let rs := [Ingest demo.png None "/" None; ReOcr 2%nat (Some "abbyy")] in
  let d := mkDocument "page.png" "image/png" 7 "/" 2%nat "storage/documents/0.png"
             (Some "storage/documents/1.png") 1700000000 FAILED (Some "text of PNGDATA")
             (Some "tesseract") (Some "5.3.0") []
             [("error", "Unknown OCR engine: abbyy")] in
  documents (db demo.start) = [] /\
  In d (dict_values (documents (db (serve_all demo.env rs demo.start)))) /\
  (ocr_status d = COMPLETED \/ ocr_status d = FAILED) /\
  (ocr_status d = COMPLETED -> populated d) /\
  (populated d \/ unpopulated d).
Proof.
  intros rs d.
  assert (H1 : documents (db demo.start) = []) by reflexivity.
  assert (H2 : In d (dict_values (documents (db (serve_all demo.env rs demo.start)))))
    by (vm_compute; left; reflexivity).
  split; [exact H1|]. split; [exact H2|].
  exact (ocr_fields_follow_completion demo.env rs demo.start d H1 H2).
Defined.

(** C2, as stated, fails: after an upload that completes and a re-OCR that
    fails (unknown engine), the document is FAILED and its three OCR fields
    are populated. *)
Lemma populated_without_completed :
  exists d,
    In d (dict_values (documents (db
           (serve_all demo.env
              [Ingest demo.png None "/" None; ReOcr 2%nat (Some "abbyy")] demo.start)))) /\
    populated d /\ ocr_status d <> COMPLETED.
Proof.
  eexists. split; [vm_compute; left; reflexivity|].
  split; [|discriminate]. repeat split; discriminate.
Qed.

(** ** Fresh identifiers *)


Lemma dict_keys_app {V} (a b : list (UUID * V)) :
  dict_keys (a ++ b)%list = (dict_keys a ++ dict_keys b)%list.
Proof. apply map_app. Qed.

Lemma ingest_member_fresh env st zip_info tag_field folder engine w :
  readable zip_info = true ->
  wf w ->
  returns (api.ingest_member env st zip_info tag_field folder engine) w
    (fun doc w' =>
       exists d,
         doc_id d = doc_id doc /\ (uuid_next w <= doc_id d)%nat /\
         made_from env folder zip_info d /\
         documents (db w') = (documents (db w) ++ [(doc_id d, d)])%list /\
         settings (db w') = settings (db w) /\
         (uuid_next w <= uuid_next w')%nat /\ wf w').
Proof.
  intros Hread [N L].
  eapply returns_weaken; [apply (ingest_member_returns _ _ _ _ _ _ _ Hread)|].
  intros doc w' (_ & _ & _ & _ & U & Fn & Mt & Sz & Fo & D & Hs).
  destruct (settled_same_record env doc engine w')
    as (R1 & R2 & R3 & R4 & R5 & _).
  assert (Fr : ~ In (doc_id doc) (dict_keys (documents (db w)))).
  { intros I. apply L in I. lia. }
  rewrite (dict_set_fresh _ _ _ Fr) in D.
  exists (settled env doc engine w'). rewrite R5.
  repeat split; auto; try lia; try congruence.
  - apply settled_status.
  - rewrite D, dict_keys_app. apply NoDup_app; [exact N| |].
    + constructor; [intros []|constructor].
    + intros k Hk [<-|[]]. contradiction.
  - intros k Hk. rewrite D, dict_keys_app in Hk. apply in_app_or in Hk.
    destruct Hk as [Hk|[<-|[]]]; [apply L in Hk|cbn [fst]]; lia.
Qed.

Lemma ingest_member_wf env st zip_info tag_field folder engine :
  keeps wf (api.ingest_member env st zip_info tag_field folder engine).
Proof.
  intros w H. destruct (readable zip_info) eqn:R.
  - destruct (ingest_member_fresh env st zip_info tag_field folder engine w R H)
      as (doc & w' & E & d & _ & _ & _ & _ & _ & _ & W).
    now rewrite E.
  - unfold api.ingest_member, bind, api.read_member. unfold readable in R.
    destruct (zi_read zip_info); [exact H | discriminate].
Qed.

Lemma expand_zip_wf env st s infolist tag_field folder engine :
  forall docs, keeps wf (api.expand_zip env st s infolist tag_field folder engine docs).
Proof.
  induction infolist as [|zip_info rest IH]; intros docs; cbn [api.expand_zip].
  - apply keeps_ret.
  - destruct (api.is_dir zip_info) as [e|[|]]; [apply keeps_raise | apply IH |].
    destruct (zi_file_size zip_info >? max_file_size s); [apply IH|].
    destruct (negb (api.accepted_type (guess_type env (zi_filename zip_info)))); [apply IH|].
    apply keeps_bind; [apply ingest_member_wf|]. intros doc. apply IH.
Qed.











(** ** Retrieval of the original bytes *)

(** C9, as the code has it.  Fetching the original bytes of an id that is
    not in the index fails with status 404 "Document not found"; when the
    document is in the index and its file is missing from local storage, the
    storage error is reported with status 500 and the message "File not
    found: <path>".  Neither changes the world. *)
Theorem original_retrieval_failures env w document_id :
  (database.get_document document_id (db w) = None ->
   api.get_document_original env document_id w =
     (inl (HTTPException 404 Document_not_found), w)) /\
  (forall doc,
     database.get_document document_id (db w) = Some doc ->
     storage_type (settings (db w)) <> "s3" ->
     dict_get String.eqb (file_path doc) (files w) = None ->
     api.get_document_original env document_id w =
       (inl (HTTPException 500 (Storage_error ("File not found: " ++ file_path doc))), w)).
Proof.
  split.
  - intros H. unfold api.get_document_original. rewrite bind_gets, H. reflexivity.
  - intros doc H L F. unfold api.get_document_original, storage.get_storage.
    rewrite bind_gets, H, !bind_gets. unfold storage.storage_for.
    destruct (String.eqb_spec (storage_type (settings (db w))) "s3"); [contradiction|].
    unfold storage.get_file. rewrite F. reflexivity.
Qed.

Lemma original_retrieval_failures_witness :
  let w := set_files [] (snd (api.create_document demo.env demo.png None "/" None demo.start)) in
  api.get_document_original demo.env 7%nat w =
    (inl (HTTPException 404 Document_not_found), w) /\
  api.get_document_original demo.env 2%nat w =
    (inl (HTTPException 500 (Storage_error "File not found: storage/documents/0.png")), w).
Proof.
  intros w. split.
  - apply (proj1 (original_retrieval_failures demo.env w 7%nat)). vm_compute. reflexivity.
  - apply (proj2 (original_retrieval_failures demo.env w 2%nat)
             (mkDocument "page.png" "image/png" 7 "/" 2%nat "storage/documents/0.png"
                (Some "storage/documents/1.png") 1700000000 COMPLETED
                (Some "text of PNGDATA") (Some "tesseract") (Some "5.3.0") [] [])).
    + vm_compute. reflexivity.
    + vm_compute. discriminate.
    + vm_compute. reflexivity.
Defined.

(** C9, as stated, fails: for a document that is in the index and whose file
    is gone from storage, the failure is a 500, not the 404 of an absent id. *)
Lemma missing_stored_object_is_not_a_404 :
  let w := set_files [] (snd (api.create_document demo.env demo.png None "/" None demo.start)) in
  (exists doc, database.get_document 2%nat (db w) = Some doc /\
               dict_get String.eqb (file_path doc) (files w) = None) /\
  fst (api.get_document_original demo.env 2%nat w) =
    inl (HTTPException 500 (Storage_error "File not found: storage/documents/0.png")) /\
  fst (api.get_document_original demo.env 2%nat w) <>
    inl (HTTPException 404 Document_not_found).
Proof.
  intros w. split; [eexists; split; vm_compute; reflexivity|].
  split; [vm_compute; reflexivity | vm_compute; discriminate].
Qed.

(** ** Search *)

Lemma filter_and {A} (p q : A -> bool) l :
  filter p (filter q l) = filter (fun x => q x && p x) l.
Proof.
  induction l as [|x l IH]; cbn; auto.
  destruct (q x); cbn; [destruct (p x)|]; now rewrite IH.
Qed.

Lemma filter_true {A} (l : list A) : filter (fun _ => true) l = l.
Proof. induction l; cbn; congruence. Qed.

Lemma existsb_swap {A B} (f : A -> B -> bool) la lb :
  existsb (fun a => existsb (f a) lb) la = existsb (fun b => existsb (fun a => f a b) la) lb.
Proof.
  apply Bool.eq_true_iff_eq. rewrite !existsb_exists. split.
  - intros (a & Ha & H). apply existsb_exists in H. destruct H as (b & Hb & H).
    exists b. split; auto. apply existsb_exists. eauto.
  - intros (b & Hb & H). apply existsb_exists in H. destruct H as (a & Ha & H).
    exists a. split; auto. apply existsb_exists. eauto.
Qed.

Lemma lower_empty env : lower_keeps_empty env -> str_lower env "" = "".
Proof.
  intros L. specialize (L ""). unfold Str.truthy in L. cbn [String.eqb negb] in L.
  apply Bool.negb_false_iff, String.eqb_eq in L. exact L.
Qed.

Lemma contains_empty_hay env t :
  lower_keeps_empty env -> Str.truthy t = true -> Str.contains (str_lower env t) "" = false.
Proof.
  intros L H. rewrite <- (L t) in H. destruct (str_lower env t); [discriminate | reflexivity].
Qed.

Lemma text_filter_filter env text docs :
  lower_keeps_empty env ->
  database.text_filter env text docs =
  filter (fun d => match supplied text with Some t => spec_text_matches env t d | None => true end) docs.
Proof.
  intros L.
  unfold database.text_filter, supplied. destruct text as [t|]; [|now rewrite filter_true].
  destruct (Str.truthy t) eqn:T; [|now rewrite filter_true].
  apply filter_ext. intros d. unfold spec_text_matches. rewrite orb_comm. f_equal.
  destruct (ocr_text d) as [o|]; auto.
  destruct (Str.truthy o) eqn:O; auto. cbn [andb].
  destruct o; [|discriminate]. rewrite (lower_empty env L). symmetry.
  now apply contains_empty_hay.
Qed.

Lemma tags_filter_filter names docs :
  database.tags_filter names docs =
  filter (fun d => match names with [] => true | _ => spec_holds_any_tag names d end) docs.
Proof.
  unfold database.tags_filter. destruct names as [|n names]; [now rewrite filter_true|].
  apply filter_ext. intros d. unfold spec_holds_any_tag.
  apply (existsb_swap (fun tag m => (tag_name tag =? m)%string)).
Qed.

Lemma folder_filter_filter folder docs :
  database.folder_filter folder docs =
  filter (fun d => match supplied folder with
                   | Some f => (folder_path d =? f)%string
                   | None => true
                   end) docs.
Proof.
  unfold database.folder_filter, supplied. destruct folder as [f|]; [|now rewrite filter_true].
  destruct (Str.truthy f); [reflexivity | now rewrite filter_true].
Qed.

Lemma mime_filter_filter mimes docs :
  database.mime_filter mimes docs =
  filter (fun d => match mimes with
                   | [] => true
                   | _ => existsb (String.eqb (mime_type d)) mimes
                   end) docs.
Proof.
  unfold database.mime_filter. destruct mimes; [now rewrite filter_true | reflexivity].
Qed.

Lemma date_from_filter_naive t docs :
  database.date_from_filter (naive t) docs =
  inr (filter (fun d => match t with Some t => t <=? upload_date d | None => true end) docs).
Proof.
  unfold database.date_from_filter, naive. destruct t as [t|]; cbn [option_map].
  - f_equal. apply filter_ext. intros d. apply Z.geb_leb.
  - now rewrite filter_true.
Qed.

Lemma date_to_filter_naive t docs :
  database.date_to_filter (naive t) docs =
  inr (filter (fun d => match t with Some t => upload_date d <=? t | None => true end) docs).
Proof.
  unfold database.date_to_filter, naive. destruct t as [t|]; cbn [option_map].
  - reflexivity.
  - now rewrite filter_true.
Qed.

(** A date filter that returns keeps some of the documents it was given. *)
Lemma date_from_filter_incl t docs kept :
  database.date_from_filter t docs = inr kept -> incl kept docs.
Proof.
  unfold database.date_from_filter. destruct t as [[t|t o]|].
  - intros [= <-] x Hx. now apply filter_In in Hx.
  - destruct docs; [intros [= <-] x [] | discriminate].
  - now intros [= <-].
Qed.

Lemma date_to_filter_incl t docs kept :
  database.date_to_filter t docs = inr kept -> incl kept docs.
Proof.
  unfold database.date_to_filter. destruct t as [[t|t o]|].
  - intros [= <-] x Hx. now apply filter_In in Hx.
  - destruct docs; [intros [= <-] x [] | discriminate].
  - now intros [= <-].
Qed.

Lemma filters_are_the_conjunction env text names folder mimes date_from date_to docs :
  lower_keeps_empty env ->
  filter (fun d => match date_to with Some t => upload_date d <=? t | None => true end)
    (filter (fun d => match date_from with Some t => t <=? upload_date d | None => true end)
       (database.mime_filter mimes
          (database.folder_filter folder
             (database.tags_filter names (database.text_filter env text docs))))) =
  filter (spec_satisfies env text names folder mimes date_from date_to) docs.
Proof.
  intros L.
  rewrite mime_filter_filter, folder_filter_filter, tags_filter_filter,
    (text_filter_filter env text docs L).
  rewrite !filter_and. apply filter_ext. intros d. unfold spec_satisfies.
  now rewrite !andb_assoc.
Qed.

(** Sorting and slicing *)

Lemma insert_sorted_perm {A} (le : A -> A -> bool) x l :
  Permutation (insert_sorted le x l) (x :: l).
Proof.
  induction l as [|y l IH]; cbn; auto.
  destruct (le x y); auto.
  rewrite IH. apply perm_swap.
Qed.

Lemma stable_sort_perm {A} (le : A -> A -> bool) l : Permutation (stable_sort le l) l.
Proof.
  induction l as [|x l IH]; cbn; auto.
  rewrite insert_sorted_perm. now constructor.
Qed.

Lemma list_sort_perm {A} (le : A -> A -> bool) reverse l :
  Permutation (list_sort le reverse l) l.
Proof.
  unfold list_sort. destruct reverse; [|apply stable_sort_perm].
  rewrite <- Permutation_rev, stable_sort_perm. symmetry. apply Permutation_rev.
Qed.

Lemma sort_results_perm env sort_by sort_order l :
  Permutation (database.sort_results env sort_by sort_order l) l.
Proof.
  unfold database.sort_results.
  destruct (sort_by =? "upload_date")%string; [apply list_sort_perm|].
  destruct (sort_by =? "filename")%string; [apply list_sort_perm|].
  destruct (sort_by =? "size")%string; [apply list_sort_perm | reflexivity].
Qed.

Lemma py_slice_incl {A} a b (l : list A) x : In x (py_slice a b l) -> In x l.
Proof.
  unfold py_slice. set (n := Z.to_nat _). set (m := Z.to_nat _). intros H.
  rewrite <- (firstn_skipn m l). apply in_or_app. right.
  rewrite <- (firstn_skipn n (skipn m l)). apply in_or_app. now left.
Qed.

Lemma py_slice_whole {A} n (l : list A) :
  Z.of_nat (List.length l) <= n -> py_slice 0 (0 + n) l = l.
Proof.
  intros H. unfold py_slice, slice_index. cbn [Z.ltb Z.compare Z.add].
  destruct (Z.ltb_spec n 0); [lia|].
  rewrite (Z.min_r n) by lia. rewrite (Z.min_l 0) by lia.
  rewrite Z.sub_0_r, Nat2Z.id. cbn [Z.to_nat skipn]. apply firstn_all.
Qed.

(** What a search returns is a page of one sorted list of documents that
    passed the filters. *)
Lemma search_documents_inr env text names folder mimes date_from date_to skip limit
    sort_by sort_order d docs :
  database.search_documents env text names folder mimes date_from date_to skip limit
    sort_by sort_order d = inr docs ->
  exists kept,
    docs = py_slice skip (skip + limit) (database.sort_results env sort_by sort_order kept) /\
    incl kept
      (database.mime_filter mimes
         (database.folder_filter folder
            (database.tags_filter names
               (database.text_filter env text (dict_values (documents d)))))).
Proof.
  unfold database.search_documents.
  destruct (database.date_from_filter date_from _) as [e|kept1] eqn:E1; [discriminate|].
  destruct (database.date_to_filter date_to kept1) as [e|kept2] eqn:E2; [discriminate|].
  intros [= <-]. exists kept2. split; [reflexivity|].
  intros x Hx. apply (date_from_filter_incl _ _ _ E1), (date_to_filter_incl _ _ _ E2), Hx.
Qed.

(** With bounds that know no time zone the search returns, and its pages
    are cut from one sorted list. *)
Lemma search_documents_pages env text names folder mimes date_from date_to
    sort_by sort_order d :
  exists sorted,
    (Z.of_nat (List.length sorted) <= Z.of_nat (List.length (documents d))) /\
    forall skip limit,
      database.search_documents env text names folder mimes (naive date_from)
        (naive date_to) skip limit sort_by sort_order d =
      inr (py_slice skip (skip + limit) sorted).
Proof.
  exists (database.sort_results env sort_by sort_order
            (filter (fun x => match date_to with Some t => upload_date x <=? t | None => true end)
               (filter (fun x => match date_from with
                                 | Some t => t <=? upload_date x
                                 | None => true
                                 end)
                  (database.mime_filter mimes
                     (database.folder_filter folder
                        (database.tags_filter names
                           (database.text_filter env text (dict_values (documents d))))))))).
  split; [|intros skip limit; unfold database.search_documents;
           rewrite date_from_filter_naive, date_to_filter_naive; reflexivity].
  rewrite (Permutation_length (sort_results_perm _ _ _ _)).
  apply inj_le.
  etransitivity; [apply filter_length_le|]. etransitivity; [apply filter_length_le|].
  rewrite mime_filter_filter, folder_filter_filter, tags_filter_filter.
  etransitivity; [apply filter_length_le|]. etransitivity; [apply filter_length_le|].
  etransitivity; [apply filter_length_le|].
  unfold database.text_filter.
  assert (B : forall (p : Document -> bool) l,
             (List.length (filter p l) <= List.length l)%nat) by (intros; apply filter_length_le).
  unfold dict_values. rewrite <- (length_map snd (documents d)).
  destruct text as [t|]; [|apply Nat.le_refl].
  destruct (Str.truthy t); [apply B | apply Nat.le_refl].
Qed.

Lemma search_documents_unfold env text names folder mimes date_from date_to skip limit
    sort_by sort_order d :
  lower_keeps_empty env ->
  database.search_documents env text names folder mimes (naive date_from) (naive date_to)
    skip limit sort_by sort_order d =
  inr (py_slice skip (skip + limit)
         (database.sort_results env sort_by sort_order
            (filter (spec_satisfies env text names folder mimes date_from date_to)
               (dict_values (documents d))))).
Proof.
  intros L. unfold database.search_documents.
  rewrite date_from_filter_naive, date_to_filter_naive.
  now rewrite (filters_are_the_conjunction env text names folder mimes date_from date_to _ L).
Qed.

Lemma search_documents_everything env text names folder mimes date_from date_to
    sort_by sort_order d :
  lower_keeps_empty env ->
  database.search_documents env text names folder mimes (naive date_from) (naive date_to)
    0 (Z.of_nat (List.length (documents d))) sort_by sort_order d =
  inr (database.sort_results env sort_by sort_order
         (filter (spec_satisfies env text names folder mimes date_from date_to)
            (dict_values (documents d)))).
Proof.
  intros L. rewrite (search_documents_unfold env _ _ _ _ _ _ _ _ _ _ _ L). f_equal.
  apply py_slice_whole.
  rewrite (Permutation_length (sort_results_perm _ _ _ _)).
  apply inj_le. etransitivity; [apply filter_length_le|].
  unfold dict_values. now rewrite length_map.
Qed.

Lemma demo_lower_keeps_empty : lower_keeps_empty demo.env.
Proof.
  intros s. cbn [str_lower demo.env]. destruct s as [|a [|b r]]; [reflexivity..|].
  cbn [demo.lower].
  destruct (_ && _ && _ && _)%bool; reflexivity.
Qed.

(** C6, as the code has it.  For a query whose date bounds are absent or
    know no time zone, as every upload date does, the documents selected,
    before the page is cut out, are exactly the documents of the index that
    satisfy every supplied filter (case-insensitive substring on file name
    or extracted text, any of the tag names, the folder path, one of the
    MIME types, the inclusive date range); they are a rearrangement of those
    documents, and any page is a slice of them.  The PDF tagged invoice in
    /2024/ is selected by tag invoice and folder /2024/, and is not once the
    MIME filter image/png is added. *)
Theorem search_selects_the_conjunction env text names folder mimes date_from date_to
    skip limit sort_by sort_order d :
  lower_keeps_empty env ->
  exists everything,
    database.search_documents env text names folder mimes (naive date_from) (naive date_to)
      0 (Z.of_nat (List.length (documents d))) sort_by sort_order d = inr everything /\
    (forall doc,
       In doc everything <->
       In doc (dict_values (documents d)) /\
       spec_satisfies env text names folder mimes date_from date_to doc = true) /\
    Permutation everything
      (filter (spec_satisfies env text names folder mimes date_from date_to)
         (dict_values (documents d))) /\
    database.search_documents env text names folder mimes (naive date_from) (naive date_to)
      skip limit sort_by sort_order d = inr (py_slice skip (skip + limit) everything) /\
    database.search_documents demo.env None ["invoice"] (Some "/2024/") [] None None 0 20
      "upload_date" "desc" demo.invoices = inr [demo.invoice_pdf] /\
    database.search_documents demo.env None ["invoice"] (Some "/2024/") ["image/png"]
      None None 0 20 "upload_date" "desc" demo.invoices = inr [].
Proof.
  intros L. eexists. split; [apply (search_documents_everything env); exact L|].
  split; [|split; [|split; [|split]]].
  - intros doc. rewrite <- filter_In. split; apply Permutation_in.
    + apply sort_results_perm.
    + symmetry. apply sort_results_perm.
  - apply sort_results_perm.
  - apply (search_documents_unfold env). exact L.
  - vm_compute. reflexivity.
  - vm_compute. reflexivity.
Qed.

Lemma search_selects_the_conjunction_witness :
  lower_keeps_empty demo.env /\
  exists everything,
    database.search_documents demo.env (Some "SCAN") [] None [] (Some (Naive 1700000000))
      None 0 2 "filename" "asc" demo.invoices = inr everything /\
    everything = [demo.capital_png].
Proof.
  split; [exact demo_lower_keeps_empty|].
  destruct (search_selects_the_conjunction demo.env (Some "SCAN") [] None []
              (Some 1700000000) None 0 2 "filename" "asc" demo.invoices
              demo_lower_keeps_empty) as (everything & E & _).
  exists everything. split; [exact E|].
  vm_compute in E. now injection E as <-.
Defined.

(** C6, as stated, fails: for a lower bound that carries a time zone the
    search selects nothing and raises, although both documents of the index
    were uploaded after that instant. *)
Lemma aware_bound_raises :
  database.search_documents demo.env None [] None [] (Some (Aware 1700000000 0)) None 0 20
    "upload_date" "desc" demo.invoices
  = inl (TypeError "can't compare offset-naive and offset-aware datetimes") /\
  Forall (fun doc => 1700000000 <= upload_date doc) (dict_values (documents demo.invoices)).
Proof.
  split; [vm_compute; reflexivity|].
  repeat constructor; vm_compute; discriminate.
Qed.

(** C10.  The tag filter of the search compares names exactly: every
    document a query with tag names returns holds a tag whose name is one of
    them, letter for letter (and the query does return when its date bounds
    are absent or know no time zone).  The document tagged "Invoice" is not
    returned for the tag name "invoice", although the lookup used at
    ingestion finds the tag "Invoice" under that name. *)
Theorem search_tag_filter_is_case_sensitive env text names folder mimes date_from date_to
    skip limit sort_by sort_order d docs doc :
  names <> [] ->
  database.search_documents env text names folder mimes date_from date_to skip limit
    sort_by sort_order d = inr docs ->
  In doc docs ->
  (exists tag, In tag (tags doc) /\ In (tag_name tag) names) /\
  (forall bound_from bound_to, exists page,
     database.search_documents env text names folder mimes (naive bound_from)
       (naive bound_to) skip limit sort_by sort_order d = inr page) /\
  (exists found,
     database.search_documents demo.env None ["invoice"] None [] None None 0 20
       "upload_date" "desc" demo.invoices = inr found /\
     ~ In demo.capital_png found) /\
  database.get_tag_by_name demo.env "invoice"
    (mkInMemoryDB [] [(22%nat, mkTag 22%nat "Invoice" "#808080")] default_settings)
  = Some (mkTag 22%nat "Invoice" "#808080").
Proof.
  intros Hn E H. split; [|split; [|split]].
  - destruct (search_documents_inr _ _ _ _ _ _ _ _ _ _ _ _ _ E) as (kept & -> & K).
    apply py_slice_incl in H.
    apply (Permutation_in _ (sort_results_perm _ _ _ _)) in H.
    apply K in H. rewrite mime_filter_filter, folder_filter_filter in H.
    apply filter_In in H. destruct H as [H _]. apply filter_In in H. destruct H as [H _].
    rewrite tags_filter_filter in H. apply filter_In in H. destruct H as [_ HT].
    destruct names as [|n names]; [contradiction|].
    unfold spec_holds_any_tag in HT. apply existsb_exists in HT. destruct HT as (m & Hm & HT).
    apply existsb_exists in HT. destruct HT as (tag & Htag & Eq).
    apply String.eqb_eq in Eq. exists tag. split; auto. now rewrite Eq.
  - intros bound_from bound_to.
    destruct (search_documents_pages env text names folder mimes bound_from bound_to
                sort_by sort_order d) as (sorted & _ & P).
    eexists. apply P.
  - eexists. split; [vm_compute; reflexivity|]. intros [Eq|[]]. discriminate Eq.
  - vm_compute. reflexivity.
Qed.

Lemma search_tag_filter_witness :
  exists tag, In tag (tags demo.invoice_pdf) /\ In (tag_name tag) ["invoice"].
Proof.
  refine (proj1 (search_tag_filter_is_case_sensitive demo.env None ["invoice"] None []
                   None None 0 20 "upload_date" "desc" demo.invoices [demo.invoice_pdf]
                   demo.invoice_pdf _ _ _)).
  - discriminate.
  - vm_compute. reflexivity.
  - left. reflexivity.
Defined.

(** ** Folder listing *)

Lemma split_cons sep s : exists w ws, Str.split sep s = w :: ws.
Proof.
  destruct s as [|c r]; cbn; [eauto|].
  destruct (Ascii.eqb c sep); [eauto|]. destruct (Str.split sep r); eauto.
Qed.

Lemma filter_truthy_empties l k :
  filter Str.truthy (l ++ repeat EmptyString k)%list = filter Str.truthy l.
Proof.
  rewrite filter_app. induction k as [|k IH]; cbn; [apply app_nil_r | exact IH].
Qed.

Lemma split_lstrip sep s :
  filter Str.truthy (Str.split sep (Str.lstrip_by (Ascii.eqb sep) s)) =
  filter Str.truthy (Str.split sep s).
Proof.
  induction s as [|c r IH]; cbn [Str.lstrip_by]; auto.
  destruct (Ascii.eqb_spec sep c) as [->|N]; [|reflexivity].
  cbn [Str.split]. rewrite Ascii.eqb_refl. cbn. exact IH.
Qed.

Lemma split_String sep c s :
  Str.split sep (String c s) =
  if Ascii.eqb c sep then EmptyString :: Str.split sep s
  else match Str.split sep s with
       | [] => [String c EmptyString]
       | w :: ws => String c w :: ws
       end.
Proof. reflexivity. Qed.

Lemma rstrip_String p c s :
  Str.rstrip_by p (String c s) =
  match Str.rstrip_by p s with
  | EmptyString => if p c then EmptyString else String c EmptyString
  | r' => String c r'
  end.
Proof. reflexivity. Qed.

(** Stripping trailing separators only drops empty pieces at the end. *)
Lemma split_rstrip sep s :
  exists k, Str.split sep s =
            (Str.split sep (Str.rstrip_by (Ascii.eqb sep) s) ++ repeat EmptyString k)%list.
Proof.
  induction s as [|c r [k IH]]; [exists 0%nat; reflexivity|].
  rewrite rstrip_String.
  destruct (Str.rstrip_by (Ascii.eqb sep) r) as [|c' r'] eqn:R.
  - change (Str.split sep "") with [EmptyString] in IH. cbn [app] in IH.
    rewrite split_String, IH.
    destruct (Ascii.eqb_spec sep c) as [->|N].
    + rewrite Ascii.eqb_refl. exists (S k). reflexivity.
    + destruct (Ascii.eqb_spec c sep) as [->|N']; [contradiction|].
      exists k. rewrite split_String.
      destruct (Ascii.eqb_spec c sep) as [->|_]; [contradiction | reflexivity].
  - remember (String c' r') as t eqn:T.
    rewrite (split_String sep c r), (split_String sep c t), IH.
    destruct (Ascii.eqb c sep); [exists k; reflexivity|].
    destruct (split_cons sep t) as (w & ws & E). rewrite E. exists k. reflexivity.
Qed.

Lemma components_strip p :
  filter Str.truthy (Str.split "/" (Str.strip_char "/" p)) = components p.
Proof.
  unfold Str.strip_char, components.
  destruct (split_rstrip "/" (Str.lstrip_by (Ascii.eqb "/") p)) as [k E].
  rewrite <- (split_lstrip "/" p), E. symmetry. apply filter_truthy_empties.
Qed.

Lemma set_add_in p folders f : In f (api.set_add p folders) <-> f = p \/ In f folders.
Proof.
  unfold api.set_add. destruct (existsb (String.eqb p) folders) eqn:E.
  - split; [auto|]. intros [->|H]; auto.
    apply existsb_exists in E. destruct E as (x & Hx & E).
    apply String.eqb_eq in E. now subst.
  - rewrite in_app_iff. cbn. intuition.
Qed.

Lemma set_add_nodup p folders : NoDup folders -> NoDup (api.set_add p folders).
Proof.
  intros N. unfold api.set_add. destruct (existsb (String.eqb p) folders) eqn:E; auto.
  apply NoDup_app; auto.
  - constructor; [intros []|constructor].
  - intros x Hx [<-|[]].
    assert (existsb (String.eqb p) folders = true); [|congruence].
    apply existsb_exists. exists p. split; auto. apply String.eqb_refl.
Qed.

Lemma prefixes_from_head current comps :
  prefixes_from current comps = current :: tl (prefixes_from current comps).
Proof. destruct comps; reflexivity. Qed.

Lemma add_parts_in parts : forall current folders f,
  In f (api.add_parts parts current folders) <->
  In f folders \/ In f (tl (prefixes_from current (filter Str.truthy parts))).
Proof.
  induction parts as [|part rest IH]; intros current folders f; cbn [api.add_parts filter].
  - cbn. tauto.
  - destruct (Str.truthy part); cbn [negb].
    + rewrite IH, set_add_in. cbn [prefixes_from tl].
      rewrite (prefixes_from_head (current ++ part ++ "/")). cbn [In].
      split; [intros [[->|H]|H] | intros [H|[<-|H]]]; auto.
    + apply IH.
Qed.

Lemma add_parts_nodup parts : forall current folders,
  NoDup folders -> NoDup (api.add_parts parts current folders).
Proof.
  induction parts as [|part rest IH]; intros current folders N; cbn [api.add_parts]; auto.
  destruct (negb (Str.truthy part)); auto. apply IH. now apply set_add_nodup.
Qed.

Lemma add_document_folders_in folders doc f :
  In f (api.add_document_folders folders doc) <->
  In f folders \/ In f (spec_folder_prefixes (folder_path doc)).
Proof.
  unfold api.add_document_folders, spec_folder_prefixes.
  rewrite add_parts_in, set_add_in, components_strip.
  rewrite (prefixes_from_head "/" (components (folder_path doc))). cbn [In].
  split; [intros [[->|H]|H] | intros [H|[<-|H]]]; auto.
Qed.

Lemma fold_folders_in docs : forall folders f,
  In f (fold_left api.add_document_folders docs folders) <->
  In f folders \/ exists doc, In doc docs /\ In f (spec_folder_prefixes (folder_path doc)).
Proof.
  induction docs as [|doc docs IH]; intros folders f; cbn [fold_left].
  - split; [auto|]. intros [H|(doc & [] & _)]. exact H.
  - rewrite IH, add_document_folders_in. split.
    + intros [[H|H]|(x & Hx & H)]; eauto.
      * right. exists doc. split; [now left | exact H].
      * right. exists x. split; [now right | exact H].
    + intros [H|(x & [<-|Hx] & H)]; eauto.
Qed.

Lemma fold_folders_nodup docs : forall folders,
  NoDup folders -> NoDup (fold_left api.add_document_folders docs folders).
Proof.
  induction docs as [|doc docs IH]; intros folders N; cbn [fold_left]; auto.
  apply IH. unfold api.add_document_folders. apply add_parts_nodup. now apply set_add_nodup.
Qed.

Lemma list_folders_paths d :
  map api.path (api.list_folders d) =
  stable_sort String.leb
    (fold_left api.add_document_folders (database.list_documents 0 1000000 None d) []).
Proof.
  unfold api.list_folders. rewrite map_map. cbn [api.path]. apply map_id.
Qed.

Lemma root_is_a_prefix p : In "/" (spec_folder_prefixes p).
Proof. unfold spec_folder_prefixes. destruct (components p); cbn; auto. Qed.

(** The listing is computed from the documents [list_documents(0, 1000000)]
    returns. *)
Lemma list_folders_derived d :
  let docs := database.list_documents 0 1000000 None d in
  let listing := api.list_folders d in
  (forall f, In f (map api.path listing) <->
             exists doc, In doc docs /\ In f (spec_folder_prefixes (folder_path doc))) /\
  NoDup (map api.path listing) /\
  (forall folder, In folder listing ->
     api.document_count folder =
     Z.of_nat (List.length
                 (filter (fun doc => (folder_path doc =? api.path folder)%string) docs))) /\
  (docs <> [] -> In "/" (map api.path listing)) /\
  (Z.of_nat (List.length (documents d)) <= 1000000 -> docs = dict_values (documents d)).
Proof.
  intros docs listing.
  assert (P : forall f, In f (map api.path listing) <->
               exists doc, In doc docs /\ In f (spec_folder_prefixes (folder_path doc))).
  { intros f. unfold listing. rewrite list_folders_paths. fold docs. split.
    - intros H. apply (Permutation_in _ (stable_sort_perm _ _)) in H.
      apply fold_folders_in in H. destruct H as [[]|H]. exact H.
    - intros H. apply (Permutation_in _ (Permutation_sym (stable_sort_perm _ _))).
      apply fold_folders_in. now right. }
  split; [exact P|]. split; [|split; [|split]].
  - unfold listing. rewrite list_folders_paths.
    apply (Permutation_NoDup (Permutation_sym (stable_sort_perm _ _))).
    apply fold_folders_nodup. constructor.
  - intros folder H. unfold listing, api.list_folders in H. apply in_map_iff in H.
    destruct H as (f & <- & _). reflexivity.
  - intros H. apply P. destruct docs as [|doc rest]; [contradiction|].
    exists doc. split; [now left | apply root_is_a_prefix].
  - intros H. unfold docs, database.list_documents.
    change (0 + 1000000) with (0 + 1000000)%Z. apply py_slice_whole.
    unfold dict_values. now rewrite length_map.
Qed.

(** C7, as the code has it.  For an index of at most 1,000,000 documents:
    the folders listed are exactly the prefixes of the folder paths of the
    documents, each once; the root is among them as soon as there is a
    document; the count of a folder is the number of documents whose
    [folder_path] is that folder exactly. *)
Theorem folder_listing_is_derived d :
  Z.of_nat (List.length (documents d)) <= 1000000 ->
  let docs := dict_values (documents d) in
  let listing := api.list_folders d in
  (forall f, In f (map api.path listing) <->
             exists doc, In doc docs /\ In f (spec_folder_prefixes (folder_path doc))) /\
  NoDup (map api.path listing) /\
  (forall folder, In folder listing ->
     api.document_count folder =
     Z.of_nat (List.length
                 (filter (fun doc => (folder_path doc =? api.path folder)%string) docs))) /\
  (docs <> [] -> In "/" (map api.path listing)).
Proof.
  intros Hcap docs listing.
  destruct (list_folders_derived d) as (P & N & C & R & All).
  specialize (All Hcap). rewrite All in P, C, R.
  repeat split; auto; apply P.
Qed.

Lemma folder_listing_witness :
  let d := db (snd (api.create_document demo.env demo.png None "/2024//inv" None demo.start)) in
  Z.of_nat (List.length (documents d)) <= 1000000 /\
  map api.path (api.list_folders d) = ["/"; "/2024/"; "/2024/inv/"] /\
  In "/" (map api.path (api.list_folders d)).
Proof.
  intros d.
  assert (Hcap : Z.of_nat (List.length (documents d)) <= 1000000)
    by (vm_compute; discriminate).
  split; [exact Hcap|]. split; [vm_compute; reflexivity|].
  destruct (folder_listing_is_derived d Hcap) as (_ & _ & _ & Root).
  apply Root. vm_compute. discriminate.
Defined.

(** C7, as stated, fails: the listing of an empty index is empty, so it does
    not include the root. *)
Lemma empty_index_lists_no_root :
  api.list_folders database.init = [] /\
  ~ In "/" (map api.path (api.list_folders database.init)).
Proof. split; [reflexivity | intros []]. Qed.

(** ** Tag resolution *)

Lemma prefix_empty s : String.prefix "" s = true.
Proof. now destruct s. Qed.









(** ** Every state the handlers reach has fresh identifiers *)

Lemma dict_keys_set_present {V} k (v v' : V) d :
  dict_get Nat.eqb k d = Some v -> dict_keys (dict_set Nat.eqb k v' d) = dict_keys d.
Proof.
  induction d as [|[k' u] r IH]; cbn; [discriminate|].
  destruct (Nat.eqb_spec k k') as [->|N]; cbn; [reflexivity|].
  intros H. f_equal. now apply IH.
Qed.

Lemma wf_append w w' document_id d :
  wf w -> (uuid_next w <= document_id < uuid_next w')%nat ->
  documents (db w') = dict_set Nat.eqb document_id d (documents (db w)) ->
  wf w'.
Proof.
  intros [N L] U D.
  assert (Fr : ~ In document_id (dict_keys (documents (db w)))).
  { intros I. apply L in I. lia. }
  rewrite (dict_set_fresh _ _ _ Fr) in D. split.
  - rewrite D, dict_keys_app. apply NoDup_app; [exact N| |].
    + constructor; [intros []|constructor].
    + intros k Hk [<-|[]]. contradiction.
  - intros k Hk. rewrite D, dict_keys_app in Hk. apply in_app_or in Hk.
    destruct Hk as [Hk|[<-|[]]]; [apply L in Hk|cbn [fst]]; lia.
Qed.

Lemma process_document_ocr_wf env document_id engine w :
  wf w -> wf (snd (api.process_document_ocr env document_id engine w)).
Proof.
  intros H. destruct (database.get_document document_id (db w)) as [doc|] eqn:G.
  - rewrite (process_document_ocr_found _ _ _ _ _ G). unfold wf.
    cbn [snd db set_db database.set_documents documents uuid_next].
    now rewrite (dict_keys_set_present _ _ _ _ G).
  - now rewrite (process_document_ocr_missing _ _ _ _ G).
Qed.

Lemma reocr_document_wf env document_id ocr_engine w :
  wf w -> wf (snd (api.reocr_document env document_id ocr_engine w)).
Proof.
  intros H. unfold api.reocr_document, bind, gets.
  destruct (database.get_document document_id (db w)) as [doc|]; [|exact H].
  pose proof (process_document_ocr_wf env document_id
                (api.or_else ocr_engine (default_ocr_engine (settings (db w)))) w H) as P.
  destruct (api.process_document_ocr env document_id
              (api.or_else ocr_engine (default_ocr_engine (settings (db w)))) w)
    as [[f|[]] w']; exact P.
Qed.

Lemma create_document_wf env file tag_field folder ocr_engine w :
  wf w -> wf (snd (api.create_document env file tag_field folder ocr_engine w)).
Proof.
  intros H.
  destruct (Z.gtb_spec (Z.of_nat (String.length (api.content file)))
              (max_file_size (settings (db w)))) as [Hbig|Hsmall].
  - rewrite create_document_too_large_world by lia. exact H.
  - destruct (String.eqb_spec (api.upload_mime_type env file) "application/zip") as [Z|NZ].
    + destruct (Z.gtb_spec (Z.of_nat (String.length (api.content file)))
                  (max_zip_size (settings (db w)))) as [Hz|Hz].
      { rewrite (create_document_zip_too_large _ _ _ _ _ _ Hsmall Z) by lia. exact H. }
      destruct (zip_infolist env (api.content file)) as [infolist|] eqn:I.
      2:{ rewrite (create_document_bad_zip _ _ _ _ _ _ Hsmall Z Hz I). exact H. }
      rewrite (create_document_zip _ _ _ _ _ _ _ Hsmall Z Hz I).
      refine (keeps_bind wf _ _ _ _ w H); [apply expand_zip_wf|].
      intros [|first rest]; [apply keeps_raise | apply keeps_gets].
    + rewrite (create_document_single _ _ _ _ _ _ Hsmall NZ).
      destruct (ingest_single_returns env (storage.storage_for (settings (db w))) file
                  (api.upload_mime_type env file) tag_field folder
                  (api.or_else ocr_engine (default_ocr_engine (settings (db w)))) w)
        as (doc & w' & E & before & _ & _ & _ & _ & U & _ & _ & _ & _ & _ & S & _ & D & _).
      rewrite E. cbn [snd]. apply (wf_append w w' (doc_id doc) doc H); [|exact D].
      now rewrite S, settled_doc_id.
Qed.

Lemma serve_all_wf env rs : forall w, wf w -> wf (serve_all env rs w).
Proof.
  unfold serve_all. induction rs as [|r rs IH]; intros w H; cbn [fold_left]; auto.
  apply IH. destruct r; cbn [serve].
  - now apply create_document_wf.
  - now apply process_document_ocr_wf.
  - now apply reocr_document_wf.
Qed.

(** The hypothesis [wf] of the archive theorems holds in every state reached
    from an empty index. *)
Lemma reachable_wf env rs w : documents (db w) = [] -> wf (serve_all env rs w).
Proof.
  intros E. apply serve_all_wf. unfold wf. rewrite E. split; [constructor | intros k []].
Qed.

(** * More of the program *)

(** ** Dictionaries over any key *)

Section KeyFacts.
Context {K V : Type} (keqb : K -> K -> bool).
Context (keqb_spec : forall a b, reflect (a = b) (keqb a b)).
Implicit Types (d : list (K * V)) (k : K) (v : V).

Lemma kdict_get_set_same k v d : dict_get keqb k (dict_set keqb k v d) = Some v.
Proof.
  induction d as [|[k' u] r IH]; cbn.
  - destruct (keqb_spec k k); [reflexivity | contradiction].
  - destruct (keqb_spec k k') as [->|N]; cbn.
    + destruct (keqb_spec k' k'); [reflexivity | contradiction].
    + destruct (keqb_spec k k'); [contradiction | exact IH].
Qed.

Lemma kdict_get_set_other k k' v d :
  k' <> k -> dict_get keqb k' (dict_set keqb k v d) = dict_get keqb k' d.
Proof.
  intros N. induction d as [|[k0 u] r IH]; cbn.
  - destruct (keqb_spec k' k); [contradiction | reflexivity].
  - destruct (keqb_spec k k0) as [->|N0]; cbn.
    + destruct (keqb_spec k' k0); [contradiction | reflexivity].
    + destruct (keqb_spec k' k0); [reflexivity | exact IH].
Qed.

Lemma kdict_get_in_keys k v d : dict_get keqb k d = Some v -> In k (dict_keys d).
Proof.
  induction d as [|[k' u] r IH]; cbn; [discriminate|].
  destruct (keqb_spec k k') as [->|N]; [now left | right; auto].
Qed.

Lemma kdict_get_del_same k d :
  NoDup (dict_keys d) -> dict_get keqb k (dict_del keqb k d) = None.
Proof.
  induction d as [|[k' u] r IH]; cbn; intros N; [reflexivity|].
  inversion N as [|? ? Hn N']; subst.
  destruct (keqb_spec k k') as [->|Ne]; cbn.
  - destruct (dict_get keqb k' r) as [x|] eqn:G; [|reflexivity].
    contradiction Hn. exact (kdict_get_in_keys _ _ _ G).
  - destruct (keqb_spec k k'); [contradiction | now apply IH].
Qed.

Lemma kdict_get_del_other k k' d :
  k' <> k -> dict_get keqb k' (dict_del keqb k d) = dict_get keqb k' d.
Proof.
  intros N. induction d as [|[k0 u] r IH]; cbn; [reflexivity|].
  destruct (keqb_spec k k0) as [->|N0]; cbn.
  - destruct (keqb_spec k' k0); [contradiction | reflexivity].
  - destruct (keqb_spec k' k0); [reflexivity | exact IH].
Qed.

Lemma kdict_del_absent k d : dict_get keqb k d = None -> dict_del keqb k d = d.
Proof.
  induction d as [|[k' u] r IH]; cbn; [reflexivity|].
  destruct (keqb_spec k k'); [discriminate|]. intros H. now rewrite IH.
Qed.

Lemma kdict_keys_del_incl k d x : In x (dict_keys (dict_del keqb k d)) -> In x (dict_keys d).
Proof.
  induction d as [|[k' u] r IH]; cbn; [auto|].
  destruct (keqb k k'); cbn; [auto|]. intros [H|H]; auto.
Qed.

Lemma kdict_keys_del_nodup k d : NoDup (dict_keys d) -> NoDup (dict_keys (dict_del keqb k d)).
Proof.
  induction d as [|[k' u] r IH]; cbn; intros N; [constructor|].
  inversion N as [|? ? Hn N']; subst.
  destruct (keqb k k'); cbn; [exact N'|].
  constructor; [|now apply IH]. intros H. apply Hn. exact (kdict_keys_del_incl _ _ _ H).
Qed.

Lemma kdict_keys_set_in k v d x :
  In x (dict_keys (dict_set keqb k v d)) -> x = k \/ In x (dict_keys d).
Proof.
  induction d as [|[k' u] r IH]; cbn.
  - intros [<-|[]]. now left.
  - destruct (keqb_spec k k') as [->|N]; cbn; intros [H|H]; auto.
    destruct (IH H); auto.
Qed.

Lemma kdict_keys_set_nodup k v d :
  NoDup (dict_keys d) -> NoDup (dict_keys (dict_set keqb k v d)).
Proof.
  induction d as [|[k' u] r IH]; cbn; intros N.
  - constructor; [intros []|constructor].
  - inversion N as [|? ? Hn N']; subst.
    destruct (keqb_spec k k') as [->|Ne]; cbn; [now constructor|].
    constructor; [|now apply IH].
    intros H. destruct (kdict_keys_set_in _ _ _ _ H) as [->|H']; [now apply Ne | now apply Hn].
Qed.

Lemma kdict_set_same_value k v d : dict_get keqb k d = Some v -> dict_set keqb k v d = d.
Proof.
  induction d as [|[k' u] r IH]; cbn; [discriminate|].
  destruct (keqb_spec k k') as [->|N]; [now intros [= ->]|].
  intros H. now rewrite IH.
Qed.

End KeyFacts.

(** ** Stored paths *)










(** Where [LocalStorage.save_file] puts an object. *)
Lemma save_file_local base file_content name w :
  storage.save_file (storage.LocalStorage base) file_content name w =
    (inr (base ++ "/documents/" ++ uuid_str (uuid_next w) ++ Str.splitext_ext name)%string,
     mkWorld (db w)
       (dict_set String.eqb
          (base ++ "/documents/" ++ uuid_str (uuid_next w) ++ Str.splitext_ext name)%string
          file_content (files w))
       (S (uuid_next w)) (clock w)).
Proof. reflexivity. Qed.



(** X2.  Deleting from local storage answers whether the path was stored
    (absent paths give [false], never an error); afterwards the path cannot
    be fetched ("File not found"), every other path holds what it held and
    the index is untouched. *)
Theorem delete_file_forgets_the_path env base p w :
  NoDup (dict_keys (files w)) ->
  exists w',
    storage.delete_file (storage.LocalStorage base) p w =
      (inr (dict_mem String.eqb p (files w)), w') /\
    storage.get_file env (storage.LocalStorage base) p w' =
      inl (StorageError ("File not found: " ++ p)) /\
    (forall q, q <> p ->
       dict_get String.eqb q (files w') = dict_get String.eqb q (files w)) /\
    db w' = db w /\
    NoDup (dict_keys (files w')).
Proof.
  intros N. unfold storage.delete_file, storage.get_file, dict_mem.
  destruct (dict_get String.eqb p (files w)) as [c|] eqn:G.
  - eexists. split; [reflexivity|]. cbn [files db set_files].
    rewrite (kdict_get_del_same _ String.eqb_spec _ _ N).
    repeat split; auto.
    + intros q Hq. now apply (kdict_get_del_other _ String.eqb_spec).
    + now apply kdict_keys_del_nodup.
  - exists w. split; [reflexivity|]. rewrite G. repeat split; auto.
Qed.

Lemma delete_file_forgets_witness :
  let w := snd (api.create_document demo.env demo.png None "/" None demo.start) in
  NoDup (dict_keys (files w)) /\
  exists w',
    storage.delete_file (storage.LocalStorage "storage") "storage/documents/0.png" w =
      (inr true, w') /\
    storage.get_file demo.env (storage.LocalStorage "storage") "storage/documents/0.png" w' =
      inl (StorageError "File not found: storage/documents/0.png") /\
    dict_get String.eqb "storage/documents/1.png" (files w') = Some "thumb:PNGDATA".
Proof.
  intros w.
  assert (N : NoDup (dict_keys (files w))).
  { vm_compute. repeat constructor; cbn; intuition discriminate. }
  split; [exact N|].
  destruct (delete_file_forgets_the_path demo.env "storage" "storage/documents/0.png" w N)
    as (w' & E & G & O & _).
  exists w'. split; [exact E|]. split; [exact G|].
  rewrite O by discriminate. reflexivity.
Defined.

(** ** What a single-file upload leaves in storage *)

Lemma ingest_single_stored env st file mime tag_field folder engine w :
  exists doc w' p w1 t w2,
    api.ingest_single env st file mime tag_field folder engine w = (inr doc, w') /\
    storage.save_file st (api.content file) (api.up_filename file) w = (inr p, w1) /\
    (if Str.startswith "image/" mime then storage.create_thumbnail env st p else ret None) w1
      = (inr t, w2) /\
    file_path doc = p /\ thumbnail_path doc = t /\ files w' = files w2.
Proof.
  destruct (save_file_returns st (api.content file) (api.up_filename file) w)
    as (p & w1 & E1 & _).
  assert (exists t w2,
            (if Str.startswith "image/" mime then storage.create_thumbnail env st p
             else ret None) w1 = (inr t, w2)) as (t & w2 & E2).
  { destruct (Str.startswith "image/" mime).
    - destruct (create_thumbnail_returns env st p w1) as (t & w2 & E & _). eauto.
    - eexists _, _. reflexivity. }
  set (Q := fun (doc : Document) (w' : World) =>
              file_path doc = p /\ thumbnail_path doc = t /\ files w' = files w2).
  assert (R : returns (api.ingest_single env st file mime tag_field folder engine) w Q).
  { unfold api.ingest_single.
    eapply returns_bind with (Q1 := fun a w' => a = p /\ w' = w1).
    { exists p, w1. auto. }
    intros ? ? (-> & ->).
    eapply returns_bind with (Q1 := fun a w' => a = t /\ w' = w2).
    { exists t, w2. auto. }
    intros ? ? (-> & ->).
    eapply returns_bind; [apply new_Document_returns|].
    intros doc0 w3 (-> & ->).
    apply register_returns. intros ts w4 w' A T D Hs F C U.
    cbn [db files clock uuid_next doc_id retag] in D, F.
    eapply returns_weaken.
    { apply returns_observe. unfold database.get_document. rewrite D.
      apply dict_get_set_same. }
    intros r w'' (-> & ->). unfold Q.
    match goal with
    | |- context [settled env ?d ?e ?x] =>
        destruct (settled_same_record env d e x) as (_ & _ & _ & _ & _ & P & Th & _)
    end.
    rewrite P, Th. cbn [retag file_path thumbnail_path]. repeat split; auto. }
  destruct R as (doc & w' & E & P & Th & F).
  exists doc, w', p, w1, t, w2. repeat split; auto.
Qed.








Lemma storage_for_s3 s : storage_type s = "s3" -> storage.storage_for s = storage.S3Storage s.
Proof. unfold storage.storage_for. now intros ->. Qed.

Lemma storage_for_local s :
  storage_type s <> "s3" -> storage.storage_for s = storage.LocalStorage "storage".
Proof.
  unfold storage.storage_for. intros H.
  destruct (String.eqb_spec (storage_type s) "s3"); [contradiction | reflexivity].
Qed.

(** X4.  With the S3 placeholder selected, a valid single-file upload still
    returns a Document, but nothing is written to storage, no thumbnail is
    derived, the OCR run fails with "S3 storage is not fully implemented" in
    the metadata, and fetching the original bytes fails with that storage
    error (status 500). *)
Theorem s3_placeholder_stores_nothing env file tag_field folder ocr_engine w :
  storage_type (settings (db w)) = "s3" ->
  Z.of_nat (String.length (api.content file)) <= max_file_size (settings (db w)) ->
  api.upload_mime_type env file <> "application/zip" ->
  exists doc w',
    api.create_document env file tag_field folder ocr_engine w = (inr doc, w') /\
    files w' = files w /\
    thumbnail_path doc = None /\
    ocr_status doc = FAILED /\ ocr_text doc = None /\
    metadata doc = [("error", "S3 storage is not fully implemented")] /\
    api.get_document_original env (doc_id doc) w' =
      (inl (HTTPException 500 (Storage_error "S3 storage is not fully implemented")), w').
Proof.
  intros Hs3 Hsize Hmime. rewrite (create_document_single _ _ _ _ _ _ Hsize Hmime).
  rewrite (storage_for_s3 _ Hs3).
  destruct (ingest_single_stored env (storage.S3Storage (settings (db w))) file
              (api.upload_mime_type env file) tag_field folder
              (api.or_else ocr_engine (default_ocr_engine (settings (db w)))) w)
    as (doc & w' & p & w1 & t & w2 & E & E1 & E2 & _ & Th & F).
  destruct (ingest_single_returns env (storage.S3Storage (settings (db w))) file
              (api.upload_mime_type env file) tag_field folder
              (api.or_else ocr_engine (default_ocr_engine (settings (db w)))) w)
    as (doc' & w'' & E' & before & _ & Tx & _ & _ & _ & _ & _ & _ & _ & _ & Sd & G & _
        & Hs & _).
  rewrite E in E'. injection E' as <- <-.
  assert (files w1 = files w) as F1.
  { unfold storage.save_file, bind, uuid4, ret in E1. now injection E1 as _ <-. }
  assert (t = None /\ w2 = w1) as [-> ->].
  { destruct (Str.startswith "image/" (api.upload_mime_type env file)).
    - unfold storage.create_thumbnail in E2. rewrite bind_gets in E2. cbn in E2.
      now injection E2 as <- <-.
    - now injection E2 as <- <-. }
  assert (R : forall d, api.recognise_document env d
                (api.or_else ocr_engine (default_ocr_engine (settings (db w)))) w' =
              inl (StorageError "S3 storage is not fully implemented")).
  { intros d. unfold api.recognise_document. rewrite Hs, (storage_for_s3 _ Hs3). reflexivity. }
  exists doc, w'. split; [exact E|]. split; [congruence|]. split; [exact Th|].
  assert (ocr_status doc = FAILED /\ ocr_text doc = None /\
          metadata doc = [("error", "S3 storage is not fully implemented")]) as (A & B & C).
  { rewrite Sd. unfold settled. rewrite R. cbn. auto. }
  split; [exact A|]. split; [exact B|]. split; [exact C|].
  unfold api.get_document_original, storage.get_storage.
  rewrite bind_gets, G, !bind_gets, Hs, (storage_for_s3 _ Hs3). reflexivity.
Qed.

Lemma s3_placeholder_witness :
  let w := set_db (database.update_settings
                     (mkSystemSettings "s3" 100 500 "tesseract") (db demo.start)) demo.start in
  exists doc w',
    api.create_document demo.env demo.png None "/" None w = (inr doc, w') /\
    files w' = [] /\ thumbnail_path doc = None /\ ocr_status doc = FAILED.
Proof.
  intros w.
  destruct (s3_placeholder_stores_nothing demo.env demo.png None "/" None w eq_refl
              ltac:(vm_compute; discriminate) ltac:(vm_compute; discriminate))
    as (doc & w' & E & F & T & St & _).
  exists doc, w'. repeat split; auto.
Defined.



Lemma startswith_truthy p m : Str.startswith (String p "") m = true -> Str.truthy m = true.
Proof. destruct m; [discriminate | reflexivity]. Qed.

Lemma image_type_truthy m : Str.startswith "image/" m = true -> Str.truthy m = true.
Proof. destruct m; [discriminate | reflexivity]. Qed.

(** What [create_thumbnail] does in local storage for a stored image that
    PIL can read. *)
Lemma create_thumbnail_local env p w fc m thumb :
  dict_get String.eqb p (files w) = Some fc ->
  guess_type env p = Some m -> Str.startswith "image/" m = true ->
  pil_thumbnail env fc = Some thumb ->
  storage.create_thumbnail env (storage.LocalStorage "storage") p w =
    (inr (Some ("storage" ++ "/documents/" ++ uuid_str (uuid_next w)
                  ++ Str.splitext_ext ("thumb_" ++ Str.basename p))%string),
     mkWorld (db w)
       (dict_set String.eqb
          ("storage" ++ "/documents/" ++ uuid_str (uuid_next w)
             ++ Str.splitext_ext ("thumb_" ++ Str.basename p))%string thumb (files w))
       (S (uuid_next w)) (clock w)).
Proof.
  intros G Gm Im P. unfold storage.create_thumbnail. rewrite bind_gets.
  unfold storage.get_file. rewrite G, Gm, (image_type_truthy _ Im), Im. cbn [negb].
  rewrite P. unfold bind. rewrite save_file_local. reflexivity.
Qed.

(** X6.  With local storage, an upload declared as an image, whose stored
    path is guessed to be an image and which PIL can read, gets a thumbnail:
    fetching the thumbnail of the Document returned gives the bytes PIL
    produced. *)
Theorem image_upload_thumbnail_round_trip env file tag_field folder ocr_engine w m thumb :
  Z.of_nat (String.length (api.content file)) <= max_file_size (settings (db w)) ->
  api.upload_mime_type env file <> "application/zip" ->
  storage_type (settings (db w)) <> "s3" ->
  Str.startswith "image/" (api.upload_mime_type env file) = true ->
  guess_type env ("storage" ++ "/documents/" ++ uuid_str (uuid_next w)
                    ++ Str.splitext_ext (api.up_filename file))%string = Some m ->
  Str.startswith "image/" m = true ->
  pil_thumbnail env (api.content file) = Some thumb ->
  exists doc w' mime,
    api.create_document env file tag_field folder ocr_engine w = (inr doc, w') /\
    api.get_document_thumbnail env (doc_id doc) w' = (inr (thumb, mime), w').
Proof.
  intros Hsize Hmime Hlocal Himg Hguess Hm Hpil.
  rewrite (create_document_single _ _ _ _ _ _ Hsize Hmime).
  rewrite (storage_for_local _ Hlocal).
  destruct (ingest_single_stored env (storage.LocalStorage "storage") file
              (api.upload_mime_type env file) tag_field folder
              (api.or_else ocr_engine (default_ocr_engine (settings (db w)))) w)
    as (doc & w' & p & w1 & t & w2 & E & E1 & E2 & _ & Th & F).
  destruct (ingest_single_returns env (storage.LocalStorage "storage") file
              (api.upload_mime_type env file) tag_field folder
              (api.or_else ocr_engine (default_ocr_engine (settings (db w)))) w)
    as (doc' & w'' & E' & before & _ & _ & _ & _ & _ & _ & _ & _ & _ & _ & _ & G & _
        & Hs & _).
  rewrite E in E'. injection E' as <- <-.
  assert (p = ("storage" ++ "/documents/" ++ uuid_str (uuid_next w)
                 ++ Str.splitext_ext (api.up_filename file))%string /\
          w1 = mkWorld (db w)
                 (dict_set String.eqb
                    ("storage" ++ "/documents/" ++ uuid_str (uuid_next w)
                       ++ Str.splitext_ext (api.up_filename file))%string
                    (api.content file) (files w))
                 (S (uuid_next w)) (clock w)) as [-> ->]
    by (rewrite save_file_local in E1; split; congruence).
  rewrite Himg in E2.
  rewrite (create_thumbnail_local env _ _ (api.content file) m thumb) in E2; auto.
  2:{ cbn [files]. apply (kdict_get_set_same _ String.eqb_spec). }
  set (q := ("storage" ++ "/documents/" ++ uuid_str (uuid_next _) ++ Str.splitext_ext _)%string)
    in E2 at 1.
  assert (t = Some q /\ files w2 = dict_set String.eqb q thumb
            (dict_set String.eqb
               ("storage" ++ "/documents/" ++ uuid_str (uuid_next w)
                  ++ Str.splitext_ext (api.up_filename file))%string
               (api.content file) (files w))) as [-> F2].
  { split; [congruence|]. injection E2 as _ <-. reflexivity. }
  eexists doc, w', _. split; [exact E|].
  unfold api.get_document_thumbnail, storage.get_storage.
  rewrite bind_gets, G, Th.
  assert (Str.truthy q = true) as -> by reflexivity.
  rewrite !bind_gets, Hs, (storage_for_local _ Hlocal). unfold storage.get_file.
  rewrite F, F2, (kdict_get_set_same _ String.eqb_spec). reflexivity.
Qed.

Lemma image_upload_thumbnail_witness :
  exists doc w' mime,
    api.create_document demo.env demo.png None "/" None demo.start = (inr doc, w') /\
    api.get_document_thumbnail demo.env (doc_id doc) w' = (inr ("thumb:PNGDATA", mime), w').
Proof.
  exact (image_upload_thumbnail_round_trip demo.env demo.png None "/" None demo.start
           "image/png" "thumb:PNGDATA"
           ltac:(vm_compute; discriminate) ltac:(vm_compute; discriminate)
           ltac:(vm_compute; discriminate) eq_refl eq_refl eq_refl eq_refl).
Defined.

(** ** OCR engines *)

Lemma process_pages_inr env p images : forall texts,
  ocr.process_pages env p images = inr texts <->
  Forall2 (fun img t => ocr.process_image env p img = inr t) images texts.
Proof.
  induction images as [|img rest IH]; intros texts; cbn [ocr.process_pages].
  - split; [intros [= <-]; constructor | intros H; inversion H; reflexivity].
  - destruct (ocr.process_image env p img) as [e|t] eqn:E.
    + split; [discriminate|]. intros H. inversion H; subst. congruence.
    + destruct (ocr.process_pages env p rest) as [e|ts] eqn:R.
      * split; [discriminate|]. intros H. inversion H as [|? t' ? ts' Ht Hr]; subst.
        apply IH in Hr. discriminate Hr.
      * split.
        -- intros [= <-]. constructor; [exact E | now apply IH].
        -- intros H. inversion H as [|? t' ? ts' Ht Hr]; subst.
           apply IH in Hr. congruence.
Qed.

Lemma process_pages_inl env p images : forall e,
  ocr.process_pages env p images = inl e ->
  exists done img rest,
    images = (done ++ img :: rest)%list /\
    Forall (fun b => exists t, ocr.process_image env p b = inr t) done /\
    ocr.process_image env p img = inl e.
Proof.
  induction images as [|img rest IH]; intros e; cbn [ocr.process_pages]; [discriminate|].
  destruct (ocr.process_image env p img) as [e'|t] eqn:E.
  - intros [= <-]. exists [], img, rest. repeat split; auto.
  - destruct (ocr.process_pages env p rest) as [e'|ts] eqn:R; [|discriminate].
    intros [= <-]. destruct (IH e' eq_refl) as (done & img' & rest' & -> & F & H).
    exists (img :: done), img', rest'. repeat split; auto. constructor; eauto.
Qed.

(** X7.  OCR of a PDF that rasterises to pages: it succeeds exactly when
    every page image is recognised, with one text per page in page order; when
    it fails, the error is that of the first page that fails, and no later
    page matters. *)
Theorem pdf_pages_one_text_each env p pdf images :
  convert_from_bytes env pdf = Pages images ->
  (forall texts,
     ocr.process_pdf env p pdf = inr texts <->
     Forall2 (fun img t => ocr.process_image env p img = inr t) images texts) /\
  (forall texts, ocr.process_pdf env p pdf = inr texts ->
     List.length texts = List.length images) /\
  (forall e, ocr.process_pdf env p pdf = inl e ->
     exists done img rest,
       images = (done ++ img :: rest)%list /\
       Forall (fun b => exists t, ocr.process_image env p b = inr t) done /\
       ocr.process_image env p img = inl e).
Proof.
  intros C. unfold ocr.process_pdf. rewrite C. split; [|split].
  - apply process_pages_inr.
  - intros texts H. apply process_pages_inr in H. symmetry. exact (Forall2_length H).
  - apply process_pages_inl.
Qed.

Lemma pdf_pages_witness :
  let e := mkEnv demo.lower demo.guess (fun _ => None) (fun _ => None) "5.3.0" false false
             (fun _ image => if (image =? "blank")%string then inl "no text" else inr image)
             (fun _ => Pages ["one"; "blank"; "three"]) in
  convert_from_bytes e "%PDF" = Pages ["one"; "blank"; "three"] /\
  ocr.process_pdf e ocr.TesseractOCR "%PDF" = inl (OCRError "Tesseract OCR error: no text") /\
  exists done img rest,
    ["one"; "blank"; "three"] = (done ++ img :: rest)%list /\
    Forall (fun b => exists t, ocr.process_image e ocr.TesseractOCR b = inr t) done /\
    ocr.process_image e ocr.TesseractOCR img = inl (OCRError "Tesseract OCR error: no text").
Proof.
  intros e. split; [reflexivity|]. split; [reflexivity|].
  apply (proj2 (proj2 (pdf_pages_one_text_each e ocr.TesseractOCR "%PDF"
                         ["one"; "blank"; "three"] eq_refl))).
  reflexivity.
Defined.

Lemma get_ocr_processor_name env engine p :
  ocr.get_ocr_processor env engine = inr p -> ocr.name p = engine.
Proof.
  unfold ocr.get_ocr_processor.
  destruct (String.eqb_spec engine "tesseract") as [->|_]; [now intros [= <-]|].
  destruct (String.eqb_spec engine "easyocr") as [->|_].
  { destruct (EASYOCR_AVAILABLE env); [now intros [= <-] | discriminate]. }
  destruct (String.eqb_spec engine "paddleocr") as [->|_]; [|discriminate].
  destruct (PADDLEOCR_AVAILABLE env); [now intros [= <-] | discriminate].
Qed.

(** X8.  The engine list and the engine factory agree: an engine is listed
    as available exactly when the factory builds a processor for its id, and
    that processor carries the listed id and version; the factory builds
    nothing for an id that is not listed ("Unknown OCR engine: <id>"). *)
Theorem engine_list_agrees_with_factory env :
  (forall info, In info (ocr.get_available_ocr_engines env) ->
     (ocr.available info = true <->
      exists p, ocr.get_ocr_processor env (ocr.engine_id info) = inr p) /\
     (forall p, ocr.get_ocr_processor env (ocr.engine_id info) = inr p ->
        ocr.name p = ocr.engine_id info /\
        ocr.version env p = ocr.engine_version info)) /\
  (forall engine,
     ~ In engine (map ocr.engine_id (ocr.get_available_ocr_engines env)) ->
     ocr.get_ocr_processor env engine = inl (OCRError ("Unknown OCR engine: " ++ engine))).
Proof.
  split.
  - intros info [<-|[<-|[<-|[]]]]; cbn [ocr.available ocr.engine_id ocr.engine_version];
      unfold ocr.get_ocr_processor; cbn [String.eqb Ascii.eqb Bool.eqb andb].
    + split; [split; eauto|]. intros p [= <-]. auto.
    + destruct (EASYOCR_AVAILABLE env); split;
        try (split; [eauto | intros _; reflexivity]);
        try (split; [discriminate | intros [p H]; discriminate H]);
        intros p H; try discriminate H; injection H as <-; auto.
    + destruct (PADDLEOCR_AVAILABLE env); split;
        try (split; [eauto | intros _; reflexivity]);
        try (split; [discriminate | intros [p H]; discriminate H]);
        intros p H; try discriminate H; injection H as <-; auto.
  - intros engine N. cbn in N. unfold ocr.get_ocr_processor.
    destruct (String.eqb_spec engine "tesseract") as [->|_]; [tauto|].
    destruct (String.eqb_spec engine "easyocr") as [->|_]; [tauto|].
    destruct (String.eqb_spec engine "paddleocr") as [->|_]; [tauto | reflexivity].
Qed.

Lemma recognise_document_engine env doc engine w text p :
  api.recognise_document env doc engine w = inr (text, p) ->
  ocr.get_ocr_processor env engine = inr p.
Proof.
  unfold api.recognise_document.
  destruct (storage.get_file _ _ _ _) as [e|[fc mime]]; [discriminate|].
  destruct (ocr.get_ocr_processor env engine) as [e|p']; [discriminate|].
  destruct (mime =? "application/pdf")%string.
  - destruct (ocr.process_pdf env p' fc); [discriminate|]. now intros [= _ <-].
  - destruct (ocr.process_image env p' fc); [discriminate|]. now intros [= _ <-].
Qed.

(** X9.  An OCR run on a document of the index changes that document only:
    storage, tags, settings and every other document stay as they were, and
    so do the document's own file name, type, size, folder, paths, date and
    tags.  The run ends COMPLETED, with a text, the requested engine's name
    and version recorded and the metadata left as it was (an error recorded
    by an earlier run stays); or FAILED, with the error message as the whole
    metadata and text, engine and version left as they were. *)
Theorem ocr_run_outcome env document_id engine w doc :
  database.get_document document_id (db w) = Some doc ->
  exists doc' w',
    api.process_document_ocr env document_id engine w = (inr tt, w') /\
    database.get_document document_id (db w') = Some doc' /\
    files w' = files w /\ db_tags (db w') = db_tags (db w) /\
    settings (db w') = settings (db w) /\
    (forall k, k <> document_id ->
       database.get_document k (db w') = database.get_document k (db w)) /\
    dict_keys (documents (db w')) = dict_keys (documents (db w)) /\
    same_record doc' doc /\
    ((ocr_status doc' = COMPLETED /\ ocr_engine doc' = Some engine /\
      (exists p text,
         ocr.get_ocr_processor env engine = inr p /\
         ocr_engine_version doc' = Some (ocr.version env p) /\
         ocr_text doc' = Some text) /\
      metadata doc' = metadata doc)
     \/
     (ocr_status doc' = FAILED /\ ocr_text doc' = ocr_text doc /\
      ocr_engine doc' = ocr_engine doc /\
      ocr_engine_version doc' = ocr_engine_version doc /\
      exists msg, metadata doc' = [("error", msg)])).
Proof.
  intros G. exists (settled env doc engine w). eexists.
  split; [apply (process_document_ocr_found _ _ _ _ _ G)|].
  cbn [db set_db database.set_documents documents files db_tags settings].
  unfold database.get_document in *.
  split; [apply dict_get_set_same|]. split; [reflexivity|]. split; [reflexivity|].
  split; [reflexivity|].
  split; [intros k Hk; now apply (kdict_get_set_other _ Nat.eqb_spec)|].
  split; [exact (dict_keys_set_present _ _ _ _ G)|].
  split; [apply settled_same_record|].
  unfold settled. destruct (api.recognise_document env doc engine w) as [e|[text p]] eqn:R.
  - right. cbn. repeat split; eauto.
  - left. pose proof (recognise_document_engine _ _ _ _ _ _ R) as F.
    cbn. rewrite (get_ocr_processor_name _ _ _ F). repeat split; eauto.
Qed.

Lemma ocr_run_outcome_witness :
  let w := serve_all demo.env
             [Ingest demo.png None "/" (Some "abbyy"); OcrRun 2%nat "tesseract"] demo.start in
  exists doc,
    database.get_document 2%nat (db w) = Some doc /\
    ocr_status doc = COMPLETED /\ ocr_engine doc = Some "tesseract" /\
    metadata doc = [("error", "Unknown OCR engine: abbyy")].
Proof.
  cbn zeta.
  destruct (ocr_run_outcome demo.env 2%nat "tesseract"
              (serve demo.env (Ingest demo.png None "/" (Some "abbyy")) demo.start)
              (mkDocument "page.png" "image/png" 7 "/" 2%nat "storage/documents/0.png"
                 (Some "storage/documents/1.png") 1700000000 FAILED None None None []
                 [("error", "Unknown OCR engine: abbyy")])
              ltac:(vm_compute; reflexivity))
    as (doc' & w' & E & G & _ & _ & _ & _ & _ & _ & [(C & En & _ & M)|(F & _)]).
  - exists doc'. change (serve_all demo.env _ demo.start) with
      (snd (api.process_document_ocr demo.env 2%nat "tesseract"
              (serve demo.env (Ingest demo.png None "/" (Some "abbyy")) demo.start))).
    rewrite E. cbn [snd]. repeat split; auto.
  - exfalso. vm_compute in E. injection E as <-. vm_compute in G. injection G as <-.
    discriminate F.
Defined.

(** ** Tags *)

Lemma dict_get_map_values {V W} (f : V -> W) k (d : list (UUID * V)) :
  dict_get Nat.eqb k (map (fun kv => (fst kv, f (snd kv))) d) =
  option_map f (dict_get Nat.eqb k d).
Proof.
  induction d as [|[k' v] r IH]; cbn; [reflexivity|].
  destruct (Nat.eqb k k'); [reflexivity | exact IH].
Qed.

Lemma without_tag_spec tid ts t : In t (database.without_tag tid ts) -> tag_id t <> tid.
Proof.
  unfold database.without_tag. intros H. apply filter_In in H. destruct H as [_ H].
  intros E. rewrite E, Nat.eqb_refl in H. discriminate H.
Qed.

(** X10.  Deleting a tag of the index cascades: the tag can no longer be
    looked up, every other tag is as before, every document is still there
    under its id with exactly its other tags (in order), no document holds a
    tag of that id any more, and deleting it a second time fails with status
    404 and changes nothing. *)
Theorem delete_tag_cascades tid d tag :
  NoDup (dict_keys (db_tags d)) ->
  database.get_tag tid d = Some tag ->
  exists d',
    api.delete_tag tid d = (inr true, d') /\
    database.get_tag tid d' = None /\
    (forall k, k <> tid -> database.get_tag k d' = database.get_tag k d) /\
    (forall k, database.get_document k d' =
               option_map (fun doc => database.assign_tags doc
                                        (database.without_tag tid (tags doc)))
                          (database.get_document k d)) /\
    (forall doc', In doc' (dict_values (documents d')) ->
       forall t, In t (tags doc') -> tag_id t <> tid) /\
    api.delete_tag tid d' = (inl (api.mkHTTPError 404 "Tag not found"), d').
Proof.
  intros N G. unfold database.get_tag in G.
  unfold api.delete_tag, database.delete_tag, dict_mem. rewrite G. cbn [fst snd].
  eexists. split; [reflexivity|].
  unfold database.get_tag, database.get_document. cbn [db_tags documents fst snd].
  rewrite (kdict_get_del_same _ Nat.eqb_spec _ _ N).
  split; [reflexivity|].
  split; [intros k Hk; now apply (kdict_get_del_other _ Nat.eqb_spec)|].
  split.
  { intros k.
    exact (dict_get_map_values
             (fun doc => database.assign_tags doc (database.without_tag tid (tags doc)))
             k (documents d)). }
  split; [|reflexivity].
  intros doc' H t Ht. unfold dict_values in H. rewrite map_map in H.
  apply in_map_iff in H. destruct H as ([k doc] & <- & _). cbn in Ht.
  exact (without_tag_spec _ _ _ Ht).
Qed.

Lemma delete_tag_cascades_witness :
  exists d',
    api.delete_tag 12%nat demo.invoices = (inr true, d') /\
    database.get_tag 12%nat d' = None /\
    option_map tags (database.get_document 11%nat d') = Some [] /\
    option_map tags (database.get_document 21%nat d') = Some [mkTag 22%nat "Invoice" "#808080"].
Proof.
  destruct (delete_tag_cascades 12%nat demo.invoices (mkTag 12%nat "invoice" "#808080"))
    as (d' & E & G & _ & D & _).
  - vm_compute. repeat constructor; cbn; intuition discriminate.
  - reflexivity.
  - exists d'. split; [exact E|]. split; [exact G|]. rewrite !D. split; reflexivity.
Defined.

Lemma set_documents_same d : database.set_documents (documents d) d = d.
Proof. now destruct d. Qed.

Lemma assign_tags_same doc : database.assign_tags doc (tags doc) = doc.
Proof. now destruct doc. Qed.

Lemma without_tag_fresh tid ts :
  (forall t, In t ts -> tag_id t <> tid) -> database.without_tag tid ts = ts.
Proof.
  unfold database.without_tag.
  induction ts as [|t ts IH]; cbn [filter]; intros H; [reflexivity|].
  destruct (Nat.eqb_spec (tag_id t) tid) as [E|_]; cbn [negb].
  - contradiction (H t (or_introl eq_refl)).
  - rewrite IH; [reflexivity|]. intros x Hx. apply H. now right.
Qed.

(** X11.  Tagging a document with a tag of the index that it does not hold
    appends that tag; tagging again changes nothing; and removing the tag
    afterwards gives back the index exactly as it was before the tagging. *)
Theorem tag_then_untag_restores document_id tid d doc tag :
  database.get_document document_id d = Some doc ->
  database.get_tag tid d = Some tag ->
  tag_id tag = tid ->
  (forall t, In t (tags doc) -> tag_id t <> tid) ->
  exists doc1 d1,
    api.add_tag_to_document document_id tid d = (inr doc1, d1) /\
    tags doc1 = (tags doc ++ [tag])%list /\
    database.get_document document_id d1 = Some doc1 /\
    api.add_tag_to_document document_id tid d1 = (inr doc1, d1) /\
    api.remove_tag_from_document document_id tid d1 = (inr doc, d).
Proof.
  intros G T I F. unfold database.get_document, database.get_tag in *.
  assert (X : existsb (fun t => Nat.eqb (tag_id t) (tag_id tag)) (tags doc) = false).
  { destruct (existsb _ (tags doc)) eqn:E; [|reflexivity].
    apply existsb_exists in E. destruct E as (t & Ht & E). apply Nat.eqb_eq in E.
    contradiction (F t Ht). congruence. }
  set (doc1 := database.assign_tags doc (tags doc ++ [tag])%list).
  exists doc1, (database.set_documents (dict_set Nat.eqb document_id doc1 (documents d)) d).
  split.
  { unfold api.add_tag_to_document, database.add_tag_to_document. rewrite G, T, X.
    reflexivity. }
  split; [reflexivity|].
  unfold database.get_document. cbn [documents database.set_documents].
  split; [apply dict_get_set_same|].
  split.
  { unfold api.add_tag_to_document, database.add_tag_to_document.
    cbn [documents db_tags database.set_documents]. rewrite dict_get_set_same, T.
    assert (existsb (fun t => Nat.eqb (tag_id t) (tag_id tag)) (tags doc1) = true) as ->.
    { apply existsb_exists. exists tag. split; [|apply Nat.eqb_refl].
      cbn. apply in_or_app. right. now left. }
    reflexivity. }
  unfold api.remove_tag_from_document, database.remove_tag_from_document.
  cbn [documents db_tags database.set_documents settings]. rewrite dict_get_set_same.
  assert (R : database.assign_tags doc1 (database.without_tag tid (tags doc1)) = doc).
  { change (tags doc1) with (tags doc ++ [tag])%list.
    change (database.assign_tags doc1 ?x) with (database.assign_tags doc x).
    unfold database.without_tag. rewrite filter_app. cbn [filter].
    rewrite I, Nat.eqb_refl. cbn [negb]. rewrite app_nil_r.
    fold (database.without_tag tid (tags doc)). rewrite (without_tag_fresh _ _ F).
    apply assign_tags_same. }
  rewrite R, dict_set_set, (kdict_set_same_value _ Nat.eqb_spec _ _ _ G).
  unfold database.set_documents. cbn [documents db_tags settings]. now destruct d.
Qed.

Lemma tag_then_untag_witness :
  exists doc1 d1,
    api.add_tag_to_document 11%nat 22%nat demo.invoices = (inr doc1, d1) /\
    tags doc1 = [mkTag 12%nat "invoice" "#808080"; mkTag 22%nat "Invoice" "#808080"] /\
    api.remove_tag_from_document 11%nat 22%nat d1 = (inr demo.invoice_pdf, demo.invoices).
Proof.
  destruct (tag_then_untag_restores 11%nat 22%nat demo.invoices demo.invoice_pdf
              (mkTag 22%nat "Invoice" "#808080") eq_refl eq_refl eq_refl)
    as (doc1 & d1 & E & T & _ & _ & R).
  - intros t [<-|[]]. discriminate.
  - exists doc1, d1. repeat split; auto.
Defined.

(** ** Properties every call keeps *)


Section KeepsTags.
(** A property of the tags of the index that survives a new tag whose name
    the lookup does not find. *)
Context (env : Env).
Context (P : list (UUID * Tag) -> Prop).
Context (P_new : forall ts u t,
  find (fun x => (str_lower env (tag_name x) =? str_lower env (tag_name t))%string)
       (dict_values ts) = None ->
  P ts -> P (dict_set Nat.eqb u t ts)).

Let I (w : World) : Prop := P (db_tags (db w)).

Lemma keeps_same_tags {A} (m : M A) :
  (forall w, db_tags (db (snd (m w))) = db_tags (db w)) -> keeps I m.
Proof. intros H w Hw. unfold I. now rewrite H. Qed.

Lemma save_file_keeps st c n : keeps I (storage.save_file st c n).
Proof. apply keeps_same_tags. intros w. now destruct st. Qed.

Lemma create_thumbnail_keeps_tags st p : keeps I (storage.create_thumbnail env st p).
Proof.
  apply keeps_same_tags. intros w.
  destruct (create_thumbnail_returns env st p w) as (t & w' & E & D & _).
  now rewrite E, <- D.
Qed.

Lemma process_document_ocr_keeps document_id engine :
  keeps I (api.process_document_ocr env document_id engine).
Proof.
  apply keeps_same_tags. intros w.
  destruct (database.get_document document_id (db w)) as [doc|] eqn:G.
  - now rewrite (process_document_ocr_found _ _ _ _ _ G).
  - now rewrite (process_document_ocr_missing _ _ _ _ G).
Qed.

Lemma resolve_tag_names_keeps names : forall doc, keeps I (api.resolve_tag_names env names doc).
Proof.
  induction names as [|n rest IH]; intros doc; cbn [api.resolve_tag_names].
  - apply keeps_ret.
  - destruct (negb (Str.truthy n)); [apply IH|].
    intros w Hw. rewrite bind_gets.
    destruct (database.get_tag_by_name env n (db w)) as [tag|] eqn:G.
    + exact (IH _ w Hw).
    + destruct (new_tag_returns n w) as (tag & w1 & E & -> & _ & _ & T & _).
      rewrite (bind_inr _ _ _ _ _ E). apply IH. unfold I. rewrite T.
      apply P_new; [exact G | exact Hw].
Qed.

Lemma attach_tags_keeps tag_field doc : keeps I (api.attach_tags env tag_field doc).
Proof.
  unfold api.attach_tags. destruct tag_field as [t|]; [|apply keeps_ret].
  destruct (Str.truthy t); [apply resolve_tag_names_keeps | apply keeps_ret].
Qed.

Lemma register_keeps tag_field engine doc0 {B} (k : Document -> M B) :
  (forall d, keeps I (k d)) ->
  keeps I (bind (api.attach_tags env tag_field doc0)
             (fun doc => bind (api.store_document doc)
                (fun _ => bind (api.process_document_ocr env (doc_id doc) engine)
                   (fun _ => k doc)))).
Proof.
  intros K. apply keeps_bind; [apply attach_tags_keeps|]. intros doc.
  apply keeps_bind; [apply keeps_same_tags; reflexivity|]. intros _.
  apply keeps_bind; [apply process_document_ocr_keeps|]. intros _. apply K.
Qed.

Lemma ingest_single_keeps st file mime tag_field folder engine :
  keeps I (api.ingest_single env st file mime tag_field folder engine).
Proof.
  unfold api.ingest_single.
  apply keeps_bind; [apply save_file_keeps|]. intros p.
  apply keeps_bind.
  { destruct (Str.startswith "image/" mime);
      [apply create_thumbnail_keeps_tags | apply keeps_ret]. }
  intros thumb.
  apply keeps_bind; [apply keeps_same_tags; reflexivity|]. intros doc.
  apply register_keeps. intros d. apply keeps_gets.
Qed.

Lemma ingest_member_keeps st zip_info tag_field folder engine :
  keeps I (api.ingest_member env st zip_info tag_field folder engine).
Proof.
  unfold api.ingest_member.
  apply keeps_bind; [apply read_member_keeps|]. intros file_data.
  apply keeps_bind; [apply save_file_keeps|]. intros p.
  apply keeps_bind; [apply keeps_same_tags; reflexivity|]. intros doc.
  apply register_keeps. intros d. apply keeps_ret.
Qed.

Lemma expand_zip_keeps st s infolist tag_field folder engine :
  forall docs, keeps I (api.expand_zip env st s infolist tag_field folder engine docs).
Proof.
  induction infolist as [|zip_info rest IH]; intros docs; cbn [api.expand_zip].
  - apply keeps_ret.
  - destruct (api.is_dir zip_info) as [e|[|]]; [apply keeps_raise | apply IH |].
    destruct (zi_file_size zip_info >? max_file_size s); [apply IH|].
    destruct (negb (api.accepted_type (guess_type env (zi_filename zip_info)))); [apply IH|].
    apply keeps_bind; [apply ingest_member_keeps|]. intros doc. apply IH.
Qed.

Lemma create_document_keeps file tag_field folder ocr_engine :
  keeps I (api.create_document env file tag_field folder ocr_engine).
Proof.
  unfold api.create_document.
  apply keeps_bind; [apply keeps_gets|]. intros s.
  destruct (_ >? max_file_size s); [apply keeps_raise|].
  apply keeps_bind; [apply keeps_gets|]. intros st.
  destruct (_ =? "application/zip")%string; [|apply ingest_single_keeps].
  destruct (_ >? max_zip_size s); [apply keeps_raise|].
  destruct (zip_infolist env (api.content file)) as [infolist|]; [|apply keeps_raise].
  apply keeps_bind; [apply expand_zip_keeps|].
  intros [|first rest]; [apply keeps_raise | apply keeps_gets].
Qed.

Lemma reocr_document_keeps document_id ocr_engine :
  keeps I (api.reocr_document env document_id ocr_engine).
Proof.
  unfold api.reocr_document.
  apply keeps_bind; [apply keeps_gets|]. intros [doc|]; [|apply keeps_raise].
  apply keeps_bind; [apply keeps_gets|]. intros s.
  apply keeps_bind; [apply process_document_ocr_keeps|]. intros _. apply keeps_ret.
Qed.

Lemma delete_file_keeps st p : keeps I (storage.delete_file st p).
Proof.
  apply keeps_same_tags. intros w. unfold storage.delete_file.
  destruct st; [|reflexivity]. now destruct (dict_mem String.eqb p (files w)).
Qed.

Lemma delete_document_keeps document_id : keeps I (api.delete_document document_id).
Proof.
  unfold api.delete_document.
  apply keeps_bind; [apply keeps_gets|]. intros [doc|]; [|apply keeps_raise].
  apply keeps_bind; [apply keeps_gets|]. intros st.
  apply keeps_bind; [apply delete_file_keeps|]. intros _.
  apply keeps_bind.
  { destruct (thumbnail_path doc) as [t|]; [|apply keeps_ret].
    destruct (Str.truthy t); [apply delete_file_keeps | apply keeps_ret]. }
  intros _. apply keeps_same_tags. intros w. cbn [snd db set_db].
  unfold database.delete_document. now destruct (dict_mem Nat.eqb document_id (documents (db w))).
Qed.

End KeepsTags.

Lemma unique_after_set {env} ts u t :
  find (fun x => (str_lower env (tag_name x) =? str_lower env (tag_name t))%string)
       (dict_values ts) = None ->
  NoDup (map (lname env) (dict_values ts)) ->
  NoDup (map (lname env) (dict_values (dict_set Nat.eqb u t ts))).
Proof.
  intros F N.
  assert (Fresh : ~ In (lname env t) (map (lname env) (dict_values ts))).
  { intros H. apply in_map_iff in H. destruct H as (x & E & Hx).
    pose proof (find_none _ _ F x Hx) as C. cbn in C. unfold lname in E.
    rewrite E, String.eqb_refl in C. discriminate C. }
  clear F. induction ts as [|[k x] r IH]; cbn in *.
  - constructor; [intros []|constructor].
  - inversion N as [|? ? Hn N']; subst.
    destruct (Nat.eqb u k); cbn.
    + constructor; [tauto | exact N'].
    + constructor; [|apply IH; tauto].
      intros H. apply in_map_iff in H. destruct H as (y & E & Hy).
      destruct (dict_set_values_in _ _ _ _ Hy) as [->|Hy'].
      * apply Fresh. left. now rewrite E.
      * apply Hn. rewrite <- E. now apply in_map.
Qed.

Lemma dict_del_values_incl {V} k (d : list (UUID * V)) y :
  In y (dict_values (dict_del Nat.eqb k d)) -> In y (dict_values d).
Proof.
  induction d as [|[k' x] r IH]; cbn; [auto|].
  destruct (Nat.eqb k k'); cbn; [auto|]. intros [H|H]; auto.
Qed.

Lemma unique_after_del {env} ts k :
  NoDup (map (lname env) (dict_values ts)) ->
  NoDup (map (lname env) (dict_values (dict_del Nat.eqb k ts))).
Proof.
  induction ts as [|[k' x] r IH]; cbn; intros N; [constructor|].
  inversion N as [|? ? Hn N']; subst.
  destruct (Nat.eqb k k'); cbn; [exact N'|].
  constructor; [|now apply IH].
  intros H. apply Hn. apply in_map_iff in H. destruct H as (y & E & Hy).
  rewrite <- E. apply in_map. exact (dict_del_values_incl _ _ _ Hy).
Qed.

Lemma perform_keeps_unique env c w :
  unique_tag_names env (db w) -> unique_tag_names env (db (perform env c w)).
Proof.
  unfold unique_tag_names. intros H.
  destruct c as [file tag_field folder engine|tag|tid|document_id tid|document_id tid
                 |document_id|document_id engine]; cbn [perform].
  - exact (create_document_keeps env _ (unique_after_set (env := env)) file tag_field folder
             engine w H).
  - unfold on_db, api.create_tag. cbn [db set_db].
    destruct (database.get_tag_by_name env (tag_name tag) (db w)) eqn:G; cbn [snd]; [exact H|].
    cbn [database.create_tag database.set_tags db_tags]. now apply unique_after_set.
  - unfold on_db, api.delete_tag, database.delete_tag. cbn [db set_db].
    destruct (dict_mem Nat.eqb tid (db_tags (db w))); cbn [fst snd db_tags]; [|exact H].
    now apply unique_after_del.
  - unfold on_db, api.add_tag_to_document, database.add_tag_to_document. cbn [db set_db].
    destruct (dict_get Nat.eqb document_id (documents (db w))) as [doc|]; [|exact H].
    destruct (dict_get Nat.eqb tid (db_tags (db w))) as [tag|]; [|exact H].
    destruct (existsb _ (tags doc)); exact H.
  - unfold on_db, api.remove_tag_from_document, database.remove_tag_from_document.
    cbn [db set_db].
    destruct (dict_get Nat.eqb document_id (documents (db w))) as [doc|]; exact H.
  - exact (delete_document_keeps (fun ts => NoDup (map (lname env) (dict_values ts))) document_id w H).
  - exact (reocr_document_keeps env (fun ts => NoDup (map (lname env) (dict_values ts)))
             document_id engine w H).
Qed.

(** X12.  Tag names stay unique up to letter case: whatever uploads, tag
    creations, tag deletions, taggings, untaggings, document deletions and
    OCR runs are served, an index whose tags have pairwise different names
    (letter case apart) never comes to hold two tags whose names differ only
    in letter case. *)
Theorem tag_names_stay_unique env cs w :
  unique_tag_names env (db w) -> unique_tag_names env (db (perform_all env cs w)).
Proof.
  unfold perform_all. revert w.
  induction cs as [|c cs IH]; intros w H; cbn [fold_left]; [exact H|].
  apply IH. now apply perform_keeps_unique.
Qed.

Lemma tag_names_stay_unique_witness :
  let cs := [Upload demo.png (Some "Report, x") "/" None;
             NewTag (mkTag 90%nat "REPORT" "#ff0000");
             NewTag (mkTag 91%nat "Letters" "#00ff00")] in
  map tag_name (database.list_tags (db (perform_all demo.env cs demo.start)))
    = ["Report"; "x"; "Letters"] /\
  unique_tag_names demo.env (db (perform_all demo.env cs demo.start)).
Proof.
  intros cs. split; [vm_compute; reflexivity|].
  apply (tag_names_stay_unique demo.env cs demo.start). constructor.
Defined.

(** ** Deleting a document *)

Lemma set_files_same w : set_files (files w) w = w.
Proof. now destruct w. Qed.

Lemma delete_file_local base p w :
  exists b,
    storage.delete_file (storage.LocalStorage base) p w =
      (inr b, set_files (dict_del String.eqb p (files w)) w).
Proof.
  unfold storage.delete_file, dict_mem.
  destruct (dict_get String.eqb p (files w)) eqn:G.
  - now exists true.
  - exists false. now rewrite (kdict_del_absent _ String.eqb_spec _ _ G), set_files_same.
Qed.

(** X13.  Deleting a document of the index (local storage) answers success
    and removes the index entry, the stored file and the thumbnail, leaving
    every other document, every other stored object and the tags as they
    were.  Afterwards fetching its bytes and deleting it again fail with
    status 404, and an OCR run still pending for it does nothing. *)
Theorem delete_document_removes_everything env document_id w doc engine :
  database.get_document document_id (db w) = Some doc ->
  NoDup (dict_keys (documents (db w))) ->
  NoDup (dict_keys (files w)) ->
  storage_type (settings (db w)) <> "s3" ->
  exists w',
    api.delete_document document_id w = (inr true, w') /\
    database.get_document document_id (db w') = None /\
    (forall k, k <> document_id ->
       database.get_document k (db w') = database.get_document k (db w)) /\
    dict_get String.eqb (file_path doc) (files w') = None /\
    (forall t, thumbnail_path doc = Some t -> Str.truthy t = true ->
       dict_get String.eqb t (files w') = None) /\
    (forall q, q <> file_path doc -> thumbnail_path doc <> Some q ->
       dict_get String.eqb q (files w') = dict_get String.eqb q (files w)) /\
    db_tags (db w') = db_tags (db w) /\
    api.get_document_original env document_id w' =
      (inl (HTTPException 404 Document_not_found), w') /\
    api.delete_document document_id w' = (inl (HTTPException 404 Document_not_found), w') /\
    api.process_document_ocr env document_id engine w' = (inr tt, w').
Proof.
  intros G Nd Nf Hlocal.
  pose proof G as G0. unfold database.get_document in G0.
  unfold api.delete_document, storage.get_storage.
  rewrite bind_gets, G, bind_gets, (storage_for_local _ Hlocal).
  destruct (delete_file_local "storage" (file_path doc) w) as (b1 & E1).
  rewrite (bind_inr _ _ _ _ _ E1).
  set (w1 := set_files (dict_del String.eqb (file_path doc) (files w)) w).
  assert (N1 : NoDup (dict_keys (files w1))) by (now apply kdict_keys_del_nodup).
  assert (exists b2 fs,
            match thumbnail_path doc with
            | Some t => if Str.truthy t
                        then storage.delete_file (storage.LocalStorage "storage") t
                        else ret false
            | None => ret false
            end w1 = (inr b2, set_files fs w1) /\
            dict_get String.eqb (file_path doc) fs = None /\
            (forall t, thumbnail_path doc = Some t -> Str.truthy t = true ->
               dict_get String.eqb t fs = None) /\
            (forall q, q <> file_path doc -> thumbnail_path doc <> Some q ->
               dict_get String.eqb q fs = dict_get String.eqb q (files w)))
    as (b2 & fs & E2 & F1 & F2 & F3).
  { assert (D0 : dict_get String.eqb (file_path doc) (files w1) = None)
      by (apply (kdict_get_del_same _ String.eqb_spec); exact Nf).
    assert (O0 : forall q, q <> file_path doc ->
                   dict_get String.eqb q (files w1) = dict_get String.eqb q (files w))
      by (intros q Hq; now apply (kdict_get_del_other _ String.eqb_spec)).
    destruct (thumbnail_path doc) as [t|] eqn:T.
    - destruct (Str.truthy t) eqn:Tt.
      + destruct (delete_file_local "storage" t w1) as (b2 & E2).
        exists b2, (dict_del String.eqb t (files w1)). split; [exact E2|].
        split; [|split].
        * destruct (String.eqb_spec (file_path doc) t) as [<-|Ne].
          -- now apply (kdict_get_del_same _ String.eqb_spec).
          -- now rewrite (kdict_get_del_other _ String.eqb_spec _ _ _ Ne).
        * intros t' [= <-] _. now apply (kdict_get_del_same _ String.eqb_spec).
        * intros q Hq Hq'. rewrite (kdict_get_del_other _ String.eqb_spec); [now apply O0|].
          intros ->. now apply Hq'.
      + exists false, (files w1). rewrite set_files_same. split; [reflexivity|].
        split; [exact D0|]. split; [|intros q Hq _; now apply O0].
        intros t' [= <-] C. congruence.
    - exists false, (files w1). rewrite set_files_same. split; [reflexivity|].
      split; [exact D0|]. split; [discriminate | intros q Hq _; now apply O0]. }
  rewrite (bind_inr _ _ _ _ _ E2). subst w1.
  cbn beta zeta iota delta [db set_files set_db]. unfold database.delete_document, dict_mem.
  rewrite G0.
  cbn [fst snd].
  eexists. split; [reflexivity|].
  assert (Gone : dict_get Nat.eqb document_id
                   (dict_del Nat.eqb document_id (documents (db w))) = None)
    by (now apply (kdict_get_del_same _ Nat.eqb_spec)).
  unfold database.get_document.
  cbn [db files set_db set_files db_tags documents database.set_documents].
  split; [exact Gone|].
  split; [intros k Hk; now apply (kdict_get_del_other _ Nat.eqb_spec)|].
  split; [exact F1|]. split; [exact F2|]. split; [exact F3|]. split; [reflexivity|].
  split; [|split].
  - unfold api.get_document_original, database.get_document. rewrite bind_gets.
    cbn [db documents database.set_documents set_db]. now rewrite Gone.
  - rewrite bind_gets. unfold database.get_document.
    cbn [db documents database.set_documents set_db]. now rewrite Gone.
  - apply process_document_ocr_missing. exact Gone.
Qed.

Lemma delete_document_witness :
  let w := snd (api.create_document demo.env demo.png None "/" None demo.start) in
  exists w',
    api.delete_document 2%nat w = (inr true, w') /\
    documents (db w') = [] /\ files w' = [] /\
    api.get_document_original demo.env 2%nat w' =
      (inl (HTTPException 404 Document_not_found), w').
Proof.
  intros w.
  destruct (delete_document_removes_everything demo.env 2%nat w
              (mkDocument "page.png" "image/png" 7 "/" 2%nat "storage/documents/0.png"
                 (Some "storage/documents/1.png") 1700000000 COMPLETED
                 (Some "text of PNGDATA") (Some "tesseract") (Some "5.3.0") [] [])
              "tesseract")
    as (w' & E & _ & _ & _ & _ & _ & _ & O & _).
  - vm_compute. reflexivity.
  - vm_compute. repeat constructor; cbn; intuition discriminate.
  - vm_compute. repeat constructor; cbn; intuition discriminate.
  - vm_compute. discriminate.
  - exists w'. split; [exact E|].
    assert (W : w' = snd (api.delete_document 2%nat w)) by (now rewrite E).
    split; [rewrite W; vm_compute; reflexivity|].
    split; [rewrite W; vm_compute; reflexivity | exact O].
Defined.

(** ** Pages *)

Lemma py_slice_nonneg {A} a b (l : list A) :
  0 <= a -> 0 <= b ->
  py_slice a b l = firstn (Z.to_nat (b - a)) (skipn (Z.to_nat a) l).
Proof.
  intros Ha Hb. unfold py_slice, slice_index.
  destruct (Z.ltb_spec a 0); [lia|]. destruct (Z.ltb_spec b 0); [lia|].
  set (n := Z.of_nat (List.length l)).
  destruct (Z.le_gt_cases n a) as [Hna|Hna].
  - rewrite !skipn_all2 by lia. now rewrite !firstn_nil.
  - rewrite (Z.min_l a n) by lia.
    destruct (Z.le_gt_cases n b) as [Hnb|Hnb].
    + rewrite (Z.min_r b n) by lia.
      rewrite !firstn_all2; [reflexivity| |]; rewrite length_skipn; lia.
    + now rewrite (Z.min_l b n) by lia.
Qed.

Lemma firstn_then_firstn {A} x : forall y (l : list A),
  (firstn x l ++ firstn y (skipn x l))%list = firstn (x + y) l.
Proof.
  induction x as [|x IH]; intros y l; [reflexivity|].
  destruct l as [|a l]; cbn; [now rewrite firstn_nil|]. now rewrite IH.
Qed.

Lemma py_slice_concat {A} a n m (l : list A) :
  0 <= a -> 0 <= n -> 0 <= m ->
  (py_slice a (a + n) l ++ py_slice (a + n) (a + n + m) l)%list = py_slice a (a + (n + m)) l.
Proof.
  intros Ha Hn Hm. rewrite !py_slice_nonneg by lia.
  replace (Z.to_nat (a + n)) with (Z.to_nat n + Z.to_nat a)%nat by lia.
  rewrite <- skipn_skipn.
  replace (a + n - a) with n by lia. replace (a + n + m - (a + n)) with m by lia.
  replace (a + (n + m) - a) with (n + m) by lia.
  rewrite firstn_then_firstn. f_equal. lia.
Qed.

(** X14.  Listing documents page by page loses nothing and repeats nothing:
    for a non-negative offset and non-negative page lengths, a page followed
    by the next page is the page of both lengths together, and a page is
    never longer than its limit. *)
Theorem document_pages_concatenate skip n m folder d :
  0 <= skip -> 0 <= n -> 0 <= m ->
  (api.list_documents skip n folder d ++ api.list_documents (skip + n) m folder d)%list
    = api.list_documents skip (n + m) folder d /\
  Z.of_nat (List.length (api.list_documents skip n folder d)) <= n.
Proof.
  intros Hs Hn Hm. unfold api.list_documents, database.list_documents. split.
  - apply py_slice_concat; assumption.
  - rewrite py_slice_nonneg by lia. rewrite length_firstn. lia.
Qed.

Lemma document_pages_witness :
  (api.list_documents 0 1 None demo.invoices ++ api.list_documents 1 1 None demo.invoices)%list
    = [demo.invoice_pdf; demo.capital_png] /\
  Z.of_nat (List.length (api.list_documents 0 1 None demo.invoices)) <= 1.
Proof.
  destruct (document_pages_concatenate 0 1 1 None demo.invoices
              ltac:(lia) ltac:(lia) ltac:(lia)) as [C L].
  split; [|exact L]. change (0 + 1) with 1 in C. rewrite C. reflexivity.
Defined.

Lemma py_slice_to_zero {A} a (l : list A) : py_slice a 0 l = [].
Proof.
  unfold py_slice. replace (slice_index (Z.of_nat (List.length l)) 0) with 0.
  - assert (0 <= slice_index (Z.of_nat (List.length l)) a).
    { unfold slice_index. destruct (a <? 0) eqn:E; [lia|]. apply Z.ltb_ge in E. lia. }
    replace (Z.to_nat (0 - _)) with 0%nat by lia. reflexivity.
  - unfold slice_index. cbn. lia.
Qed.

(** X15.  Pages of the search entrypoint are numbered from 1.  Page 0
    never holds a document, whatever the page size, the bounds and the
    index; with date bounds that are absent or know no time zone it is
    returned, empty; and with such bounds and a non-negative page size,
    pages 1 to k put one after the other are the first k * page_size
    documents the query selects, in their sorted order. *)
Theorem search_pages_compose env q tag_field folder mime_field date_from date_to page_size
    sort_by sort_order d k :
  let page := fun bound_from bound_to p =>
    api.search_documents env q tag_field folder mime_field bound_from bound_to p page_size
      sort_by sort_order d in
  (forall bound_from bound_to docs, page bound_from bound_to 0 = inr docs -> docs = []) /\
  page (naive date_from) (naive date_to) 0 = inr [] /\
  (0 <= page_size ->
   exists everything,
     database.search_documents env q (api.parse_list tag_field) folder
       (api.parse_list mime_field) (naive date_from) (naive date_to)
       0 (Z.of_nat (List.length (documents d))) sort_by sort_order d = inr everything /\
     search_pages (page (naive date_from) (naive date_to)) k
       = inr (firstn (k * Z.to_nat page_size) everything)).
Proof.
  intros page. subst page. unfold api.search_documents.
  destruct (search_documents_pages env q (api.parse_list tag_field) folder
              (api.parse_list mime_field) date_from date_to sort_by sort_order d)
    as (sorted & Len & P).
  split; [|split].
  - intros bound_from bound_to docs E.
    destruct (search_documents_inr _ _ _ _ _ _ _ _ _ _ _ _ _ E) as (kept & -> & _).
    replace ((0 - 1) * page_size + page_size) with 0 by lia. apply py_slice_to_zero.
  - rewrite P. f_equal.
    replace ((0 - 1) * page_size + page_size) with 0 by lia. apply py_slice_to_zero.
  - intros Hp. exists sorted. split.
    + rewrite P. f_equal. now apply py_slice_whole.
    + assert (Q : search_pages
                    (fun p => database.search_documents env q (api.parse_list tag_field)
                                folder (api.parse_list mime_field) (naive date_from)
                                (naive date_to) ((p - 1) * page_size) page_size sort_by
                                sort_order d) k
                  = inr (py_slice 0 (0 + Z.of_nat k * page_size) sorted)).
      { induction k as [|k IH]; [cbn; f_equal; symmetry; apply py_slice_to_zero|].
        cbn [search_pages]. rewrite IH, P. f_equal.
        replace ((Z.of_nat (Datatypes.S k) - 1) * page_size)
          with (0 + Z.of_nat k * page_size) by lia.
        rewrite py_slice_concat by lia. f_equal. lia. }
      rewrite Q, py_slice_nonneg by lia. cbn [skipn Z.to_nat]. do 2 f_equal. lia.
Qed.

Lemma search_pages_witness :
  let page := fun p =>
    api.search_documents demo.env None None None None None None p 1 "size" "asc"
      demo.invoices in
  page 0 = inr [] /\
  search_pages page 2 = inr [demo.capital_png; demo.invoice_pdf].
Proof.
  intros page.
  destruct (search_pages_compose demo.env None None None None None None 1 "size" "asc"
              demo.invoices 2) as (_ & Z & P).
  split; [exact Z|].
  destruct (P ltac:(lia)) as (everything & E & Q).
  unfold page. unfold naive, option_map in Q. rewrite Q.
  vm_compute in E. injection E as <-. reflexivity.
Defined.

(** ** Sorted results *)

Section SortFacts.
Context {A : Type} (le : A -> A -> bool).
Context (le_total : forall x y, le x y = true \/ le y x = true).
Context (le_trans : forall x y z, le x y = true -> le y z = true -> le x z = true).

Let R (x y : A) : Prop := le x y = true.

Lemma insert_sorted_sorted x l :
  StronglySorted R l -> StronglySorted R (insert_sorted le x l).
Proof.
  induction l as [|y r IH]; cbn; intros H.
  - constructor; [constructor | constructor].
  - inversion H as [|? ? Hr Hy]; subst.
    destruct (le x y) eqn:E.
    + constructor; [exact H|]. constructor; [exact E|].
      eapply Forall_impl; [|exact Hy]. intros z Hz. exact (le_trans _ _ _ E Hz).
    + constructor; [now apply IH|].
      apply (Permutation_Forall (Permutation_sym (insert_sorted_perm le x r))).
      constructor; [|exact Hy].
      destruct (le_total x y) as [C|C]; [congruence | exact C].
Qed.

Lemma stable_sort_sorted l : StronglySorted R (stable_sort le l).
Proof.
  induction l as [|x l IH]; cbn; [constructor | now apply insert_sorted_sorted].
Qed.

End SortFacts.

Lemma StronglySorted_snoc {A} (R : A -> A -> Prop) l x :
  StronglySorted R l -> Forall (fun y => R y x) l -> StronglySorted R (l ++ [x]).
Proof.
  induction l as [|a l IH]; cbn; intros S F.
  - constructor; constructor.
  - inversion S as [|? ? Sl Fa]; subst. inversion F as [|? ? Ra Fl]; subst.
    constructor; [now apply IH|]. apply Forall_app. split; [exact Fa | now constructor].
Qed.

Lemma StronglySorted_rev {A} (R : A -> A -> Prop) l :
  StronglySorted R l -> StronglySorted (fun x y => R y x) (rev l).
Proof.
  induction 1 as [|a l S IH F]; cbn; [constructor|].
  apply StronglySorted_snoc; [exact IH|]. now apply Forall_rev.
Qed.

Lemma StronglySorted_skipn {A} (R : A -> A -> Prop) n : forall l,
  StronglySorted R l -> StronglySorted R (skipn n l).
Proof.
  induction n as [|n IH]; intros l S; [exact S|].
  destruct l as [|a l]; [constructor|]. inversion S; subst. now apply IH.
Qed.

Lemma StronglySorted_firstn {A} (R : A -> A -> Prop) n : forall l,
  StronglySorted R l -> StronglySorted R (firstn n l).
Proof.
  induction n as [|n IH]; intros l S; [constructor|].
  destruct l as [|a l]; [constructor|]. inversion S as [|? ? Sl Fa]; subst.
  cbn. constructor; [now apply IH|].
  rewrite <- (firstn_skipn n l) in Fa. apply Forall_app in Fa. tauto.
Qed.

Lemma StronglySorted_slice {A} (R : A -> A -> Prop) a b (l : list A) :
  StronglySorted R l -> StronglySorted R (py_slice a b l).
Proof. intros S. unfold py_slice. now apply StronglySorted_firstn, StronglySorted_skipn. Qed.

Lemma list_sort_sorted {A} (le : A -> A -> bool) (reverse : bool) l :
  (forall x y, le x y = true \/ le y x = true) ->
  (forall x y z, le x y = true -> le y z = true -> le x z = true) ->
  if reverse
  then StronglySorted (fun x y => le y x = true) (list_sort le reverse l)
  else StronglySorted (fun x y => le x y = true) (list_sort le reverse l).
Proof.
  intros T Tr. unfold list_sort. destruct reverse.
  - apply (StronglySorted_rev (fun x y => le x y = true)). now apply stable_sort_sorted.
  - now apply stable_sort_sorted.
Qed.

Lemma StronglySorted_weaken {A} (R R' : A -> A -> Prop) l :
  (forall x y, R x y -> R' x y) -> StronglySorted R l -> StronglySorted R' l.
Proof.
  intros W. induction 1 as [|a l S IH F]; constructor; auto.
  eapply Forall_impl; [|exact F]. intros y. apply W.
Qed.

Lemma list_sort_by_key {A} (key : A -> Z) (reverse : bool) l :
  if reverse
  then descending key (list_sort (fun x y => key x <=? key y) reverse l)
  else ascending key (list_sort (fun x y => key x <=? key y) reverse l).
Proof.
  pose proof (list_sort_sorted (fun x y => key x <=? key y) reverse l) as H.
  assert (T : forall x y, (key x <=? key y) = true \/ (key y <=? key x) = true)
    by (intros x y; rewrite !Z.leb_le; lia).
  assert (Tr : forall x y z, (key x <=? key y) = true -> (key y <=? key z) = true ->
                             (key x <=? key z) = true)
    by (intros x y z; rewrite !Z.leb_le; lia).
  specialize (H T Tr). unfold ascending, descending.
  destruct reverse; (eapply StronglySorted_weaken; [|exact H]); intros x y; apply Z.leb_le.
Qed.

Lemma string_compare_as_OT a : forall b,
  String.compare a b = OrdersEx.String_as_OT.compare a b.
Proof.
  induction a as [|c a IH]; intros [|c' b]; cbn; auto.
Qed.

Lemma string_leb_trans x y z :
  String.leb x y = true -> String.leb y z = true -> String.leb x z = true.
Proof.
  unfold String.leb.
  rewrite (string_compare_as_OT x y), (string_compare_as_OT y z), (string_compare_as_OT x z).
  destruct (OrdersEx.String_as_OT.compare_spec x y) as [E1|L1|G1];
    destruct (OrdersEx.String_as_OT.compare_spec y z) as [E2|L2|G2];
    destruct (OrdersEx.String_as_OT.compare_spec x z) as [E3|L3|G3];
    try discriminate; try reflexivity; intros _ _; exfalso;
    cbv [OrdersEx.String_as_OT.eq] in *; subst;
    eapply (RelationClasses.StrictOrder_Irreflexive (R := OrdersEx.String_as_OT.lt));
    (idtac + etransitivity); (idtac + etransitivity); eassumption.
Qed.

(** X16.  Every page a search returns is in the order asked for: by size,
    by upload date or by file name (compared character by character),
    descending when the sort order is "desc" in any letter case and
    ascending otherwise; and a search whose date bounds are absent or know
    no time zone does return a page. *)
Theorem search_results_are_sorted env text names folder mimes date_from date_to skip limit
    sort_order d :
  let results := fun sort_by =>
    database.search_documents env text names folder mimes date_from date_to skip limit
      sort_by sort_order d in
  (forall docs, results "size" = inr docs ->
     if (str_lower env sort_order =? "desc")%string
     then descending size docs else ascending size docs) /\
  (forall docs, results "upload_date" = inr docs ->
     if (str_lower env sort_order =? "desc")%string
     then descending upload_date docs else ascending upload_date docs) /\
  (forall docs, results "filename" = inr docs ->
     if (str_lower env sort_order =? "desc")%string
     then StronglySorted (fun x y => String.leb (filename y) (filename x) = true) docs
     else StronglySorted (fun x y => String.leb (filename x) (filename y) = true) docs) /\
  (forall bound_from bound_to sort_by, exists page,
     database.search_documents env text names folder mimes (naive bound_from)
       (naive bound_to) skip limit sort_by sort_order d = inr page).
Proof.
  intros results. subst results. cbv beta.
  assert (Hs := fun l => list_sort_by_key size (str_lower env sort_order =? "desc")%string l).
  assert (Hd := fun l =>
            list_sort_by_key upload_date (str_lower env sort_order =? "desc")%string l).
  assert (Hf := fun l =>
            list_sort_sorted (fun x y => String.leb (filename x) (filename y))
              (str_lower env sort_order =? "desc")%string l
              (fun x y => String.leb_total (filename x) (filename y))
              (fun x y z => string_leb_trans (filename x) (filename y) (filename z))).
  split; [|split; [|split]].
  - intros docs E.
    destruct (search_documents_inr _ _ _ _ _ _ _ _ _ _ _ _ _ E) as (kept & -> & _).
    unfold database.sort_results. cbn [String.eqb Ascii.eqb Bool.eqb].
    specialize (Hs kept).
    destruct (str_lower env sort_order =? "desc")%string; unfold ascending, descending in *;
      apply StronglySorted_slice; assumption.
  - intros docs E.
    destruct (search_documents_inr _ _ _ _ _ _ _ _ _ _ _ _ _ E) as (kept & -> & _).
    unfold database.sort_results. cbn [String.eqb Ascii.eqb Bool.eqb].
    specialize (Hd kept).
    destruct (str_lower env sort_order =? "desc")%string; unfold ascending, descending in *;
      apply StronglySorted_slice; assumption.
  - intros docs E.
    destruct (search_documents_inr _ _ _ _ _ _ _ _ _ _ _ _ _ E) as (kept & -> & _).
    unfold database.sort_results. cbn [String.eqb Ascii.eqb Bool.eqb].
    specialize (Hf kept).
    destruct (str_lower env sort_order =? "desc")%string;
      apply StronglySorted_slice; assumption.
  - intros bound_from bound_to sort_by.
    destruct (search_documents_pages env text names folder mimes bound_from bound_to
                sort_by sort_order d) as (sorted & _ & P).
    eexists. apply P.
Qed.

(** ** Folder paths *)

Lemma endswith_append_slash s : Str.endswith_char "/" (s ++ "/") = true.
Proof.
  induction s as [|c r IH]; [reflexivity|].
  cbn [append]. destruct r as [|c' r']; [reflexivity|]. exact IH.
Qed.

Lemma startswith_append p s t :
  Str.startswith (String p "") s = true -> Str.startswith (String p "") (s ++ t) = true.
Proof.
  destruct s as [|c r]; [discriminate|]. unfold Str.startswith. cbn.
  destruct (ascii_dec p c); [|discriminate]. intros _. apply prefix_empty.
Qed.

Lemma slashed_starts p : Str.startswith "/" (api.slashed p) = true.
Proof.
  unfold api.slashed.
  destruct (Str.startswith "/" p) eqn:E.
  - destruct (api.ends_with_slash p); [exact E | now apply startswith_append].
  - assert (H : Str.startswith "/" ("/" ++ p) = true)
      by (apply (startswith_append "/" "/" p); vm_compute; reflexivity).
    destruct (api.ends_with_slash ("/" ++ p)); [exact H | now apply startswith_append].
Qed.

Lemma slashed_ends p : api.ends_with_slash (api.slashed p) = true.
Proof.
  unfold api.slashed. set (q := if Str.startswith "/" p then p else ("/" ++ p)%string).
  destruct (api.ends_with_slash q) eqn:E; [exact E | apply endswith_append_slash].
Qed.

Lemma slashed_fixed p :
  Str.startswith "/" p = true -> api.ends_with_slash p = true -> api.slashed p = p.
Proof. unfold api.slashed. now intros -> ->. Qed.

(** X17.  The folder handlers work on the path with one leading and one
    trailing slash added where missing: the path they answer with starts and
    ends with a slash, is left alone when it already did, and slashing it
    again changes nothing; the documents a folder's contents list are
    documents of the index whose folder path is exactly that path. *)
Theorem folder_paths_are_slashed p skip limit d :
  let q := api.slashed p in
  Str.startswith "/" q = true /\ api.ends_with_slash q = true /\
  api.slashed q = q /\
  snd (api.create_folder p) = q /\
  api.fc_path (api.get_folder_contents p skip limit d) = q /\
  (forall doc, In doc (api.fc_documents (api.get_folder_contents p skip limit d)) ->
     folder_path doc = q /\ In doc (dict_values (documents d))).
Proof.
  intros q. pose proof (slashed_starts p) as S. pose proof (slashed_ends p) as E.
  fold q in S, E. repeat split; auto.
  - now apply slashed_fixed.
  - cbn in H. fold q in H. unfold database.list_documents in H.
    rewrite (startswith_truthy _ _ S) in H. apply py_slice_incl, filter_In in H.
    now apply String.eqb_eq.
  - cbn in H. fold q in H. unfold database.list_documents in H.
    rewrite (startswith_truthy _ _ S) in H. apply py_slice_incl, filter_In in H. tauto.
Qed.

Lemma prefixes_are_slashed comps : forall current f,
  Str.startswith "/" current = true -> api.ends_with_slash current = true ->
  In f (prefixes_from current comps) ->
  Str.startswith "/" f = true /\ api.ends_with_slash f = true.
Proof.
  induction comps as [|c rest IH]; intros current f S E; cbn [prefixes_from].
  - intros [<-|[]]. auto.
  - intros [<-|H]; [auto|]. apply (IH (current ++ c ++ "/")%string); auto.
    + now apply startswith_append.
    + unfold api.ends_with_slash.
      replace (current ++ c ++ "/")%string with ((current ++ c) ++ "/")%string.
      * apply endswith_append_slash.
      * clear. induction current as [|a r IH]; cbn; [reflexivity | now rewrite IH].
Qed.

(** X18.  The folder listing and a folder's contents agree: in an index of
    at most 1,000,000 documents, asking for the contents of a listed folder,
    from the start and with a limit no smaller than its count, gives exactly
    as many documents as the listing counts for it, all of them in that
    folder. *)
Theorem listed_count_matches_contents d folder limit :
  Z.of_nat (List.length (documents d)) <= 1000000 ->
  In folder (api.list_folders d) ->
  api.document_count folder <= limit ->
  let contents := api.get_folder_contents (api.path folder) 0 limit d in
  api.fc_path contents = api.path folder /\
  Z.of_nat (List.length (api.fc_documents contents)) = api.document_count folder /\
  (forall doc, In doc (api.fc_documents contents) -> folder_path doc = api.path folder).
Proof.
  intros Hcap Hin Hlim contents.
  assert (All : database.list_documents 0 1000000 None d = dict_values (documents d)).
  { unfold database.list_documents. change (0 + 1000000) with (0 + 1000000)%Z.
    apply py_slice_whole. unfold dict_values. now rewrite length_map. }
  assert (Hp : In (api.path folder) (map api.path (api.list_folders d)))
    by (now apply in_map).
  rewrite list_folders_paths in Hp.
  apply (Permutation_in _ (stable_sort_perm _ _)) in Hp.
  apply fold_folders_in in Hp. destruct Hp as [[]|(doc & _ & Hp)].
  destruct (prefixes_are_slashed _ "/" _ eq_refl eq_refl Hp) as [S E].
  assert (Q : api.slashed (api.path folder) = api.path folder) by (now apply slashed_fixed).
  assert (C : api.document_count folder =
              Z.of_nat (List.length
                (filter (fun doc => (folder_path doc =? api.path folder)%string)
                   (dict_values (documents d))))).
  { unfold api.list_folders in Hin. apply in_map_iff in Hin.
    destruct Hin as (f & <- & _). cbn [api.document_count api.path]. now rewrite All. }
  assert (D : api.fc_documents contents =
              filter (fun doc => (folder_path doc =? api.path folder)%string)
                (dict_values (documents d))).
  { subst contents. unfold api.get_folder_contents. cbn [api.fc_documents]. rewrite Q.
    unfold database.list_documents. rewrite (startswith_truthy _ _ S).
    apply py_slice_whole. now rewrite <- C. }
  split; [subst contents; cbn; exact Q|]. split; [now rewrite D, C|].
  intros x Hx. rewrite D in Hx. apply filter_In in Hx. now apply String.eqb_eq.
Qed.

Lemma listed_count_witness :
  let d := demo.invoices in
  let folder := api.mkFolder "/2024/" "2024" 1 in
  let contents := api.get_folder_contents "/2024/" 0 20 d in
  In folder (api.list_folders d) /\
  api.fc_documents contents = [demo.invoice_pdf] /\
  Z.of_nat (List.length (api.fc_documents contents)) = 1.
Proof.
  intros d folder contents.
  assert (Hin : In folder (api.list_folders d)) by (vm_compute; auto).
  split; [exact Hin|]. split; [vm_compute; reflexivity|].
  exact (proj1 (proj2 (listed_count_matches_contents d folder 20
                         ltac:(vm_compute; discriminate) Hin ltac:(vm_compute; discriminate)))).
Defined.

(** ** Tags on documents are tags of the index *)

Lemma mem_of_entry {V} k (v : V) d : In (k, v) d -> dict_mem Nat.eqb k d = true.
Proof.
  unfold dict_mem. induction d as [|[k' u] r IH]; cbn; [intros []|].
  destruct (Nat.eqb_spec k k'); [reflexivity|].
  intros [E|H]; [congruence | auto].
Qed.

Lemma entry_of_get {V} k (v : V) d : dict_get Nat.eqb k d = Some v -> In (k, v) d.
Proof.
  induction d as [|[k' u] r IH]; cbn; [discriminate|].
  destruct (Nat.eqb_spec k k') as [->|N]; [left; congruence | right; auto].
Qed.

Lemma entry_of_value {V} (v : V) (d : list (UUID * V)) :
  In v (dict_values d) -> exists k, In (k, v) d.
Proof.
  unfold dict_values. intros H. apply in_map_iff in H.
  destruct H as ([k u] & E & H). cbn in E. subst. now exists k.
Qed.

Lemma entries_set {V} k (v : V) d e :
  In e (dict_set Nat.eqb k v d) -> e = (k, v) \/ In e d.
Proof.
  induction d as [|[k' u] r IH]; cbn.
  - intros [H|[]]; auto.
  - destruct (Nat.eqb k k'); cbn; intros [H|H]; auto.
    destruct (IH H); auto.
Qed.

Lemma entries_del {V} k (d : list (UUID * V)) e : In e (dict_del Nat.eqb k d) -> In e d.
Proof.
  induction d as [|[k' u] r IH]; cbn; [auto|].
  destruct (Nat.eqb k k'); cbn; [auto|]. intros [H|H]; auto.
Qed.

Lemma mem_set_mono {V} k (v : V) d k' :
  dict_mem Nat.eqb k' d = true -> dict_mem Nat.eqb k' (dict_set Nat.eqb k v d) = true.
Proof.
  unfold dict_mem. destruct (Nat.eq_dec k' k) as [->|N].
  - now rewrite (kdict_get_set_same _ Nat.eqb_spec).
  - now rewrite (kdict_get_set_other _ Nat.eqb_spec _ _ _ _ N).
Qed.

Lemma mem_del_other {V} k (d : list (UUID * V)) k' :
  k' <> k -> dict_mem Nat.eqb k' (dict_del Nat.eqb k d) = dict_mem Nat.eqb k' d.
Proof.
  intros N. unfold dict_mem. now rewrite (kdict_get_del_other _ Nat.eqb_spec _ _ _ N).
Qed.

Lemma tags_keyed_set d t :
  tags_keyed d -> tags_keyed (database.create_tag t d).
Proof.
  intros H k x Hx. cbn in Hx. destruct (entries_set _ _ _ _ Hx) as [E|Hin].
  - now inversion E.
  - now apply H.
Qed.


Lemma resolve_tag_names_known {env} names : forall doc w,
  tags_keyed (db w) -> known_tags doc (db w) ->
  returns (api.resolve_tag_names env names doc) w
    (fun doc' w' =>
       tags_keyed (db w') /\ known_tags doc' (db w') /\
       forall k, dict_mem Nat.eqb k (db_tags (db w)) = true ->
                 dict_mem Nat.eqb k (db_tags (db w')) = true).
Proof.
  induction names as [|n rest IH]; intros doc w T Kn; cbn [api.resolve_tag_names].
  - apply returns_ret. auto.
  - destruct (negb (Str.truthy n)); [now apply IH|].
    eapply returns_bind; [apply returns_gets|]. intros found w0 (-> & ->).
    destruct (database.get_tag_by_name env n (db w)) as [tag|] eqn:G.
    + eapply returns_bind with (Q1 := fun t w' => t = tag /\ w' = w);
        [now apply returns_ret|]. intros tag' w0 (-> & ->).
      apply IH; [exact T|].
      intros t Ht. cbn in Ht. apply in_app_or in Ht. destruct Ht as [Ht|[<-|[]]].
      * now apply Kn.
      * apply find_some in G. destruct G as [G _].
        destruct (entry_of_value _ _ G) as (k & Hk).
        rewrite (T _ _ Hk). exact (mem_of_entry _ _ _ Hk).
    + eapply returns_bind; [apply new_tag_returns|].
      intros tag w1 (E & D & _ & Tg & _).
      assert (M1 : forall k, dict_mem Nat.eqb k (db_tags (db w)) = true ->
                             dict_mem Nat.eqb k (db_tags (db w1)) = true).
      { intros k Hk. rewrite Tg. now apply mem_set_mono. }
      eapply returns_weaken.
      * apply IH.
        -- intros k x Hx. rewrite Tg in Hx. destruct (entries_set _ _ _ _ Hx) as [Eq|Hin].
           ++ inversion Eq; subst. reflexivity.
           ++ now apply T.
        -- intros t Ht. cbn in Ht. apply in_app_or in Ht. destruct Ht as [Ht|[<-|[]]].
           ++ apply M1. now apply Kn.
           ++ rewrite Tg, E. cbn [tag_id]. unfold dict_mem.
              now rewrite (kdict_get_set_same _ Nat.eqb_spec).
      * intros doc' w' (T' & K' & M'). repeat split; auto.
Qed.

Lemma attach_tags_known {env} tag_field doc w :
  tags_keyed (db w) -> known_tags doc (db w) ->
  returns (api.attach_tags env tag_field doc) w
    (fun doc' w' =>
       tags_keyed (db w') /\ known_tags doc' (db w') /\
       forall k, dict_mem Nat.eqb k (db_tags (db w)) = true ->
                 dict_mem Nat.eqb k (db_tags (db w')) = true).
Proof.
  intros T Kn. unfold api.attach_tags.
  destruct tag_field as [t|]; [|apply returns_ret; auto].
  destruct (Str.truthy t); [now apply resolve_tag_names_known | apply returns_ret; auto].
Qed.

Section NoDangling.
Context (env : Env).

Let I (w : World) : Prop := no_dangling_tags (db w).

Lemma register_no_dangling tag_field engine doc0 w {B} (k : Document -> M B) :
  tags doc0 = [] ->
  (forall doc w', I w' -> returns (k doc) w' (fun _ w'' => I w'')) ->
  I w ->
  returns (bind (api.attach_tags env tag_field doc0)
             (fun doc => bind (api.store_document doc)
                (fun _ => bind (api.process_document_ocr env (doc_id doc) engine)
                   (fun _ => k doc)))) w (fun _ w' => I w').
Proof.
  intros T0 K [T D]. apply register_returns.
  intros ts w4 w' E Tg Dc _ _ _ _. apply K.
  assert (Kn0 : known_tags doc0 (db w)) by (intros t Ht; rewrite T0 in Ht; destruct Ht).
  destruct (returned _ _ _ _ _ (attach_tags_known tag_field doc0 w T Kn0) E)
    as (T4 & K4 & M4).
  split.
  - intros k0 t Ht. rewrite Tg in Ht. now apply T4.
  - intros doc Hdoc t Ht. rewrite Tg. rewrite Dc in Hdoc.
    destruct (dict_set_values_in _ _ _ _ Hdoc) as [->|Hold].
    + apply K4. destruct (settled_same_record env (retag doc0 ts) engine w)
        as (_ & _ & _ & _ & _ & _ & _ & _ & Eq). now rewrite <- Eq.
    + apply M4. exact (D doc Hold t Ht).
Qed.

Lemma ingest_single_no_dangling st file mime tag_field folder engine :
  keeps I (api.ingest_single env st file mime tag_field folder engine).
Proof.
  apply returns_keeps. intros w Hw. unfold api.ingest_single.
  eapply returns_bind; [apply save_file_returns|]. intros p w1 (D1 & _).
  eapply returns_bind with (Q1 := fun _ w' => db w' = db w).
  { destruct (Str.startswith "image/" mime).
    - eapply returns_weaken; [apply create_thumbnail_returns|].
      intros t w' (D & _). congruence.
    - apply returns_ret. exact D1. }
  intros thumb w2 D2.
  eapply returns_bind; [apply new_Document_returns|]. intros doc w3 (-> & ->).
  apply register_no_dangling; [reflexivity| |unfold I; cbn [db]; now rewrite D2].
  intros doc w' Hw'. eapply returns_weaken; [apply returns_gets|].
  now intros a w'' (_ & ->).
Qed.

Lemma ingest_member_no_dangling st zip_info tag_field folder engine :
  keeps I (api.ingest_member env st zip_info tag_field folder engine).
Proof.
  unfold api.ingest_member. apply keeps_bind; [apply read_member_keeps|]. intros file_data.
  apply returns_keeps. intros w Hw.
  eapply returns_bind; [apply save_file_returns|]. intros p w1 (D1 & _).
  eapply returns_bind; [apply new_Document_returns|]. intros doc w3 (-> & ->).
  apply register_no_dangling; [reflexivity| |unfold I; cbn [db]; now rewrite D1].
  intros doc w' Hw'. now apply returns_ret.
Qed.

Lemma expand_zip_no_dangling st s infolist tag_field folder engine :
  forall docs, keeps I (api.expand_zip env st s infolist tag_field folder engine docs).
Proof.
  induction infolist as [|zip_info rest IH]; intros docs; cbn [api.expand_zip].
  - apply keeps_ret.
  - destruct (api.is_dir zip_info) as [e|[|]]; [apply keeps_raise | apply IH |].
    destruct (zi_file_size zip_info >? max_file_size s); [apply IH|].
    destruct (negb (api.accepted_type (guess_type env (zi_filename zip_info)))); [apply IH|].
    apply keeps_bind; [apply ingest_member_no_dangling|]. intros doc. apply IH.
Qed.

Lemma create_document_no_dangling file tag_field folder ocr_engine :
  keeps I (api.create_document env file tag_field folder ocr_engine).
Proof.
  unfold api.create_document.
  apply keeps_bind; [apply keeps_gets|]. intros s.
  destruct (_ >? max_file_size s); [apply keeps_raise|].
  apply keeps_bind; [apply keeps_gets|]. intros st.
  destruct (_ =? "application/zip")%string; [|apply ingest_single_no_dangling].
  destruct (_ >? max_zip_size s); [apply keeps_raise|].
  destruct (zip_infolist env (api.content file)) as [infolist|]; [|apply keeps_raise].
  apply keeps_bind; [apply expand_zip_no_dangling|].
  intros [|first rest]; [apply keeps_raise | apply keeps_gets].
Qed.

Lemma process_document_ocr_no_dangling document_id engine :
  keeps I (api.process_document_ocr env document_id engine).
Proof.
  intros w [T D].
  destruct (database.get_document document_id (db w)) as [doc|] eqn:G.
  - rewrite (process_document_ocr_found _ _ _ _ _ G). cbn [snd]. split; [exact T|].
    intros x Hx t Ht. cbn [db set_db database.set_documents documents db_tags] in *.
    destruct (dict_set_values_in _ _ _ _ Hx) as [->|Hold].
    + apply (D doc (dict_get_in _ _ _ G)).
      destruct (settled_same_record env doc engine w)
        as (_ & _ & _ & _ & _ & _ & _ & _ & Eq). now rewrite <- Eq.
    + exact (D x Hold t Ht).
  - rewrite (process_document_ocr_missing _ _ _ _ G). now split.
Qed.

Lemma reocr_document_no_dangling document_id ocr_engine :
  keeps I (api.reocr_document env document_id ocr_engine).
Proof.
  unfold api.reocr_document.
  apply keeps_bind; [apply keeps_gets|]. intros [doc|]; [|apply keeps_raise].
  apply keeps_bind; [apply keeps_gets|]. intros s.
  apply keeps_bind; [apply process_document_ocr_no_dangling|]. intros _. apply keeps_ret.
Qed.

Lemma delete_document_no_dangling document_id : keeps I (api.delete_document document_id).
Proof.
  assert (Del : forall st p, keeps I (storage.delete_file st p)).
  { intros st p. apply (keeps_same_db no_dangling_tags). intros w.
    unfold storage.delete_file. destruct st; [|reflexivity].
    now destruct (dict_mem String.eqb p (files w)). }
  unfold api.delete_document.
  apply keeps_bind; [apply keeps_gets|]. intros [doc|]; [|apply keeps_raise].
  apply keeps_bind; [apply keeps_gets|]. intros st.
  apply keeps_bind; [apply Del|]. intros _.
  apply keeps_bind.
  { destruct (thumbnail_path doc) as [t|]; [|apply keeps_ret].
    destruct (Str.truthy t); [apply Del | apply keeps_ret]. }
  intros _ w [T D]. cbn [snd db set_db]. unfold database.delete_document.
  destruct (dict_mem Nat.eqb document_id (documents (db w))); cbn [fst snd]; [|now split].
  split; [exact T|]. intros x Hx. cbn in Hx. apply dict_del_values_incl in Hx.
  exact (D x Hx).
Qed.

End NoDangling.

Lemma perform_no_dangling env c w :
  no_dangling_tags (db w) -> no_dangling_tags (db (perform env c w)).
Proof.
  intros H.
  destruct c as [file tag_field folder engine|tag|tid|document_id tid|document_id tid
                 |document_id|document_id engine]; cbn [perform].
  - exact (create_document_no_dangling env file tag_field folder engine w H).
  - destruct H as [T D]. unfold on_db, api.create_tag. cbn [db set_db].
    destruct (database.get_tag_by_name env (tag_name tag) (db w)); cbn [snd]; [now split|].
    split; [now apply tags_keyed_set|].
    intros doc Hdoc t Ht. cbn. apply mem_set_mono. exact (D doc Hdoc t Ht).
  - destruct H as [T D]. unfold on_db, api.delete_tag, database.delete_tag. cbn [db set_db].
    destruct (dict_mem Nat.eqb tid (db_tags (db w))); cbn [fst snd]; [|now split].
    split.
    + intros k t Ht. cbn in Ht. apply entries_del in Ht. now apply T.
    + intros doc Hdoc t Ht. cbn [documents db_tags] in *.
      unfold dict_values in Hdoc. rewrite map_map in Hdoc. cbn [snd] in Hdoc.
      apply in_map_iff in Hdoc. destruct Hdoc as ([k0 doc0] & <- & Hin).
      cbn [snd database.assign_tags tags] in Ht.
      unfold database.without_tag in Ht. apply filter_In in Ht. destruct Ht as [Ht Ne].
      apply Bool.negb_true_iff, Nat.eqb_neq in Ne.
      rewrite (mem_del_other _ _ _ Ne). apply (D doc0); [|exact Ht].
      unfold dict_values. apply in_map_iff. now exists (k0, doc0).
  - destruct H as [T D]. unfold on_db, api.add_tag_to_document, database.add_tag_to_document.
    cbn [db set_db].
    destruct (dict_get Nat.eqb document_id (documents (db w))) as [doc|] eqn:Gd; [|now split].
    destruct (dict_get Nat.eqb tid (db_tags (db w))) as [tag|] eqn:Gt; [|now split].
    destruct (existsb _ (tags doc)); cbn [snd]; [now split|].
    split; [exact T|]. intros x Hx t Ht. cbn [documents db_tags database.set_documents] in *.
    destruct (dict_set_values_in _ _ _ _ Hx) as [->|Hold]; [|exact (D x Hold t Ht)].
    cbn [database.assign_tags tags] in Ht. apply in_app_or in Ht.
    destruct Ht as [Ht|[<-|[]]].
    + exact (D doc (dict_get_in _ _ _ Gd) t Ht).
    + apply entry_of_get in Gt. rewrite (T _ _ Gt). exact (mem_of_entry _ _ _ Gt).
  - destruct H as [T D].
    unfold on_db, api.remove_tag_from_document, database.remove_tag_from_document.
    cbn [db set_db].
    destruct (dict_get Nat.eqb document_id (documents (db w))) as [doc|] eqn:Gd; [|now split].
    cbn [snd]. split; [exact T|].
    intros x Hx t Ht. cbn [documents db_tags database.set_documents] in *.
    destruct (dict_set_values_in _ _ _ _ Hx) as [->|Hold]; [|exact (D x Hold t Ht)].
    cbn [database.assign_tags tags] in Ht. unfold database.without_tag in Ht.
    apply filter_In in Ht. exact (D doc (dict_get_in _ _ _ Gd) t (proj1 Ht)).
  - exact (delete_document_no_dangling document_id w H).
  - exact (reocr_document_no_dangling env document_id engine w H).
Qed.

(** X19.  No dangling tags: whatever uploads, tag creations, tag deletions,
    taggings, untaggings, document deletions and OCR runs are served, an
    index in which every tag is stored under its own id and every tag a
    document carries has an id of the index stays so; deleting a tag never
    leaves it behind on a document. *)
Theorem documents_carry_only_indexed_tags env cs w :
  no_dangling_tags (db w) -> no_dangling_tags (db (perform_all env cs w)).
Proof.
  unfold perform_all. revert w.
  induction cs as [|c cs IH]; intros w H; cbn [fold_left]; [exact H|].
  apply IH. now apply perform_no_dangling.
Qed.

Lemma documents_carry_only_indexed_tags_witness :
  let cs := [Upload demo.png (Some "Report, x") "/" None;
             NewTag (mkTag 90%nat "Letters" "#00ff00");
             TagDocument 2%nat 90%nat;
             DropTag 3%nat] in
  let w := perform_all demo.env cs demo.start in
  map (fun doc => map tag_name (tags doc)) (dict_values (documents (db w)))
    = [["x"; "Letters"]] /\
  map tag_name (database.list_tags (db w)) = ["x"; "Letters"] /\
  no_dangling_tags (db w).
Proof.
  intros cs w. split; [vm_compute; reflexivity|]. split; [vm_compute; reflexivity|].
  apply (documents_carry_only_indexed_tags demo.env cs demo.start).
  split; [intros k t H | intros doc H]; vm_compute in H; destruct H.
Defined.

(** ** Archive members get no thumbnail *)

Section ZipThumbnails.
Context (env : Env) (w0 : World).

(** A document of the index has no thumbnail, or was in the index of [w0]
    with the thumbnail it has. *)
Let I (w : World) : Prop :=
  forall document_id doc',
    database.get_document document_id (db w) = Some doc' ->
    thumbnail_path doc' = None \/
    exists doc, database.get_document document_id (db w0) = Some doc /\
                thumbnail_path doc = thumbnail_path doc'.

Lemma ingest_member_no_thumbnail st zip_info tag_field folder engine :
  keeps I (api.ingest_member env st zip_info tag_field folder engine).
Proof.
  unfold api.ingest_member. apply keeps_bind; [apply read_member_keeps|]. intros file_data.
  apply returns_keeps. intros w Hw.
  eapply returns_bind; [apply save_file_returns|]. intros p w1 (D1 & _).
  eapply returns_bind; [apply new_Document_returns|]. intros doc0 w3 (E0 & ->).
  apply register_returns. intros ts w4 w' _ _ Dc _ _ _ _. apply returns_ret.
  intros document_id doc' G. unfold database.get_document in G. rewrite Dc in G.
  cbn [db] in G. rewrite D1 in G.
  destruct (Nat.eq_dec document_id (doc_id doc0)) as [->|N].
  - rewrite (kdict_get_set_same _ Nat.eqb_spec) in G. left.
    injection G as <-.
    match goal with
    | |- thumbnail_path (settled ?e ?d ?g ?x) = _ =>
        destruct (settled_same_record e d g x) as (_ & _ & _ & _ & _ & _ & Th & _)
    end.
    rewrite Th, E0. reflexivity.
  - rewrite (kdict_get_set_other _ Nat.eqb_spec _ _ _ _ N) in G. exact (Hw _ _ G).
Qed.

Lemma expand_zip_no_thumbnail st s infolist tag_field folder engine :
  forall docs, keeps I (api.expand_zip env st s infolist tag_field folder engine docs).
Proof.
  induction infolist as [|zip_info rest IH]; intros docs; cbn [api.expand_zip].
  - apply keeps_ret.
  - destruct (api.is_dir zip_info) as [e|[|]]; [apply keeps_raise | apply IH |].
    destruct (zi_file_size zip_info >? max_file_size s); [apply IH|].
    destruct (negb (api.accepted_type (guess_type env (zi_filename zip_info)))); [apply IH|].
    apply keeps_bind; [apply ingest_member_no_thumbnail|]. intros doc. apply IH.
Qed.

Lemma create_document_zip_no_thumbnail file tag_field folder ocr_engine :
  api.upload_mime_type env file = "application/zip" ->
  keeps I (api.create_document env file tag_field folder ocr_engine).
Proof.
  intros Hmime. unfold api.create_document.
  apply keeps_bind; [apply keeps_gets|]. intros s.
  destruct (_ >? max_file_size s); [apply keeps_raise|].
  apply keeps_bind; [apply keeps_gets|]. intros st.
  rewrite Hmime. cbn [String.eqb Ascii.eqb Bool.eqb].
  destruct (_ >? max_zip_size s); [apply keeps_raise|].
  destruct (zip_infolist env (api.content file)) as [infolist|]; [|apply keeps_raise].
  apply keeps_bind; [apply expand_zip_no_thumbnail|].
  intros [|first rest]; [apply keeps_raise | apply keeps_gets].
Qed.

End ZipThumbnails.

(** X20.  An upload taken as a ZIP archive makes no thumbnail, not even for
    its image members: whatever the request answers, a document id that was
    not in the index before is afterwards absent or a document without
    thumbnail, so that asking for its thumbnail answers 404; the documents
    that were in the index keep the thumbnail they had. *)
Theorem zip_upload_makes_no_thumbnail env file tag_field folder ocr_engine w document_id :
  api.upload_mime_type env file = "application/zip" ->
  let w' := snd (api.create_document env file tag_field folder ocr_engine w) in
  (forall doc', database.get_document document_id (db w') = Some doc' ->
     thumbnail_path doc' = None \/
     exists doc, database.get_document document_id (db w) = Some doc /\
                 thumbnail_path doc = thumbnail_path doc') /\
  (database.get_document document_id (db w) = None ->
   api.get_document_thumbnail env document_id w' =
     (inl (HTTPException 404
             (match database.get_document document_id (db w') with
              | Some _ => Thumbnail_not_available
              | None => Document_not_found
              end)), w')).
Proof.
  intros Hmime w'.
  assert (H : forall doc', database.get_document document_id (db w') = Some doc' ->
     thumbnail_path doc' = None \/
     exists doc, database.get_document document_id (db w) = Some doc /\
                 thumbnail_path doc = thumbnail_path doc').
  { intros doc'. apply (create_document_zip_no_thumbnail env w file tag_field folder
                          ocr_engine Hmime w).
    intros k d G. right. now exists d. }
  split; [exact H|]. intros Fresh.
  unfold api.get_document_thumbnail, bind, gets.
  destruct (database.get_document document_id (db w')) as [doc'|] eqn:G; [|reflexivity].
  destruct (H doc' eq_refl) as [->|(doc & Gd & _)]; [reflexivity|congruence].
Qed.

Lemma zip_upload_makes_no_thumbnail_witness :
  let r := api.create_document demo.env demo.archive None "/scans/" None demo.start in
  option_map mime_type (database.get_document 1%nat (db (snd r))) = Some "image/png" /\
  api.get_document_thumbnail demo.env 1%nat (snd r) =
    (inl (HTTPException 404 Thumbnail_not_available), snd r).
Proof.
  intros r. split; [vm_compute; reflexivity|].
  destruct (zip_upload_makes_no_thumbnail demo.env demo.archive None "/scans/" None
              demo.start 1%nat eq_refl) as [_ H].
  subst r. rewrite (H eq_refl). vm_compute. reflexivity.
Defined.
